(** * state_dict_to_h5: the DictStorage codec

    A shallow embedding of [src/state_dict_to_h5/module.py] and the
    properties of its specification.

    The class [DictStorage] stores nested Python data (dict, list, tuple,
    None, bool, int, float, str, torch tensors) in an HDF5 file through
    h5py.  The embedding has three layers:

    - [Py]: the Python values the codec handles, exceptions, and the two
      builtins [str] and [int] on integers;
    - [H5]: the tree store (h5py groups and datasets with their ["type"]
      attribute);
    - the methods of [DictStorage] themselves, one definition per method
      or inner function, under the names of the source.

    Modelling conventions.
    - A Python [str] is the [string] of its characters, and the [bytes]
      that are the UTF-8 form of a text are the same [string]:
      [encode("utf-8")] and [decode("utf-8")] are the identity on it.
      Outside ASCII the model has the characters up to 255; the code
      treats those beyond like these.  The character NUL is a character
      like any other for Python; h5py does not store it.
    - A Python [int] is a [Z].  numpy gives an integer the type int64,
      uint64 from 2^63 on, and object outside these; h5py has no type for
      an array of objects.
    - A tensor carries what [Tensor.cpu().numpy()] looks at: its device,
      layout, [requires_grad], the conjugate and negative bits and its
      element type.  The element types that torch and numpy share are
      those of torch 2.3; gradient mode is on, as it is by default.
      [self.torchDevice] and the device of a tensor name devices of the
      machine.
    - An h5py name is a single link name: h5py reads ['/'] inside a name as
      a path separator, which the store model does not cover; where a
      statement depends on a name being stored as it is given, the name is
      assumed to be a [link_name].
    - A raised exception abandons the call; the partly written store is not
      returned (the specification gives no partial-write guarantee).
    - The debugging [print] calls of [fromDict] are not modelled; the
      warning printed by [unpack] is. *)

From Stdlib Require Import String Ascii List ZArith Lia Bool Permutation.
From Stdlib Require Import DecimalString DecimalZ DecimalPos SpecFloat.
Import ListNotations.
Open Scope string_scope.
Set Warnings "-register-all".

(* ================================================================== *)
(** ** Python values *)
(* ================================================================== *)

Module Py.

(** Exceptions, by class.  The message is the one of the source where the
    source raises; for exceptions raised by a library it names the cause. *)
Inductive exn : Type :=
| KeyError (msg : string)
| ValueError (msg : string)
| TypeError (msg : string)
| AttributeError (msg : string)
| IndexError (msg : string)
| RuntimeError (msg : string)
| NotImplementedError (msg : string).

(** The outcome of a call that may raise. *)
Inductive result (A : Type) : Type :=
| Ok (a : A)
| Raise (e : exn).
Arguments Ok {A} a.
Arguments Raise {A} e.

Definition bind {A B : Type} (m : result A) (f : A -> result B) : result B :=
  match m with
  | Ok a => f a
  | Raise e => Raise e
  end.

Definition raises {A : Type} (m : result A) : Prop :=
  exists e, m = Raise e.

(** A Python [float]: an IEEE-754 binary64 number. *)
Definition float : Type := spec_float.

(** A numpy scalar element. *)
Inductive scalar : Type :=
| SBool (b : bool)
| SInt (z : Z)
| SFloat (x : float).

(** A numpy array: element type name, shape and the elements in row-major
    order.  [np.array(5)] has shape [[]]; [np.array([])] has shape [[0]]. *)
Record ndarray : Type := mk_ndarray {
  dtype : string;
  shape : list nat;
  elems : list scalar
}.

(** A [torch.Tensor]: the device it lives on, its layout
    (["torch.strided"] for a dense tensor), whether it requires a
    gradient, its conjugate and negative bits, and its contents, under the
    name of its element type. *)
Record tensor : Type := mk_tensor {
  device : string;
  layout : string;
  requires_grad : bool;
  is_conj : bool;
  is_neg : bool;
  array : ndarray
}.

(** What a dataset holds: [data[()]] is a numpy array or scalar, or a
    [bytes] object for a string dataset. *)
Inductive payload : Type :=
| PArray (a : ndarray)
| PBytes (s : string).

(** Dictionary keys.  [KOther] stands for any other hashable object
    (a float, a tuple, None, bytes, ...). *)
Inductive key : Type :=
| KStr (s : string)
| KInt (z : Z)
| KBool (b : bool)
| KOther (repr : string).

(** Python objects.  A [VDict] lists its items in insertion order; in a
    Python dict the keys are pairwise distinct.  [VNumpy] is a raw numpy
    or bytes object as h5py returns it; [VOther] stands for an object of
    any other class (a set, a complex number, a user-defined object). *)
Inductive value : Type :=
| VNone
| VBool (b : bool)
| VInt (z : Z)
| VFloat (x : float)
| VStr (s : string)
| VTensor (t : tensor)
| VDict (items : list (key * value))
| VList (l : list value)
| VTuple (l : list value)
| VNumpy (p : payload)
| VOther (repr : string).

(** [isinstance(x, cls)] for the classes the source tests.  [bool] is a
    subclass of [int]; [numpy.float64] is a subclass of [float]. *)
Definition isinstance_dict (x : value) : bool :=
  match x with VDict _ => true | _ => false end.
Definition isinstance_list (x : value) : bool :=
  match x with VList _ => true | _ => false end.
Definition isinstance_tuple (x : value) : bool :=
  match x with VTuple _ => true | _ => false end.
Definition is_None (x : value) : bool :=
  match x with VNone => true | _ => false end.
Definition isinstance_Tensor (x : value) : bool :=
  match x with VTensor _ => true | _ => false end.
Definition isinstance_bool (x : value) : bool :=
  match x with VBool _ => true | _ => false end.
Definition isinstance_float (x : value) : bool :=
  match x with
  | VFloat _ => true
  | VNumpy (PArray a) =>
      match shape a, elems a with
      | [], [SFloat _] => String.eqb (dtype a) "float64"
      | _, _ => false
      end
  | _ => false
  end.
Definition isinstance_int (x : value) : bool :=
  match x with VInt _ | VBool _ => true | _ => false end.
Definition isinstance_str (x : value) : bool :=
  match x with VStr _ => true | _ => false end.

Definition key_isinstance_int (k : key) : bool :=
  match k with KInt _ | KBool _ => true | _ => false end.
Definition key_isinstance_str (k : key) : bool :=
  match k with KStr _ => true | _ => false end.

(** [str(z)] for an integer: decimal digits, ['-'] in front of a negative
    number. *)
Definition str_int (z : Z) : string := NilZero.string_of_int (Z.to_int z).

Definition str_bool (b : bool) : string := if b then "True" else "False".

(** [str(key)] for a key that is an instance of [int]. *)
Definition str_key (k : key) : string :=
  match k with
  | KInt z => str_int z
  | KBool b => str_bool b
  | KStr s => s
  | KOther r => r
  end.

(** [c.isspace()]: tab to carriage return, the four separators from 28 to
    31, the space, the next-line character 133 and the no-break space
    160. *)
Definition isspace (c : ascii) : bool :=
  let n := nat_of_ascii c in
  (Nat.leb 9 n && Nat.leb n 13) || (Nat.leb 28 n && Nat.leb n 31) || Nat.eqb n 32
  || Nat.eqb n 133 || Nat.eqb n 160.

(** [c.isdecimal()]: the digits 0 to 9. *)
Definition isdecimal (c : ascii) : bool :=
  let n := nat_of_ascii c in Nat.leb 48 n && Nat.leb n 57.

(** [s.lstrip()] and [s.rstrip()] *)
Fixpoint lstrip (s : string) : string :=
  match s with
  | EmptyString => EmptyString
  | String c s' => if isspace c then lstrip s' else s
  end.

Fixpoint rstrip (s : string) : string :=
  match s with
  | EmptyString => EmptyString
  | String c s' =>
      match rstrip s' with
      | EmptyString => if isspace c then EmptyString else String c EmptyString
      | r => String c r
      end
  end.

(** The digits of a decimal literal, without its underscores: the literal
    is one digit or more, with single underscores between digits only. *)
Fixpoint literal_digits (s : string) : option string :=
  match s with
  | EmptyString => None
  | String c s' =>
      if isdecimal c then
        match s' with
        | EmptyString => Some (String c EmptyString)
        | String c' s'' =>
            if Ascii.eqb c' "_" then option_map (String c) (literal_digits s'')
            else option_map (String c) (literal_digits s')
        end
      else None
  end.

(** [int(s)] on a string: white space around the literal is dropped; the
    literal is an optional sign and decimal digits, with single underscores
    between digits; [ValueError] otherwise.  (Python's [int] also reads
    the decimal digits and the white space of Unicode beyond the character
    255, which the strings of the model do not have.) *)
Definition int_of_str (s : string) : result Z :=
  let literal := rstrip (lstrip s) in
  let signed :=
    match literal with
    | EmptyString => None
    | String c r =>
        if Ascii.eqb c "-" then option_map (String "-") (literal_digits r)
        else if Ascii.eqb c "+" then literal_digits r
        else literal_digits literal
    end in
  match signed with
  | Some digits =>
      match NilZero.int_of_string digits with
      | Some d => Ok (Z.of_int d)
      | None => Raise (ValueError "invalid literal for int() with base 10")
      end
  | None => Raise (ValueError "invalid literal for int() with base 10")
  end.

(** [s[n:]] *)
Fixpoint slice_from (n : nat) (s : string) : string :=
  match n, s with
  | O, _ => s
  | S _, EmptyString => EmptyString
  | S n', String _ s' => slice_from n' s'
  end.

(** [s.startswith(p)] *)
Definition startswith (s p : string) : bool := String.prefix p s.

(** The element types that numpy, torch and HDF5 have in common. *)
Definition numeric_dtypes : list string :=
  ["bool"; "uint8"; "uint16"; "uint32"; "uint64";
   "int8"; "int16"; "int32"; "int64";
   "float16"; "float32"; "float64"; "complex64"; "complex128"].

Definition numeric_dtype (d : string) : bool :=
  existsb (String.eqb d) numeric_dtypes.

(** The type numpy gives a Python [int]: int64 where it fits, uint64 up
    to 2^64, and an array of one Python object otherwise. *)
Definition int_dtype (z : Z) : string :=
  if Z.leb (- 2 ^ 63) z && Z.ltb z (2 ^ 63) then "int64"
  else if Z.leb (2 ^ 63) z && Z.ltb z (2 ^ 64) then "uint64"
  else "object".

(** [np.array(data)] for a Python scalar. *)
Definition np_array_bool (b : bool) : ndarray := mk_ndarray "bool" [] [SBool b].
Definition np_array_int (z : Z) : ndarray := mk_ndarray (int_dtype z) [] [SInt z].
Definition np_array_float (x : float) : ndarray := mk_ndarray "float64" [] [SFloat x].
(** [np.array([])] *)
Definition np_array_empty : ndarray := mk_ndarray "float64" [0%nat] [].

(** [a.item()]: the one element of an array of size 1 as a Python scalar. *)
Definition item (p : payload) : result value :=
  match p with
  | PArray a =>
      match elems a with
      | [SBool b] => Ok (VBool b)
      | [SInt z] => Ok (VInt z)
      | [SFloat x] => Ok (VFloat x)
      | _ => Raise (ValueError "can only convert an array of size 1 to a Python scalar")
      end
  | PBytes _ => Raise (AttributeError "'bytes' object has no attribute 'item'")
  end.

(** [torch.tensor(data, device=device)] for a numpy array or scalar: a new
    dense tensor; [TypeError] for an element type torch does not have. *)
Definition torch_tensor (data : ndarray) (device : string) : result tensor :=
  if numeric_dtype (dtype data) then
    Ok (mk_tensor device "torch.strided" false false false data)
  else
    Raise (TypeError "can't convert np.ndarray of this type to a tensor").

(** [t.cpu().numpy()]: [cpu] has no data to copy from the meta device;
    [numpy] refuses, in this order, a layout that is not strided, a tensor
    that requires a gradient, a set conjugate or negative bit, and an
    element type numpy does not have. *)
Definition tensor_cpu_numpy (t : tensor) : result ndarray :=
  if String.eqb (device t) "meta" then
    Raise (NotImplementedError "Cannot copy out of meta tensor; no data!")
  else if negb (String.eqb (layout t) "torch.strided") then
    Raise (TypeError "can't convert a tensor of this layout to numpy")
  else if requires_grad t then
    Raise (RuntimeError "Can't call numpy() on Tensor that requires grad")
  else if is_conj t then
    Raise (RuntimeError "Can't call numpy() on Tensor that has conjugate bit set")
  else if is_neg t then
    Raise (RuntimeError "Can't call numpy() on Tensor that has negative bit set")
  else if negb (numeric_dtype (dtype (array t))) then
    Raise (TypeError "Got unsupported ScalarType")
  else
    Ok (array t).

Definition float_is_zero (x : float) : bool :=
  match x with S754_zero _ => true | _ => false end.

(** [bool(x)] for the scalars [item] returns. *)
Definition truth (x : value) : bool :=
  match x with
  | VBool b => b
  | VInt z => negb (Z.eqb z 0)
  | VFloat f => negb (float_is_zero f)
  | _ => true
  end.

End Py.
Export Py.

Declare Scope py_scope.
Delimit Scope py_scope with py.
Notation "x <- m ;; k" := (bind m (fun x => k))
  (at level 61, m at next level, right associativity) : py_scope.
Notation "' pat <- m ;; k" := (bind m (fun x => match x with pat => k end))
  (at level 61, pat pattern, m at next level, right associativity) : py_scope.
Open Scope py_scope.

(* ================================================================== *)
(** ** The tree store: h5py groups and datasets *)
(* ================================================================== *)

Module H5.

(** A node of the file.  Of the attributes only ["type"] is used by the
    codec: [attr_type] is [None] when the attribute is not set.  The links
    of a group are listed in the order in which h5py enumerates them. *)
Inductive node : Type :=
| Group (attr_type : option string) (links : list (string * node))
| Dataset (attr_type : option string) (data : payload).

(** A name h5py takes as one link: not empty, not ["."], without ['/']
    and without a NUL character. *)
Fixpoint has_char (c : ascii) (s : string) : bool :=
  match s with
  | EmptyString => false
  | String a s' => Ascii.eqb a c || has_char c s'
  end.

Definition link_name (s : string) : bool :=
  negb (String.eqb s "") && negb (String.eqb s ".")
  && negb (has_char "/" s) && negb (has_char zero s).

Fixpoint lookup (name : string) (links : list (string * node)) : option node :=
  match links with
  | [] => None
  | (name', n) :: rest => if String.eqb name name' then Some n else lookup name rest
  end.

(** The object under an existing link is replaced; the link keeps its
    place in the enumeration. *)
Fixpoint relink (name : string) (n : node) (links : list (string * node))
  : list (string * node) :=
  match links with
  | [] => []
  | (name', n') :: rest =>
      if String.eqb name name' then (name', n) :: rest
      else (name', n') :: relink name n rest
  end.

(** The link of that name is dropped. *)
Definition unlink (name : string) (links : list (string * node))
  : list (string * node) :=
  filter (fun l => negb (String.eqb name (fst l))) links.

Fixpoint insert_by_name (name : string) (n : node) (links : list (string * node))
  : list (string * node) :=
  match links with
  | [] => [(name, n)]
  | (name', n') :: rest =>
      if String.ltb name name' then (name, n) :: links
      else (name', n') :: insert_by_name name n rest
  end.

Section Store.

(** [h5py.get_config().track_order]: when set, a group enumerates its
    links in creation order; otherwise (the default of h5py) in the order
    of their names, compared byte by byte. *)
Variable track_order : bool.

(** The operations below are those of h5py for a name that is one link
    ([link_name]); h5py reads any other name as a path. *)

(** A new link enters the enumeration. *)
Definition add_link (name : string) (n : node) (links : list (string * node))
  : list (string * node) :=
  if track_order then links ++ [(name, n)] else insert_by_name name n links.

(** [name in position].  On a dataset Python iterates over its first axis
    and compares each entry with the name.  A scalar dataset cannot be
    iterated.  The entries of a dataset with one axis are numbers, none
    equal to a string.  With more axes the entries are arrays, and the
    comparison gives an array of booleans whose truth value numpy (2.2)
    takes only if it has one element. *)
Definition contains (name : string) (position : node) : result bool :=
  match position with
  | Group _ links =>
      Ok (match lookup name links with Some _ => true | None => false end)
  | Dataset _ (PArray a) =>
      match shape a with
      | [] => Raise (TypeError "Can't iterate over a scalar dataset")
      | [_] => Ok false
      | n :: row =>
          if Nat.eqb n 0 then Ok false
          else if Nat.eqb (fold_right Nat.mul 1 row) 1 then Ok false
          else Raise (ValueError "The truth value of an array is ambiguous")
      end
  | Dataset _ (PBytes _) => Raise (TypeError "Can't iterate over a scalar dataset")
  end.

(** [position[name]] *)
Definition getitem (name : string) (position : node) : result node :=
  match position with
  | Group _ links =>
      match lookup name links with
      | Some n => Ok n
      | None => Raise (KeyError "object doesn't exist")
      end
  | Dataset _ _ => Raise (ValueError "field names only allowed for compound types")
  end.

(** Writing through the handle [position[name]] writes to the file: the
    node under [name] becomes [n]. *)
Definition setitem (name : string) (n : node) (position : node) : node :=
  match position with
  | Group ty links => Group ty (relink name n links)
  | Dataset ty p => Dataset ty p
  end.

(** [position.create_group(name)]: the new group has no attributes and no
    links; h5py raises [ValueError] when the name is taken. *)
Definition create_group (name : string) (position : node) : result node :=
  match position with
  | Group ty links =>
      match lookup name links with
      | Some _ => Raise (ValueError "Unable to create group (name already exists)")
      | None => Ok (Group ty (add_link name (Group None []) links))
      end
  | Dataset _ _ => Raise (AttributeError "'Dataset' object has no attribute 'create_group'")
  end.

(** Whether HDF5 has a type for the data: for the numeric element types
    and the extended floats of numpy, not for an array of Python objects;
    a [bytes] object is stored as a string of variable length. *)
Definition h5_type (data : payload) : bool :=
  match data with
  | PArray a =>
      numeric_dtype (dtype a)
      || String.eqb (dtype a) "float96" || String.eqb (dtype a) "float128"
  | PBytes _ => true
  end.

(** Whether the data can be written: a string of variable length ends at
    its first NUL, and h5py refuses one that holds a NUL. *)
Definition h5_writable (data : payload) : bool :=
  match data with
  | PArray _ => true
  | PBytes s => negb (has_char zero s)
  end.

(** [position.create_dataset(name, data=data)]: h5py makes the HDF5 type
    of the data ([TypeError] when there is none), creates the dataset
    ([ValueError] when the name is taken) and writes the data
    ([ValueError] for a string with a NUL). *)
Definition create_dataset (name : string) (data : payload) (position : node)
  : result node :=
  match position with
  | Group ty links =>
      if h5_type data then
        match lookup name links with
        | Some _ => Raise (ValueError "Unable to create dataset (name already exists)")
        | None =>
            if h5_writable data then
              Ok (Group ty (add_link name (Dataset None data) links))
            else
              Raise (ValueError "VLEN strings do not support embedded NULLs")
        end
      else
        Raise (TypeError "Object dtype has no native HDF5 equivalent")
  | Dataset _ _ => Raise (AttributeError "'Dataset' object has no attribute 'create_dataset'")
  end.

(** [del position[name]] *)
Definition delitem (name : string) (position : node) : result node :=
  match position with
  | Group ty links =>
      match lookup name links with
      | Some _ => Ok (Group ty (unlink name links))
      | None => Raise (KeyError "Couldn't delete link (name doesn't exist)")
      end
  | Dataset _ _ => Raise (TypeError "'Dataset' object does not support item deletion")
  end.

(** [node.attrs["type"] = ty] *)
Definition set_attr_type (ty : string) (n : node) : node :=
  match n with
  | Group _ links => Group (Some ty) links
  | Dataset _ p => Dataset (Some ty) p
  end.

(** [node.attrs["type"]] *)
Definition attr_type_of (n : node) : result string :=
  match n with
  | Group (Some ty) _ | Dataset (Some ty) _ => Ok ty
  | _ => Raise (KeyError "Can't open attribute (can't locate attribute: 'type')")
  end.

(** [position[name].attrs["type"] = ty] *)
Definition set_type (name ty : string) (position : node) : result node :=
  child <- getitem name position ;;
  Ok (setitem name (set_attr_type ty child) position).

(** [isinstance(n, h5py.Group)] *)
Definition is_group (n : node) : bool :=
  match n with Group _ _ => true | Dataset _ _ => false end.

(** [len(position.keys())] *)
Definition len_keys (position : node) : nat :=
  match position with
  | Group _ links => List.length links
  | Dataset _ _ => 0
  end.

(** The node a path of link names leads to, from [root]. *)
Fixpoint resolve (path : list string) (root : node) : result node :=
  match path with
  | [] => Ok root
  | i :: rest => child <- getitem i root ;; resolve rest child
  end.

(** The file after the node at [path] has become [n]. *)
Fixpoint update (path : list string) (n : node) (root : node) : node :=
  match path with
  | [] => n
  | i :: rest =>
      match root with
      | Group ty links =>
          match lookup i links with
          | Some child => Group ty (relink i (update rest n child) links)
          | None => root
          end
      | Dataset _ _ => root
      end
  end.

End Store.

End H5.
Export H5.

(* ================================================================== *)
(** ** Output of the decoder *)
(* ================================================================== *)

(** A computation that prints lines and then returns or raises. *)
Definition out (A : Type) : Type := (list string * result A)%type.

Definition out_ret {A : Type} (a : A) : out A := ([], Ok a).

Definition out_lift {A : Type} (r : result A) : out A := ([], r).

Definition out_bind {A B : Type} (m : out A) (f : A -> out B) : out B :=
  match m with
  | (w, Ok a) => let '(w', r) := f a in ((w ++ w')%list, r)
  | (w, Raise e) => (w, Raise e)
  end.

(** [print(line)] *)
Definition print (line : string) : out unit := ([line], Ok tt).

Notation "x <~ m ;; k" := (out_bind m (fun x => k))
  (at level 61, m at next level, right associativity) : py_scope.

(* ================================================================== *)
(** ** Mapping keys and link names (module.py, lines 89-94 and 132-144) *)
(* ================================================================== *)

(** The name under which [recursiveInsert] stores the item of [key]. *)
Definition encodeKey (key : Py.key) : result string :=
  if key_isinstance_int key then
    Ok ("__int__" ++ str_key key)
  else if key_isinstance_str key then
    let key := str_key key in
    if startswith key "__int__" then
      Raise (ValueError "Keys starting with __int__ are reserved for internal use")
    else if String.eqb key "__emptyString__" then
      Raise (ValueError "__emptyString__ is reserved for internal use")
    else if String.eqb key "" then
      Ok "__emptyString__"
    else
      Ok key
  else
    Raise (ValueError "Keys must be strings or ints").

(** The key [recursiveFetch] gives the item stored under the name [i]. *)
Definition decodeKey (i : string) : result Py.key :=
  if String.eqb i "__emptyString__" then
    Ok (KStr "")
  else if startswith i "__int__" then
    z <- int_of_str (slice_from 7 i) ;; Ok (KInt z)
  else
    Ok (KStr i).

(** Python's equality of keys: [True == 1] and [False == 0]. *)
Definition key_eqb (k1 k2 : Py.key) : bool :=
  match k1, k2 with
  | KStr s1, KStr s2 => String.eqb s1 s2
  | KInt z1, KInt z2 => Z.eqb z1 z2
  | KBool b1, KBool b2 => Bool.eqb b1 b2
  | KInt z, KBool b | KBool b, KInt z => Z.eqb z (if b then 1 else 0)
  | KOther r1, KOther r2 => String.eqb r1 r2
  | _, _ => false
  end.

(** [target[k] = x] on a dict: the value of an existing key is replaced,
    a new key is added at the end. *)
Fixpoint dict_set (k : Py.key) (x : value) (items : list (Py.key * value))
  : list (Py.key * value) :=
  match items with
  | [] => [(k, x)]
  | (k', x') :: rest =>
      if key_eqb k k' then (k', x) :: rest else (k', x') :: dict_set k x rest
  end.

(* ================================================================== *)
(** ** DictStorage *)
(* ================================================================== *)

(** An instance: the open file, the place of [self.group] in it (the
    names given as [groups]) and [self.torchDevice]. *)
Record DictStorage : Type := mk_DictStorage {
  file : node;
  group : list string;
  torchDevice : string
}.

(** The node [self.group] refers to. *)
Definition self_group (self : DictStorage) : result node :=
  resolve (group self) (file self).

(** The instance after [self.group] has become [g]. *)
Definition with_group (self : DictStorage) (g : node) : DictStorage :=
  mk_DictStorage (update (group self) g (file self)) (group self) (torchDevice self).

(** [keys[:-1]] and [keys[-1]]; [None] for the empty list. *)
Fixpoint split_last (keys : list string) : option (list string * string) :=
  match keys with
  | [] => None
  | k :: rest =>
      match split_last rest with
      | None => Some ([], k)
      | Some (init, last) => Some (k :: init, last)
      end
  end.

(** [position[()]] *)
Definition read (position : node) : result payload :=
  match position with
  | Dataset _ p => Ok p
  | Group _ _ => Raise (TypeError "Accessing a group is done with bytes or str, not tuple")
  end.

Section Methods.

Variable track_order : bool.

(** *** __init__ (lines 8-22) *)
Fixpoint open_groups (groups : list string) (position : node) : result node :=
  match groups with
  | [] => Ok position
  | i :: rest =>
      present <- contains i position ;;
      position1 <- (if present then Ok position else create_group track_order i position) ;;
      child <- getitem i position1 ;;
      child' <- open_groups rest child ;;
      Ok (setitem i child' position1)
  end.

Definition init (file : node) (groups : list string) (torchDevice : string)
  : result DictStorage :=
  file' <- open_groups groups file ;;
  Ok (mk_DictStorage file' groups torchDevice).

(** *** fetch (lines 24-31) *)

(** The loop [for i in keys: ...; position = position[i]]. *)
Fixpoint walk (keys : list string) (position : node) : result node :=
  match keys with
  | [] => Ok position
  | i :: rest =>
      present <- contains i position ;;
      if present then child <- getitem i position ;; walk rest child
      else Raise (KeyError "Key not found")
  end.

Definition fetch (self : DictStorage) (keys : list string) : result payload :=
  position <- self_group self ;;
  position <- walk keys position ;;
  read position.

(** *** insert (lines 33-42); [value] is the data as numpy stores it. *)
Fixpoint insert_at (keys : list string) (last : string) (value : payload)
  (position : node) : result node :=
  match keys with
  | [] =>
      present <- contains last position ;;
      position1 <- (if present then delitem last position else Ok position) ;;
      create_dataset track_order last value position1
  | i :: rest =>
      present <- contains i position ;;
      position1 <- (if present then Ok position else create_group track_order i position) ;;
      child <- getitem i position1 ;;
      child' <- insert_at rest last value child ;;
      Ok (setitem i child' position1)
  end.

Definition insert (self : DictStorage) (keys : list string) (value : payload)
  : result DictStorage :=
  match split_last keys with
  | None => Raise (IndexError "list index out of range")
  | Some (init, last) =>
      position <- self_group self ;;
      position' <- insert_at init last value position ;;
      Ok (with_group self position')
  end.

(** *** delete (lines 44-58) *)

(** The loop of lines 55-58, started at the group at the reversed path
    [rev_position] of [file].  [del position] unbinds the local name and
    leaves the file as it is, so the loop only moves up: it ends at the
    first group that has a link ([true]).  The parent of the root group is
    the root group itself: from a root without links the loop never ends
    ([false]). *)
Fixpoint while_childless (file : node) (rev_position : list string) : bool :=
  let childless :=
    match resolve (rev rev_position) file with
    | Ok position => Nat.eqb (len_keys position) 0
    | Raise _ => false
    end in
  if childless then
    match rev_position with
    | [] => false
    | _ :: parent => while_childless file parent
    end
  else true.

(** [None]: the call does not return. *)
Definition delete (self : DictStorage) (keys : list string) (recursive : bool)
  : option (result DictStorage) :=
  match split_last keys with
  | None => Some (Raise (IndexError "list index out of range"))
  | Some (init, last) =>
      let deleted :=
        position <- self_group self ;;
        position <- walk init position ;;
        present <- contains last position ;;
        if present then delitem last position
        else Raise (KeyError "Key not found") in
      match deleted with
      | Raise e => Some (Raise e)
      | Ok position' =>
          let self' :=
            mk_DictStorage (update (group self ++ init)%list position' (file self))
                           (group self) (torchDevice self) in
          if recursive then
            if while_childless (file self') (rev (group self ++ init)%list)
            then Some (Ok self') else None
          else Some (Ok self')
      end
  end.

End Methods.

(** *** toDict (lines 60-101) *)

Definition unknown_type_warning : string :=
  "WARNING: unknown data type hint in loaded file, deserialization may not produce expected results".

Section Decoder.

(** [self.torchDevice] *)
Variable torchDevice : string.

(** [unpack(data)], lines 62-75; [data] is a dataset. *)
Definition unpack (data : node) : out value :=
  match data with
  | Group _ _ => out_lift (Raise (TypeError "unpack: not a dataset"))
  | Dataset _ p =>
      ty <~ out_lift (attr_type_of data) ;;
      if String.eqb ty "None" then
        out_ret VNone
      else if String.eqb ty "float" || String.eqb ty "int" then
        out_lift (item p)
      else if String.eqb ty "bool" then
        out_lift (x <- item p ;; Ok (VBool (truth x)))
      else if String.eqb ty "str" then
        out_lift (match p with
                  | PBytes s => Ok (VStr s)
                  | PArray _ => Raise (AttributeError "object has no attribute 'decode'")
                  end)
      else if String.eqb ty "tensor" then
        out_lift (match p with
                  | PArray a => t <- torch_tensor a torchDevice ;; Ok (VTensor t)
                  | PBytes _ => Raise (TypeError "torch.tensor: invalid data type 'bytes'")
                  end)
      else
        _ <~ print unknown_type_warning ;;
        out_ret (VNumpy p)
  end.

Section Loops.

(** The recursive call of [recursiveFetch]. *)
Variable recursiveFetch : node -> out value.

(** [recursiveFetch(position[i])] for a group, [unpack(position[i])]
    otherwise (lines 80-83 and 95-98). *)
Definition fetch_child (child : node) : out value :=
  if is_group child then recursiveFetch child else unpack child.

(** The loop of lines 79-83 over the links of [position], in the order
    h5py enumerates them. *)
Fixpoint fetch_elements (links : list (string * node)) (target : list value)
  : out (list value) :=
  match links with
  | [] => out_ret target
  | (i, child) :: rest =>
      x <~ fetch_child child ;;
      fetch_elements rest (target ++ [x])
  end.

(** The loop of lines 88-98. *)
Fixpoint fetch_items (links : list (string * node)) (target : list (key * value))
  : out (list (key * value)) :=
  match links with
  | [] => out_ret target
  | (i, child) :: rest =>
      iOut <~ out_lift (decodeKey i) ;;
      x <~ fetch_child child ;;
      fetch_items rest (dict_set iOut x target)
  end.

End Loops.

(** [recursiveFetch(position)], lines 76-100.  The source calls it on
    groups only (lines 81, 96 and 101). *)
Fixpoint recursiveFetch (position : node) : out value :=
  match position with
  | Dataset _ _ => out_lift (Raise (TypeError "recursiveFetch: not a group"))
  | Group attr_type links =>
      ty <~ out_lift (attr_type_of position) ;;
      if String.eqb ty "list" || String.eqb ty "tuple" then
        target <~ fetch_elements (fun child => recursiveFetch child) links [] ;;
        if String.eqb ty "tuple" then out_ret (VTuple target)
        else out_ret (VList target)
      else
        target <~ fetch_items (fun child => recursiveFetch child) links [] ;;
        out_ret (VDict target)
  end.

End Decoder.

Definition toDict (self : DictStorage) : out value :=
  position <~ out_lift (self_group self) ;;
  recursiveFetch (torchDevice self) position.

(** *** fromDict (lines 104-193) *)

(** [np.array(data)] for a Python number. *)
Definition np_array (data : value) : ndarray :=
  match data with
  | VBool b => np_array_bool b
  | VInt z => np_array_int z
  | VFloat x => np_array_float x
  | VNumpy (PArray a) => a
  | _ => np_array_empty
  end.

(** [data.cpu().numpy()] *)
Definition cpu_numpy (data : value) : result ndarray :=
  match data with
  | VTensor t => tensor_cpu_numpy t
  | _ => Raise (AttributeError "object has no attribute 'cpu'")
  end.

(** [data.encode("utf-8")] *)
Definition encode_utf8 (data : value) : payload :=
  match data with
  | VStr s => PBytes s
  | _ => PBytes ""
  end.

(** [pack(data)], lines 106-127. *)
Definition pack (data : value) : result (payload * string) :=
  if is_None data then
    Ok (PArray np_array_empty, "None")
  else if isinstance_Tensor data then
    outData <- cpu_numpy data ;;
    Ok (PArray outData, "tensor")
  else if isinstance_bool data then
    Ok (PArray (np_array data), "bool")
  else if isinstance_float data then
    Ok (PArray (np_array data), "float")
  else if isinstance_int data then
    Ok (PArray (np_array data), "int")
  else if isinstance_str data then
    Ok (encode_utf8 data, "str")
  else
    Raise (ValueError "Invalid data type for serialization").

Section Encoder.

Variable track_order : bool.

Section Loops.

(** The recursive call of [recursiveInsert]. *)
Variable recursiveInsert : node -> value -> result node.

(** Lines 147-150 (and 152-160, 169-182) for the tag [ty]: the group
    under [name] is created and tagged unless the name is in use, then
    filled through the handle [position[name]]. *)
Definition insert_group (name ty : string) (x : value) (position : node)
  : result node :=
  present <- contains name position ;;
  position1 <- (if present then Ok position
                else position1 <- create_group track_order name position ;;
                     set_type name ty position1) ;;
  child <- getitem name position1 ;;
  child' <- recursiveInsert child x ;;
  Ok (setitem name child' position1).

(** Lines 146-164 and 168-186: what is done with the value [x] to be
    stored under [name]. *)
Definition insert_child (name : string) (x : value) (position : node)
  : result node :=
  if isinstance_dict x then insert_group name "dict" x position
  else if isinstance_list x then insert_group name "list" x position
  else if isinstance_tuple x then insert_group name "tuple" x position
  else
    '(outData, outDType) <- pack x ;;
    position1 <- create_dataset track_order name outData position ;;
    set_type name outDType position1.

(** The loop of lines 131-164 over the items of a dict. *)
Fixpoint insert_items (items : list (key * value)) (position : node)
  : result node :=
  match items with
  | [] => Ok position
  | (key, x) :: rest =>
      newKey <- encodeKey key ;;
      position' <- insert_child newKey x position ;;
      insert_items rest position'
  end.

(** The loop of lines 166-186 over [enumerate(data)], from index [idx]. *)
Fixpoint insert_elements (idx : nat) (data : list value) (position : node)
  : result node :=
  match data with
  | [] => Ok position
  | i :: rest =>
      position' <- insert_child (str_int (Z.of_nat idx)) i position ;;
      insert_elements (S idx) rest position'
  end.

End Loops.

(** [recursiveInsert(position, data)], lines 128-186.  A [data] that is
    neither a dict nor a list or tuple leaves [position] as it is. *)
Fixpoint recursiveInsert (position : node) (data : value) {struct data}
  : result node :=
  match data with
  | VDict items =>
      insert_items (fun child x => recursiveInsert child x) items position
  | VList l | VTuple l =>
      insert_elements (fun child x => recursiveInsert child x) 0 l position
  | _ => Ok position
  end.

Definition fromDict (self : DictStorage) (dictionary : value)
  : result DictStorage :=
  position <- self_group self ;;
  let position :=
    if isinstance_dict dictionary then set_attr_type "dict" position
    else if isinstance_list dictionary then set_attr_type "list" position
    else if isinstance_tuple dictionary then set_attr_type "tuple" position
    else position in
  position' <- recursiveInsert position dictionary ;;
  Ok (with_group self position').

End Encoder.

(* ================================================================== *)
(** ** Vocabulary of the specification and of the proofs *)
(* ================================================================== *)

(** The error classes of the specification, as the exceptions the source
    raises for them. *)
Definition ReservedKeyCollision (e : exn) : Prop :=
  e = ValueError "Keys starting with __int__ are reserved for internal use"
  \/ e = ValueError "__emptyString__ is reserved for internal use".

Definition UnsupportedValueType (e : exn) : Prop :=
  e = ValueError "Invalid data type for serialization".

Definition KeyNotFound (e : exn) : Prop :=
  e = KeyError "Key not found".

(** A text that collides with a reserved form (specification, 4.1 rule 1). *)
Definition reserved (s : string) : bool :=
  String.eqb s "__emptyString__" || startswith s "__int__".

Definition colliding (k : key) : bool :=
  match k with KStr s => reserved s | _ => false end.

(** A key of the specification: a text or an integer. *)
Definition text_or_int (k : key) : bool :=
  match k with KStr _ | KInt _ => true | _ => false end.

(** The node name of a key, after the rules of 4.1 of the specification:
    the prefix and the decimal form for an integer, the sentinel for the
    empty text, the text itself otherwise.  The rules give no name to
    other keys ([""] here). *)
Definition spec_encodeKey (k : key) : string :=
  match k with
  | KInt z => "__int__" ++ str_int z
  | KStr "" => "__emptyString__"
  | KStr s => s
  | KBool _ | KOther _ => ""
  end.

(** Dicts, lists and tuples: the values stored as groups. *)
Definition is_container (v : value) : bool :=
  isinstance_dict v || isinstance_list v || isinstance_tuple v.

(** A value of none of the kinds the encoder lists. *)
Definition unsupported (x : value) : bool :=
  match x with
  | VOther _ => true
  | VNumpy _ => negb (isinstance_float x)
  | _ => false
  end.

(** An unsupported value sits in [v] as the value of a dict item or as an
    element of a list or tuple, at any depth. *)
Fixpoint holds_unsupported (v : value) : bool :=
  match v with
  | VDict items =>
      existsb (fun kx => let '(_, x) := kx in unsupported x || holds_unsupported x) items
  | VList l | VTuple l =>
      existsb (fun x => unsupported x || holds_unsupported x) l
  | _ => false
  end.



(** An instance opened on a new, empty file. *)
Definition new_file (torchDevice : string) : DictStorage :=
  mk_DictStorage (Group None []) [] torchDevice.

(** The tag [fromDict] gives the group of a container. *)
Definition tag_of (v : value) : string :=
  match v with
  | VList _ => "list"
  | VTuple _ => "tuple"
  | _ => "dict"
  end.

(** The values directly inside a container. *)
Definition elements (v : value) : list value :=
  match v with
  | VDict items => map snd items
  | VList l | VTuple l => l
  | _ => []
  end.

(** The links of a sequence: the nodes [cs] under the decimal forms of
    [idx], [idx + 1], ... *)
Fixpoint named (idx : nat) (cs : list node) : list (string * node) :=
  match cs with
  | [] => []
  | c :: cs => (str_int (Z.of_nat idx), c) :: named (S idx) cs
  end.

(** The enumeration of a group after the links [new] have been added to
    it one after the other. *)
Definition add_links (track_order : bool) (new links : list (string * node))
  : list (string * node) :=
  fold_left (fun acc l => add_link track_order (fst l) (snd l) acc) new links.

(** [c] is the node the encoder writes for [x] under a free name of a
    group. *)
Definition writes (track_order : bool) (x : value) (c : node) : Prop :=
  forall name ty links,
    lookup name links = None ->
    insert_child track_order (fun child y => recursiveInsert track_order child y)
      name x (Group ty links)
    = Ok (Group ty (add_link track_order name c links)).

(** The decoder gives [x] for the child [c], and prints nothing. *)
Definition decodes (torchDevice : string) (c : node) (x : value) : Prop :=
  fetch_child torchDevice (recursiveFetch torchDevice) c = ([], Ok x).

(** Python's [d[k]] on the items of a dict. *)
Fixpoint dict_get (k : key) (items : list (key * value)) : option value :=
  match items with
  | [] => None
  | (k', x) :: rest => if key_eqb k k' then Some x else dict_get k rest
  end.

Section All2.
Context {A B : Type} (f : A -> B -> bool).
Fixpoint all2 (l : list A) (l' : list B) : bool :=
  match l, l' with
  | [], [] => true
  | a :: l, b :: l' => f a b && all2 l l'
  | _, _ => false
  end.
End All2.

Definition float_same (x y : float) : bool :=
  match x, y with
  | S754_zero a, S754_zero b => Bool.eqb a b
  | S754_infinity a, S754_infinity b => Bool.eqb a b
  | S754_nan, S754_nan => true
  | S754_finite s m e, S754_finite s' m' e' =>
      Bool.eqb s s' && Pos.eqb m m' && Z.eqb e e'
  | _, _ => false
  end.

Definition scalar_same (x y : scalar) : bool :=
  match x, y with
  | SBool a, SBool b => Bool.eqb a b
  | SInt a, SInt b => Z.eqb a b
  | SFloat a, SFloat b => float_same a b
  | _, _ => false
  end.

Definition ndarray_same (a b : ndarray) : bool :=
  String.eqb (dtype a) (dtype b) && all2 Nat.eqb (shape a) (shape b)
  && all2 scalar_same (elems a) (elems b).

Definition payload_same (p q : payload) : bool :=
  match p, q with
  | PArray a, PArray b => ndarray_same a b
  | PBytes s, PBytes t => String.eqb s t
  | _, _ => false
  end.

(** The same value: the same kind and content, a list or tuple with the
    same elements in the same order, a dict with the same keys and, key by
    key, the same values, in whatever order the items are listed. *)
Fixpoint same_value (v w : value) {struct v} : bool :=
  match v, w with
  | VNone, VNone => true
  | VBool a, VBool b => Bool.eqb a b
  | VInt a, VInt b => Z.eqb a b
  | VFloat x, VFloat y => float_same x y
  | VStr s, VStr t => String.eqb s t
  | VTensor t, VTensor u =>
      String.eqb (device t) (device u) && String.eqb (layout t) (layout u)
      && Bool.eqb (requires_grad t) (requires_grad u)
      && Bool.eqb (is_conj t) (is_conj u) && Bool.eqb (is_neg t) (is_neg u)
      && ndarray_same (array t) (array u)
  | VDict items, VDict items' =>
      Nat.eqb (length items) (length items')
      && forallb (fun kx => let '(k, x) := kx in
                            match dict_get k items' with
                            | Some y => same_value x y
                            | None => false
                            end) items
  | VList l, VList l' => all2 (fun x y => same_value x y) l l'
  | VTuple l, VTuple l' => all2 (fun x y => same_value x y) l l'
  | VNumpy p, VNumpy q => payload_same p q
  | VOther r, VOther r' => String.eqb r r'
  | _, _ => false
  end.

(** An integer numpy gives the type int64 or uint64. *)
Definition int64_or_uint64 (z : Z) : bool :=
  Z.leb (- 2 ^ 63) z && Z.ltb z (2 ^ 64).

(** A tensor of which [cpu().numpy()] gives the contents: a dense tensor
    with data, that requires no gradient, has no conjugate or negative bit
    set, and whose element type numpy has. *)
Definition numpy_tensor (t : tensor) : bool :=
  negb (String.eqb (device t) "meta") && String.eqb (layout t) "torch.strided"
  && negb (requires_grad t) && negb (is_conj t) && negb (is_neg t)
  && numeric_dtype (dtype (array t)).

(** A leaf that [pack] accepts and h5py stores: None, a boolean, a float,
    an integer from -2^63 up to 2^64 - 1, a string without NUL, a tensor
    that numpy takes. *)
Definition stored_leaf (x : value) : bool :=
  match x with
  | VNone | VBool _ | VFloat _ => true
  | VInt z => int64_or_uint64 z
  | VStr s => negb (has_char zero s)
  | VTensor t => numpy_tensor t
  | _ => false
  end.

(** Data h5py makes a dataset of. *)
Definition h5_accepts (data : payload) : bool :=
  h5_type data && h5_writable data.

(** Data h5py refuses: an array of Python objects, a string with a NUL. *)
Definition h5_refuses (data : payload) : bool :=
  match data with
  | PArray a => String.eqb (dtype a) "object"
  | PBytes s => has_char zero s
  end.

(** A key the encoder accepts and h5py stores under one link. *)
Definition storable_key (k : key) : bool :=
  match k with
  | KInt _ => true
  | KStr s => negb (reserved s) && (String.eqb s "" || link_name s)
  | _ => false
  end.

Fixpoint distinct_keys (ks : list key) : bool :=
  match ks with
  | [] => true
  | k :: rest => negb (existsb (key_eqb k) rest) && distinct_keys rest
  end.

Section Encodable.

Variable track_order : bool.
Variable torchDevice : string.

(** The values [fromDict] stores so that [toDict] gives them back: the
    enumerated kinds only; leaves that numpy and h5py take
    ([stored_leaf]); dict keys storable and pairwise distinct; tensors on
    the device [toDict] loads to; and, where the groups enumerate their
    links by name, at most ten elements in a list or tuple. *)
Fixpoint encodable (v : value) : bool :=
  match v with
  | VNone | VBool _ | VInt _ | VFloat _ | VStr _ => stored_leaf v
  | VTensor t => stored_leaf v && String.eqb (device t) torchDevice
  | VDict items =>
      forallb storable_key (map fst items) && distinct_keys (map fst items)
      && forallb (fun kx => let '(_, x) := kx in encodable x) items
  | VList l | VTuple l =>
      (track_order || Nat.leb (length l) 10) && forallb encodable l
  | VNumpy _ | VOther _ => false
  end.

End Encodable.

(** An item of a dict on its way through the store: the key, the value,
    the node written for the value and the value read back from it. *)
Record stored_item : Type := mk_stored_item {
  it_key : key;
  it_value : value;
  it_node : node;
  it_back : value
}.

Definition item_of (q : stored_item) : key * value := (it_key q, it_value q).
Definition link_of (q : stored_item) : string * node :=
  (spec_encodeKey (it_key q), it_node q).
Definition entry_of (q : stored_item) : key * value := (it_key q, it_back q).

Definition well_stored (track_order : bool) (torchDevice : string) (q : stored_item)
  : Prop :=
  storable_key (it_key q) = true
  /\ writes track_order (it_value q) (it_node q)
  /\ decodes torchDevice (it_node q) (it_back q)
  /\ same_value (it_value q) (it_back q) = true.

(** The encoder writes a node for [x] from which the decoder reads the
    same value. *)
Definition round_trips (track_order : bool) (torchDevice : string) (x : value)
  : Prop :=
  exists c x',
    writes track_order x c /\ decodes torchDevice c x' /\ same_value x x' = true.

(** The leaves of the enumerated kinds. *)
Definition plain_leaf (x : value) : bool :=
  match x with
  | VNone | VBool _ | VInt _ | VFloat _ | VStr _ | VTensor _ => true
  | _ => false
  end.

(** [v] with every tensor on [torchDevice]. *)
Fixpoint to_device (torchDevice : string) (v : value) : value :=
  match v with
  | VTensor t =>
      VTensor (mk_tensor torchDevice (layout t) (requires_grad t) (is_conj t)
                 (is_neg t) (array t))
  | VDict items =>
      VDict (map (fun kx => let '(k, x) := kx in (k, to_device torchDevice x)) items)
  | VList l => VList (map (to_device torchDevice) l)
  | VTuple l => VTuple (map (to_device torchDevice) l)
  | _ => v
  end.

(** A value of the enumerated kinds whose leaves numpy and h5py take and
    whose dicts have storable, pairwise distinct keys. *)
Fixpoint storable (v : value) : bool :=
  match v with
  | VNone | VBool _ | VInt _ | VFloat _ | VStr _ | VTensor _ => stored_leaf v
  | VDict items =>
      forallb storable_key (map fst items) && distinct_keys (map fst items)
      && forallb (fun kx => let '(_, x) := kx in storable x) items
  | VList l | VTuple l => forallb storable l
  | VNumpy _ | VOther _ => false
  end.

(** The node written for [x] where links are enumerated in creation
    order: a tagged dataset for a leaf, a tagged group for a container,
    with one link per item or element, in their order. *)
Fixpoint node_of (x : value) : node :=
  match x with
  | VDict items =>
      Group (Some "dict")
        (map (fun kx => let '(k, y) := kx in (spec_encodeKey k, node_of y)) items)
  | VList l => Group (Some "list") (named 0 (map node_of l))
  | VTuple l => Group (Some "tuple") (named 0 (map node_of l))
  | _ =>
      match pack x with
      | Ok (p, tag) => Dataset (Some tag) p
      | Raise _ => Dataset None (PBytes "")
      end
  end.

(** A key whose name is one link: an integer, a boolean, the empty text,
    or a text that is a [link_name]. *)
Definition key_link_name (k : key) : bool :=
  match k with
  | KStr s => String.eqb s "" || link_name s
  | _ => true
  end.

(** All keys of [v] and of the dicts inside [v], at any depth, have names
    that are one link. *)
Fixpoint keys_are_link_names (v : value) : bool :=
  match v with
  | VDict items =>
      forallb (fun kx => let '(k, x) := kx in key_link_name k && keys_are_link_names x)
              items
  | VList l | VTuple l => forallb keys_are_link_names l
  | _ => true
  end.

(** A key the encoder raises for. *)
Definition rejected_key (k : key) : bool :=
  match encodeKey k with Ok _ => false | Raise _ => true end.

(** A rejected key is the key of an item of [v] or of a dict inside [v],
    at any depth. *)
Fixpoint holds_rejected_key (v : value) : bool :=
  match v with
  | VDict items =>
      existsb (fun kx => let '(k, x) := kx in rejected_key k || holds_rejected_key x) items
  | VList l | VTuple l => existsb holds_rejected_key l
  | _ => false
  end.

(** A leaf of the enumerated kinds that is not a [stored_leaf] sits in [v]
    as the value of a dict item or as an element of a list or tuple, at
    any depth. *)
Fixpoint holds_refused_leaf (v : value) : bool :=
  match v with
  | VDict items =>
      existsb (fun kx => let '(_, x) := kx in
                         (plain_leaf x && negb (stored_leaf x)) || holds_refused_leaf x)
              items
  | VList l | VTuple l =>
      existsb (fun x => (plain_leaf x && negb (stored_leaf x)) || holds_refused_leaf x) l
  | _ => false
  end.

(** A string of decimal digits. *)
Fixpoint all_digits (s : string) : bool :=
  match s with
  | EmptyString => true
  | String c s' => isdecimal c && all_digits s'
  end.

(* ================================================================== *)
(** ** Strings and numbers *)
(* ================================================================== *)

Lemma isdecimal_plain (c : ascii) :
  isdecimal c = true ->
  isspace c = false /\ Ascii.eqb c "-" = false /\ Ascii.eqb c "+" = false
  /\ Ascii.eqb c "_" = false.
Proof.
  destruct c as [[|] [|] [|] [|] [|] [|] [|] [|]]; intros H;
    try discriminate H; repeat split.
Qed.

Lemma string_of_uint_digits (d : Decimal.uint) :
  all_digits (NilEmpty.string_of_uint d) = true.
Proof. induction d; simpl; auto. Qed.

Lemma nilzero_string_of_uint_digits (d : Decimal.uint) :
  all_digits (NilZero.string_of_uint d) = true
  /\ NilZero.string_of_uint d <> EmptyString.
Proof.
  destruct d; (split; [apply (string_of_uint_digits _) || reflexivity | discriminate]).
Qed.

Lemma lstrip_digits (s : string) : all_digits s = true -> lstrip s = s.
Proof.
  destruct s as [|c s]; simpl; [reflexivity|].
  intros H. apply andb_true_iff in H. destruct H as [H _].
  now rewrite (proj1 (isdecimal_plain c H)).
Qed.

Lemma rstrip_digits (s : string) : all_digits s = true -> rstrip s = s.
Proof.
  induction s as [|c s IH]; simpl; [reflexivity|].
  intros H. apply andb_true_iff in H. destruct H as [Hc Hs].
  rewrite (IH Hs). destruct s; [|reflexivity].
  now rewrite (proj1 (isdecimal_plain c Hc)).
Qed.

Lemma literal_digits_digits (s : string) :
  s <> EmptyString -> all_digits s = true -> literal_digits s = Some s.
Proof.
  induction s as [|c s IH]; [congruence|].
  intros _ H. simpl in H. apply andb_true_iff in H. destruct H as [Hc Hs].
  cbn [literal_digits]. rewrite Hc.
  destruct s as [|c' s']; [reflexivity|].
  assert (Hc' : isdecimal c' = true)
    by (simpl in Hs; now apply andb_true_iff in Hs).
  destruct (isdecimal_plain c' Hc') as (_ & _ & _ & ->).
  now rewrite IH.
Qed.

(** [int] reads a string of digits, with or without ['-'] in front, as
    the decimal number of the Standard Library. *)
Lemma int_of_str_digits (s : string) (negative : bool) :
  s <> EmptyString -> all_digits s = true ->
  int_of_str (if negative then String "-" s else s)
  = match NilZero.int_of_string (if negative then String "-" s else s) with
    | Some d => Ok (Z.of_int d)
    | None => Raise (ValueError "invalid literal for int() with base 10")
    end.
Proof.
  intros Hne Hd. unfold int_of_str. destruct negative.
  - cbn [lstrip]. change (isspace "-") with false. cbn iota.
    cbn [rstrip]. rewrite (rstrip_digits s Hd).
    destruct s as [|c s]; [congruence|].
    change (Ascii.eqb "-" "-") with true. cbn iota.
    now rewrite (literal_digits_digits _ Hne Hd).
  - rewrite (lstrip_digits s Hd), (rstrip_digits s Hd).
    destruct s as [|c s]; [congruence|].
    assert (Hc : isdecimal c = true)
      by (simpl in Hd; now apply andb_true_iff in Hd).
    destruct (isdecimal_plain c Hc) as (_ & -> & -> & _).
    now rewrite (literal_digits_digits _ Hne Hd).
Qed.

Lemma int_of_str_str_int (z : Z) : int_of_str (str_int z) = Ok z.
Proof.
  assert (Hold : NilZero.int_of_string (str_int z) = Some (Z.to_int z)).
  { unfold str_int. apply NilZero.isi.
    - destruct z; simpl; try discriminate.
      intros [= H]. now apply (DecimalPos.Unsigned.to_uint_nonnil p).
    - destruct z; simpl; try discriminate.
      intros [= H]. now apply (DecimalPos.Unsigned.to_uint_nonnil p). }
  assert (Hshape : exists (s : string) (negative : bool),
             str_int z = (if negative then String "-" s else s)
             /\ s <> EmptyString /\ all_digits s = true).
  { unfold str_int. destruct (Z.to_int z) as [d|d].
    - exists (NilZero.string_of_uint d), false.
      destruct (nilzero_string_of_uint_digits d). now repeat split.
    - exists (NilZero.string_of_uint d), true.
      destruct (nilzero_string_of_uint_digits d). now repeat split. }
  destruct Hshape as (s & negative & E & Hne & Hd).
  rewrite E, (int_of_str_digits s negative Hne Hd), <- E, Hold.
  now rewrite DecimalZ.of_to.
Qed.

(** What Python's [int] reads besides the decimal forms [str] writes, and
    what it does not read. *)
Example int_of_str_literals :
  int_of_str "+5" = Ok 5%Z /\ int_of_str " 5" = Ok 5%Z /\ int_of_str "1_0" = Ok 10%Z
  /\ int_of_str "-007" = Ok (-7)%Z
  /\ raises (int_of_str "1__0") /\ raises (int_of_str "_1") /\ raises (int_of_str "1_")
  /\ raises (int_of_str "- 5") /\ raises (int_of_str "") /\ raises (int_of_str "True").
Proof. repeat split; now eexists. Qed.

Lemma str_int_inj (a b : Z) : str_int a = str_int b -> a = b.
Proof.
  intros H.
  pose proof (int_of_str_str_int a) as Ha.
  rewrite H, int_of_str_str_int in Ha.
  now injection Ha.
Qed.

Lemma startswith_app (p s : string) : startswith (p ++ s) p = true.
Proof.
  unfold startswith. induction p as [|c p IH]; simpl.
  - now destruct s.
  - destruct (ascii_dec c c) as [_|n]; [exact IH | now elim n].
Qed.

Lemma slice_from_app (p s : string) : slice_from (String.length p) (p ++ s) = s.
Proof. induction p as [|c p IH]; simpl; [now destruct s | exact IH]. Qed.

(* ================================================================== *)
(** ** The key codec *)
(* ================================================================== *)

Lemma encodeKey_int (z : Z) : encodeKey (KInt z) = Ok ("__int__" ++ str_int z).
Proof. reflexivity. Qed.

Lemma decodeKey_int (z : Z) : decodeKey ("__int__" ++ str_int z) = Ok (KInt z).
Proof.
  unfold decodeKey.
  change (String.eqb ("__int__" ++ str_int z) "__emptyString__") with false.
  rewrite startswith_app.
  change 7%nat with (String.length "__int__").
  now rewrite slice_from_app, int_of_str_str_int.
Qed.

Lemma encodeKey_text (s : string) :
  reserved s = false ->
  encodeKey (KStr s) = Ok (spec_encodeKey (KStr s)).
Proof.
  unfold reserved, encodeKey. simpl.
  intros H. apply orb_false_iff in H. destruct H as [He Hp].
  rewrite Hp, He.
  destruct s; reflexivity.
Qed.

Lemma decodeKey_text (s : string) :
  reserved s = false ->
  decodeKey (spec_encodeKey (KStr s)) = Ok (KStr s).
Proof.
  unfold reserved. intros H. apply orb_false_iff in H. destruct H as [He Hp].
  destruct s as [|c s]; [reflexivity|].
  simpl spec_encodeKey. unfold decodeKey. now rewrite He, Hp.
Qed.

Lemma encodeKey_reserved (s : string) :
  reserved s = true ->
  exists e, encodeKey (KStr s) = Raise e /\ ReservedKeyCollision e.
Proof.
  unfold reserved, encodeKey, ReservedKeyCollision. simpl. intros H.
  destruct (startswith s "__int__") eqn:Hp.
  - eexists; split; [reflexivity | now left].
  - rewrite orb_false_r in H. rewrite H.
    eexists; split; [reflexivity | now right].
Qed.

(** Every storable key has a name, and the name decodes to the key. *)
Lemma storable_key_codec (k : key) :
  storable_key k = true ->
  encodeKey k = Ok (spec_encodeKey k) /\ decodeKey (spec_encodeKey k) = Ok k.
Proof.
  destruct k as [s|z|b|r]; simpl; try discriminate.
  - intros H. apply andb_true_iff in H. destruct H as [H _].
    apply negb_true_iff in H.
    split; [now apply encodeKey_text | now apply decodeKey_text].
  - intros _. split; [apply encodeKey_int | apply decodeKey_int].
Qed.

(** C2.  For every key that is a text or an integer and does not collide
    with a reserved form, the encoder's name is the one of the rules (an
    integer gives ["__int__"] and its decimal form, the empty text gives
    ["__emptyString__"], any other text is its own name) and the decoder
    gives the key back from that name; for every text that equals
    ["__emptyString__"] or starts with ["__int__"] the encoder raises the
    reserved-key error. *)
Theorem key_escaping_bijection (k : key) :
  (text_or_int k = true -> colliding k = false ->
   encodeKey k = Ok (spec_encodeKey k) /\ decodeKey (spec_encodeKey k) = Ok k)
  /\ (colliding k = true ->
      exists e, encodeKey k = Raise e /\ ReservedKeyCollision e).
Proof.
  split.
  - destruct k as [s|z|b|r]; simpl; try discriminate.
    + intros _ H. split; [now apply encodeKey_text | now apply decodeKey_text].
    + intros _ _. split; [apply encodeKey_int | apply decodeKey_int].
  - destruct k as [s|z|b|r]; simpl; try discriminate.
    apply encodeKey_reserved.
Qed.

Lemma key_escaping_bijection_witness :
  (encodeKey (KInt (-5)) = Ok "__int__-5" /\ decodeKey "__int__-5" = Ok (KInt (-5)))
  /\ (encodeKey (KStr "") = Ok "__emptyString__"
      /\ decodeKey "__emptyString__" = Ok (KStr ""))
  /\ (encodeKey (KStr "layer.weight") = Ok "layer.weight"
      /\ decodeKey "layer.weight" = Ok (KStr "layer.weight"))
  /\ (exists e, encodeKey (KStr "__int__5") = Raise e /\ ReservedKeyCollision e)
  /\ (exists e, encodeKey (KStr "__emptyString__") = Raise e /\ ReservedKeyCollision e).
Proof.
  split; [|split; [|split; [|split]]].
  - apply (proj1 (key_escaping_bijection (KInt (-5)))); reflexivity.
  - apply (proj1 (key_escaping_bijection (KStr ""))); reflexivity.
  - apply (proj1 (key_escaping_bijection (KStr "layer.weight"))); reflexivity.
  - apply (proj2 (key_escaping_bijection (KStr "__int__5"))); reflexivity.
  - apply (proj2 (key_escaping_bijection (KStr "__emptyString__"))); reflexivity.
Defined.

(* ================================================================== *)
(** ** Facts about the store *)
(* ================================================================== *)

Local Open Scope list_scope.

Section StoreFacts.

Variable track_order : bool.

Lemma lookup_app (name : string) (l1 l2 : list (string * node)) :
  lookup name (l1 ++ l2) =
  match lookup name l1 with Some n => Some n | None => lookup name l2 end.
Proof.
  induction l1 as [|[name' n'] l1 IH]; simpl; [reflexivity|].
  now destruct (String.eqb name name').
Qed.

(** A new link does not hide and is not hidden by the links of other
    names. *)
Lemma lookup_add_link_other (name name' : string) (n : node) (links : list (string * node)) :
  name' <> name ->
  lookup name' (add_link track_order name n links) = lookup name' links.
Proof.
  intros Hne. apply String.eqb_neq in Hne.
  unfold add_link. destruct track_order.
  - rewrite lookup_app. simpl. rewrite Hne. now destruct (lookup name' links).
  - induction links as [|[name1 n1] links IH]; simpl.
    + now rewrite Hne.
    + destruct (String.ltb name name1); simpl.
      * now rewrite Hne.
      * now rewrite IH.
Qed.

Lemma lookup_add_link_same (name : string) (n : node) (links : list (string * node)) :
  lookup name links = None ->
  lookup name (add_link track_order name n links) = Some n.
Proof.
  intros Hfresh. unfold add_link. destruct track_order.
  - rewrite lookup_app, Hfresh. simpl. now rewrite String.eqb_refl.
  - induction links as [|[name1 n1] links IH]; simpl in *.
    + now rewrite String.eqb_refl.
    + destruct (String.eqb name name1) eqn:E; [discriminate|].
      destruct (String.ltb name name1); simpl.
      * now rewrite String.eqb_refl.
      * rewrite E. now apply IH.
Qed.

Lemma relink_app_fresh (name : string) (n : node) (l1 l2 : list (string * node)) :
  lookup name l1 = None ->
  relink name n (l1 ++ l2) = l1 ++ relink name n l2.
Proof.
  induction l1 as [|[name1 n1] l1 IH]; simpl; [reflexivity|].
  destruct (String.eqb name name1); [discriminate|].
  intros H. now rewrite IH.
Qed.

(** Rewriting the node of a link that was just added is adding the link
    with the new node. *)
Lemma relink_add_link (name : string) (n n' : node) (links : list (string * node)) :
  lookup name links = None ->
  relink name n' (add_link track_order name n links) = add_link track_order name n' links.
Proof.
  intros Hfresh. unfold add_link. destruct track_order.
  - rewrite relink_app_fresh by assumption. simpl. now rewrite String.eqb_refl.
  - induction links as [|[name1 n1] links IH]; simpl in *.
    + now rewrite String.eqb_refl.
    + destruct (String.eqb name name1) eqn:E; [discriminate|].
      destruct (String.ltb name name1); simpl.
      * now rewrite String.eqb_refl.
      * rewrite E. now rewrite IH.
Qed.

Lemma add_link_perm (name : string) (n : node) (links : list (string * node)) :
  Permutation (add_link track_order name n links) ((name, n) :: links).
Proof.
  unfold add_link. destruct track_order.
  - symmetry. apply Permutation_cons_append.
  - induction links as [|[name1 n1] links IH]; simpl; [reflexivity|].
    destruct (String.ltb name name1); [reflexivity|].
    rewrite IH. apply perm_swap.
Qed.

Lemma lookup_relink_other (name name' : string) (n : node) (links : list (string * node)) :
  name' <> name ->
  lookup name' (relink name n links) = lookup name' links.
Proof.
  intros Hne. apply String.eqb_neq in Hne.
  induction links as [|[name1 n1] links IH]; simpl; [reflexivity|].
  destruct (String.eqb name name1) eqn:E; simpl.
  - apply String.eqb_eq in E. subst name1. now rewrite Hne.
  - now rewrite IH.
Qed.

Lemma lookup_relink_same (name : string) (n n0 : node) (links : list (string * node)) :
  lookup name links = Some n0 ->
  lookup name (relink name n links) = Some n.
Proof.
  induction links as [|[name1 n1] links IH]; simpl; [discriminate|].
  destruct (String.eqb name name1) eqn:E; simpl.
  - now rewrite E.
  - now rewrite E.
Qed.

Lemma relink_fresh (name : string) (n : node) (links : list (string * node)) :
  lookup name links = None -> relink name n links = links.
Proof.
  induction links as [|[name1 n1] links IH]; simpl; [reflexivity|].
  destruct (String.eqb name name1); [discriminate|].
  intros H. now rewrite IH.
Qed.

(** Rewriting a node keeps the names of a group. *)
Lemma lookup_relink_none (name name' : string) (n : node) (links : list (string * node)) :
  lookup name' (relink name n links) = None <-> lookup name' links = None.
Proof.
  destruct (string_dec name' name) as [->|Hne].
  - destruct (lookup name links) eqn:E.
    + rewrite (lookup_relink_same _ _ _ _ E). split; discriminate.
    + now rewrite relink_fresh, E.
  - now rewrite lookup_relink_other.
Qed.

Lemma lookup_unlink_same (name : string) (links : list (string * node)) :
  lookup name (unlink name links) = None.
Proof.
  unfold unlink. induction links as [|[name1 n1] links IH]; simpl; [reflexivity|].
  destruct (String.eqb name name1) eqn:E; simpl; [exact IH|].
  now rewrite E.
Qed.

(** [create_dataset] returns exactly for data h5py accepts, under a free
    name of a group. *)
Lemma create_dataset_fresh (name : string) (data : payload) (ty : option string)
    (links : list (string * node)) :
  h5_accepts data = true ->
  lookup name links = None ->
  create_dataset track_order name data (Group ty links)
  = Ok (Group ty (add_link track_order name (Dataset None data) links)).
Proof.
  unfold h5_accepts. intros H Hl. apply andb_true_iff in H. destruct H as [Ht Hw].
  unfold create_dataset. now rewrite Ht, Hl, Hw.
Qed.

Lemma create_dataset_inv (name : string) (data : payload) (position position' : node) :
  create_dataset track_order name data position = Ok position' ->
  exists ty links,
    position = Group ty links
    /\ h5_accepts data = true
    /\ lookup name links = None
    /\ position' = Group ty (add_link track_order name (Dataset None data) links).
Proof.
  destruct position as [ty links | ty p]; [|discriminate].
  unfold create_dataset, h5_accepts.
  destruct (h5_type data); [|discriminate].
  destruct (lookup name links) as [old|] eqn:Hl; [discriminate|].
  destruct (h5_writable data); [|discriminate].
  intros [= <-]. exists ty, links. now repeat split.
Qed.

Lemma create_dataset_taken (name : string) (data : payload) (ty : option string)
    (links : list (string * node)) (old : node) :
  h5_type data = true ->
  lookup name links = Some old ->
  create_dataset track_order name data (Group ty links)
  = Raise (ValueError "Unable to create dataset (name already exists)").
Proof. intros Ht Hl. unfold create_dataset. now rewrite Ht, Hl. Qed.

Lemma h5_refuses_not_accepted (data : payload) :
  h5_refuses data = true -> h5_accepts data = false.
Proof.
  destruct data as [a|s]; unfold h5_accepts; simpl; intros H.
  - apply String.eqb_eq in H. now rewrite H.
  - now rewrite H.
Qed.

(** Only a group has a name in it. *)
Lemma contains_true (name : string) (position : node) :
  contains name position = Ok true ->
  exists ty links n, position = Group ty links /\ lookup name links = Some n.
Proof.
  destruct position as [ty links | ty [a|s]]; simpl.
  - destruct (lookup name links) as [n|] eqn:E; [|discriminate].
    intros _. now exists ty, links, n.
  - destruct (shape a) as [|n [|m row]]; try discriminate.
    destruct (Nat.eqb n 0); [discriminate|].
    destruct (Nat.eqb _ 1); discriminate.
  - discriminate.
Qed.

(** On a dataset the test for a name raises or finds nothing. *)
Lemma contains_dataset (name : string) (ty : option string) (p : payload) :
  contains name (Dataset ty p) = Ok false
  \/ exists e, contains name (Dataset ty p) = Raise e.
Proof.
  destruct (contains name (Dataset ty p)) as [[|]|e] eqn:E.
  - apply contains_true in E. destruct E as (? & ? & ? & E & _). discriminate E.
  - now left.
  - right. now exists e.
Qed.

Lemma lookup_In (name : string) (links : list (string * node)) (n : node) :
  lookup name links = Some n -> In (name, n) links.
Proof.
  induction links as [|[name1 n1] links IH]; simpl; [discriminate|].
  destruct (String.eqb name name1) eqn:E.
  - apply String.eqb_eq in E. intros [= ->]. left. now subst.
  - intros H. right. now apply IH.
Qed.

End StoreFacts.

(* ================================================================== *)
(** ** Leaves: pack and unpack *)
(* ================================================================== *)

Lemma int_dtype_numeric (z : Z) :
  int64_or_uint64 z = true -> numeric_dtype (int_dtype z) = true.
Proof.
  unfold int64_or_uint64, int_dtype.
  destruct (Z.leb_spec (- 2 ^ 63) z), (Z.ltb_spec z (2 ^ 63)),
           (Z.leb_spec (2 ^ 63) z), (Z.ltb_spec z (2 ^ 64));
    cbn [andb]; intros Hrange; try reflexivity; try discriminate Hrange; lia.
Qed.

Lemma int_dtype_object (z : Z) :
  int64_or_uint64 z = false -> int_dtype z = "object".
Proof.
  unfold int64_or_uint64, int_dtype.
  destruct (Z.leb_spec (- 2 ^ 63) z), (Z.ltb_spec z (2 ^ 63)),
           (Z.leb_spec (2 ^ 63) z), (Z.ltb_spec z (2 ^ 64));
    cbn [andb]; intros Hrange; try reflexivity; try discriminate Hrange; lia.
Qed.

Lemma numpy_tensor_parts (t : tensor) :
  numpy_tensor t = true ->
  String.eqb (device t) "meta" = false /\ layout t = "torch.strided"
  /\ requires_grad t = false /\ is_conj t = false /\ is_neg t = false
  /\ numeric_dtype (dtype (array t)) = true.
Proof.
  unfold numpy_tensor. intros H.
  repeat match goal with
         | H : _ && _ = true |- _ => apply andb_true_iff in H; destruct H
         end.
  repeat match goal with
         | H : negb _ = true |- _ => apply negb_true_iff in H
         end.
  repeat split; try assumption. now apply String.eqb_eq.
Qed.

Lemma tensor_cpu_numpy_ok (t : tensor) :
  numpy_tensor t = true -> tensor_cpu_numpy t = Ok (array t).
Proof.
  intros H. destruct (numpy_tensor_parts t H) as (Hd & Hl & Hr & Hc & Hn & Ht).
  unfold tensor_cpu_numpy. rewrite Hd, Hl, Hr, Hc, Hn, Ht. reflexivity.
Qed.

Lemma tensor_cpu_numpy_raises (t : tensor) :
  numpy_tensor t = false -> raises (tensor_cpu_numpy t).
Proof.
  unfold numpy_tensor, tensor_cpu_numpy. intros H.
  destruct (String.eqb (device t) "meta"); [now eexists|].
  destruct (String.eqb (layout t) "torch.strided"); [|now eexists].
  destruct (requires_grad t); [now eexists|].
  destruct (is_conj t); [now eexists|].
  destruct (is_neg t); [now eexists|].
  simpl in H. rewrite H. now eexists.
Qed.

(** A stored leaf is packed into data h5py accepts, and [unpack] gives it
    back from the dataset so tagged, a tensor on [torchDevice]. *)
Lemma stored_leaf_pack (x : value) :
  stored_leaf x = true ->
  exists p tag,
    pack x = Ok (p, tag)
    /\ h5_accepts p = true
    /\ forall torchDevice,
         unpack torchDevice (Dataset (Some tag) p)
         = ([], Ok (to_device torchDevice x)).
Proof.
  destruct x as [ | b | z | f | s | t | items | l | l | p | r ]; try discriminate;
    cbn [stored_leaf]; intros H.
  - do 2 eexists. split; [reflexivity|]. split; reflexivity.
  - do 2 eexists. split; [reflexivity|]. split; [reflexivity|].
    intros torchDevice. now destruct b.
  - exists (PArray (np_array_int z)), "int". split; [reflexivity|]. split.
    + unfold h5_accepts. cbn [h5_type h5_writable np_array_int dtype].
      now rewrite (int_dtype_numeric z H).
    + reflexivity.
  - do 2 eexists. split; [reflexivity|]. split; reflexivity.
  - exists (PBytes s), "str". split; [reflexivity|]. split.
    + unfold h5_accepts. cbn [h5_type h5_writable]. exact H.
    + reflexivity.
  - destruct (numpy_tensor_parts t H) as (Hd & Hl & Hr & Hc & Hn & Ht).
    exists (PArray (array t)), "tensor". split; [|split].
    + unfold pack. cbn [is_None isinstance_Tensor cpu_numpy].
      now rewrite (tensor_cpu_numpy_ok t H).
    + unfold h5_accepts. cbn [h5_type h5_writable]. now rewrite Ht.
    + intros torchDevice. cbn. unfold torch_tensor. rewrite Ht. cbn.
      destruct t as [dev lay rg cj ng a]. cbn in *. now subst.
Qed.



(* ================================================================== *)
(** ** The decoder on groups *)
(* ================================================================== *)

Lemma out_bind_ok {A B : Type} (a : A) (f : A -> out B) :
  out_bind ([], Ok a) f = f a.
Proof. unfold out_bind. now destruct (f a). Qed.

Lemma out_bind_raise {A B : Type} (w : list string) (e : exn) (f : A -> out B) :
  out_bind (w, Raise e) f = (w, Raise e).
Proof. reflexivity. Qed.

Lemma recursiveFetch_group (torchDevice ty : string) (links : list (string * node)) :
  recursiveFetch torchDevice (Group (Some ty) links)
  = if String.eqb ty "list" || String.eqb ty "tuple" then
      target <~ fetch_elements torchDevice (recursiveFetch torchDevice) links [] ;;
      if String.eqb ty "tuple" then out_ret (VTuple target)
      else out_ret (VList target)
    else
      target <~ fetch_items torchDevice (recursiveFetch torchDevice) links [] ;;
      out_ret (VDict target).
Proof.
  cbn [recursiveFetch attr_type_of]. unfold out_lift. now rewrite out_bind_ok.
Qed.








(** C10.  A group whose tag is neither ["list"] nor ["tuple"] is decoded
    exactly as the same group tagged ["dict"]: the result and what is
    printed are those of the loop over the items, so the tag itself causes
    neither a warning nor an error. *)
Theorem other_group_tags_decode_as_dict
    (torchDevice : string) (ty : string) (links : list (string * node)) :
  ty <> "list" -> ty <> "tuple" ->
  recursiveFetch torchDevice (Group (Some ty) links)
  = recursiveFetch torchDevice (Group (Some "dict") links)
  /\ recursiveFetch torchDevice (Group (Some ty) links)
     = (target <~ fetch_items torchDevice (recursiveFetch torchDevice) links [] ;;
        out_ret (VDict target)).
Proof.
  intros Hl Ht.
  apply String.eqb_neq in Hl. apply String.eqb_neq in Ht.
  split; rewrite !recursiveFetch_group, Hl, Ht; reflexivity.
Qed.

Lemma other_group_tags_decode_as_dict_witness :
  recursiveFetch "cpu"
    (Group (Some "weights") [("a", Dataset (Some "int") (PArray (np_array_int 5)))])
  = ([], Ok (VDict [(KStr "a", VInt 5)])).
Proof.
  rewrite (proj1 (other_group_tags_decode_as_dict "cpu" "weights" _
                    ltac:(discriminate) ltac:(discriminate))).
  reflexivity.
Defined.

(* ================================================================== *)
(** ** Induction on nested values *)
(* ================================================================== *)

Lemma value_nested_ind (P : value -> Prop) :
  (forall v, is_container v = false -> P v) ->
  (forall items, Forall (fun kx => P (snd kx)) items -> P (VDict items)) ->
  (forall l, Forall P l -> P (VList l)) ->
  (forall l, Forall P l -> P (VTuple l)) ->
  forall v, P v.
Proof.
  intros Hleaf Hdict Hlist Htuple.
  fix IH 1. intros v.
  destruct v as [ | b | z | x | s | t | items | l | l | p | r ];
    try (apply Hleaf; reflexivity).
  - apply Hdict.
    induction items as [|[k x] items IHitems]; constructor; [apply IH | exact IHitems].
  - apply Hlist.
    induction l as [|x l IHl]; constructor; [apply IH | exact IHl].
  - apply Htuple.
    induction l as [|x l IHl]; constructor; [apply IH | exact IHl].
Qed.

Lemma raises_bind_l {A B : Type} (m : result A) (f : A -> result B) :
  raises m -> raises (bind m f).
Proof. intros [e ->]. now exists e. Qed.

Lemma raises_bind_r {A B : Type} (m : result A) (f : A -> result B) :
  (forall a, raises (f a)) -> raises (bind m f).
Proof. intros H. destruct m as [a|e]; simpl; [apply H | now exists e]. Qed.

(* ================================================================== *)
(** ** Values the encoder does not accept *)
(* ================================================================== *)

Section Unsupported.

Variable track_order : bool.

Lemma pack_unsupported (x : value) :
  unsupported x = true ->
  pack x = Raise (ValueError "Invalid data type for serialization").
Proof.
  destruct x as [ | b | z | f | s | t | items | l | l | p | r ];
    cbn [unsupported]; try discriminate.
  - intros H. apply negb_true_iff in H. unfold pack.
    cbn [is_None isinstance_Tensor isinstance_bool isinstance_int isinstance_str].
    now rewrite H.
  - reflexivity.
Qed.

Lemma insert_child_unsupported (rec : node -> value -> result node)
    (name : string) (x : value) (position : node) :
  unsupported x = true ->
  insert_child track_order rec name x position
  = Raise (ValueError "Invalid data type for serialization").
Proof.
  intros H. unfold insert_child. rewrite (pack_unsupported x H).
  destruct x; try discriminate; reflexivity.
Qed.

Lemma insert_group_raises (rec : node -> value -> result node)
    (name ty : string) (x : value) (position : node) :
  (forall child, raises (rec child x)) ->
  raises (insert_group track_order rec name ty x position).
Proof.
  intros H. unfold insert_group.
  apply raises_bind_r; intros present.
  apply raises_bind_r; intros position1.
  apply raises_bind_r; intros child.
  apply raises_bind_l, H.
Qed.

Lemma insert_child_raises (rec : node -> value -> result node)
    (name : string) (x : value) (position : node) :
  unsupported x = true \/ (is_container x = true /\ forall child, raises (rec child x)) ->
  raises (insert_child track_order rec name x position).
Proof.
  intros [H | [Hc H]].
  - rewrite insert_child_unsupported by assumption. now eexists.
  - unfold insert_child.
    destruct x; try discriminate; simpl; now apply insert_group_raises.
Qed.

Lemma holds_unsupported_container (v : value) :
  holds_unsupported v = true -> is_container v = true.
Proof. destruct v; simpl; try discriminate; reflexivity. Qed.

Lemma recursiveInsert_unsupported (v : value) :
  holds_unsupported v = true ->
  forall position, raises (recursiveInsert track_order position v).
Proof.
  induction v as [v Hleaf | items IH | l IH | l IH] using value_nested_ind.
  - intros H. apply holds_unsupported_container in H. congruence.
  - simpl. induction IH as [|[k x] items IHx _ IHitems]; simpl; [discriminate|].
    intros H position.
    apply raises_bind_r; intros newKey.
    apply orb_true_iff in H. destruct H as [H | H].
    + apply raises_bind_l, insert_child_raises.
      apply orb_true_iff in H. destruct H as [H | H]; [now left | right].
      split; [now apply holds_unsupported_container | now apply IHx].
    + apply raises_bind_r; intros position'. now apply IHitems.
  - simpl. generalize 0%nat.
    induction IH as [|x l IHx _ IHl]; simpl; [discriminate|].
    intros idx H position.
    apply orb_true_iff in H. destruct H as [H | H].
    + apply raises_bind_l, insert_child_raises.
      apply orb_true_iff in H. destruct H as [H | H]; [now left | right].
      split; [now apply holds_unsupported_container | now apply IHx].
    + apply raises_bind_r; intros position'. now apply IHl.
  - simpl. generalize 0%nat.
    induction IH as [|x l IHx _ IHl]; simpl; [discriminate|].
    intros idx H position.
    apply orb_true_iff in H. destruct H as [H | H].
    + apply raises_bind_l, insert_child_raises.
      apply orb_true_iff in H. destruct H as [H | H]; [now left | right].
      split; [now apply holds_unsupported_container | now apply IHx].
    + apply raises_bind_r; intros position'. now apply IHl.
Qed.

End Unsupported.

(** C6, as the code has it.  A value of none of the enumerated kinds that
    is the value of a dict item or an element of a list or tuple makes the
    step that stores it raise [ValueError("Invalid data type for
    serialization")], whatever the group and the name; and [fromDict]
    raises for every value that holds such a value at any depth: it is
    never skipped. *)
Theorem nested_unsupported_value_raises (track_order : bool) :
  (forall (recursiveInsert : node -> value -> result node)
          (name : string) (x : value) (position : node),
      unsupported x = true ->
      exists e, insert_child track_order recursiveInsert name x position = Raise e
                /\ UnsupportedValueType e)
  /\ (forall (self : DictStorage) (v : value),
        holds_unsupported v = true ->
        raises (fromDict track_order self v)).
Proof.
  split.
  - intros rec name x position H.
    eexists. split; [now apply insert_child_unsupported | reflexivity].
  - intros self v H. unfold fromDict.
    apply raises_bind_r; intros position.
    apply raises_bind_l. now apply recursiveInsert_unsupported.
Qed.

Lemma nested_unsupported_value_raises_witness :
  (exists e, insert_child false (recursiveInsert false) "k" (VOther "{1, 2}")
               (Group (Some "dict") []) = Raise e
             /\ UnsupportedValueType e)
  /\ raises (fromDict false (new_file "cpu")
               (VDict [(KStr "k", VList [VInt 1; VOther "{1, 2}"])])).
Proof.
  split.
  - apply (proj1 (nested_unsupported_value_raises false)). reflexivity.
  - apply (proj2 (nested_unsupported_value_raises false)). reflexivity.
Defined.

(** C6, as stated, fails at the top level: [fromDict] of a value that is
    neither a dict nor a list or tuple, here an object of an unsupported
    class, writes nothing and raises nothing. *)
Lemma top_level_unsupported_is_skipped :
  unsupported (VOther "{1, 2}") = true
  /\ fromDict false (new_file "cpu") (VOther "{1, 2}") = Ok (new_file "cpu")
  /\ fromDict true (new_file "cpu") (VOther "{1, 2}") = Ok (new_file "cpu").
Proof. repeat split. Qed.

(* ================================================================== *)
(** ** Encoding twice *)
(* ================================================================== *)

(** A leaf cannot be written under a name in use: [create_dataset] raises,
    and [recursiveInsert], unlike [insert] (lines 40-41), does not delete
    the old dataset first. *)
Lemma insert_child_leaf_taken (track_order : bool)
    (rec : node -> value -> result node) (name : string) (x : value)
    (ty : option string) (links : list (string * node)) (old : node)
    (outData : payload) (outDType : string) :
  is_container x = false ->
  pack x = Ok (outData, outDType) ->
  h5_type outData = true ->
  lookup name links = Some old ->
  insert_child track_order rec name x (Group ty links)
  = Raise (ValueError "Unable to create dataset (name already exists)").
Proof.
  intros Hc Hp Ht Hl. unfold insert_child. rewrite Hp. cbn [bind].
  rewrite (create_dataset_taken _ _ _ _ _ old Ht Hl).
  destruct x; try discriminate; reflexivity.
Qed.

(** A leaf that has been stored was packed into data h5py accepts. *)
Lemma insert_child_leaf_accepted (track_order : bool)
    (rec : node -> value -> result node) (name : string) (x : value)
    (position position' : node) :
  is_container x = false ->
  insert_child track_order rec name x position = Ok position' ->
  exists p tag, pack x = Ok (p, tag) /\ h5_accepts p = true.
Proof.
  intros Hc H. unfold insert_child in H.
  replace (isinstance_dict x) with false in H
    by (destruct x; try reflexivity; discriminate).
  replace (isinstance_list x) with false in H
    by (destruct x; try reflexivity; discriminate).
  replace (isinstance_tuple x) with false in H
    by (destruct x; try reflexivity; discriminate).
  destruct (pack x) as [[p tag]|e]; cbn [bind] in H; [|discriminate].
  destruct (create_dataset track_order name p position) as [position1|e] eqn:Hcd;
    cbn [bind] in H; [|discriminate].
  destruct (create_dataset_inv _ _ _ _ _ Hcd) as (_ & _ & _ & Ha & _).
  now exists p, tag.
Qed.

(** [insert] writes twice under the same name: the second call replaces
    the dataset of the first. *)
Example insert_twice (track_order : bool) :
  exists self,
    insert track_order (new_file "cpu") ["a"] (PArray (np_array_int 5)) = Ok self
    /\ insert track_order self ["a"] (PArray (np_array_int 6))
       = Ok (mk_DictStorage
               (Group None [("a", Dataset None (PArray (np_array_int 6)))]) [] "cpu").
Proof. destruct track_order; eexists; split; reflexivity. Qed.

(** C4 does not hold of the code: after [fromDict] of
    [{"a": 5}] into a new file, a second [fromDict] of the same dict
    raises the [ValueError] of h5py for a name in use. *)
Theorem second_fromDict_raises (track_order : bool) :
  exists self,
    fromDict track_order (new_file "cpu") (VDict [(KStr "a", VInt 5)]) = Ok self
    /\ fromDict track_order self (VDict [(KStr "a", VInt 5)])
       = Raise (ValueError "Unable to create dataset (name already exists)").
Proof. destruct track_order; eexists; split; reflexivity. Qed.

(* ================================================================== *)
(** ** delete *)
(* ================================================================== *)

(** C5 does not hold of the code: with groups A/B and
    the only leaf C in B, [delete(["A", "B", "C"], recursive=True)]
    removes C alone.  The groups B, now without links, and A stay in the
    file: [del position] does not touch the file. *)
Theorem recursive_delete_keeps_ancestors :
  let leaf := Dataset (Some "int") (PArray (np_array_int 1)) in
  let tree c := Group (Some "dict")
                  [("A", Group (Some "dict") [("B", Group (Some "dict") c)])] in
  delete (mk_DictStorage (tree [("C", leaf)]) [] "cpu") ["A"; "B"; "C"] true
  = Some (Ok (mk_DictStorage (tree []) [] "cpu")).
Proof. reflexivity. Qed.

(** From a root group left without links the loop of lines 55-58 does not
    come back: the parent of the root is the root. *)
Lemma recursive_delete_at_root_does_not_return :
  delete (mk_DictStorage
            (Group (Some "dict") [("C", Dataset (Some "int") (PArray (np_array_int 1)))])
            [] "cpu") ["C"] true
  = None.
Proof. reflexivity. Qed.

(* ================================================================== *)
(** ** Paths: walk, resolve and update *)
(* ================================================================== *)

Lemma split_last_app (keys init : list string) (last : string) :
  split_last keys = Some (init, last) -> keys = init ++ [last].
Proof.
  revert init. induction keys as [|k keys IH]; simpl; [discriminate|].
  intros init. destruct (split_last keys) as [[init' last']|] eqn:E.
  - intros [= <- <-]. simpl. f_equal. now apply IH.
  - intros [= <- <-]. destruct keys as [|k' keys]; [reflexivity|].
    simpl in E. now destruct (split_last keys) as [[? ?]|].
Qed.

Lemma walk_app (keys1 keys2 : list string) (g : node) :
  walk (keys1 ++ keys2) g = (position <- walk keys1 g ;; walk keys2 position).
Proof.
  revert g. induction keys1 as [|i keys1 IH]; intros g; simpl; [reflexivity|].
  destruct (contains i g) as [[|]|e]; simpl; try reflexivity.
  destruct (getitem i g) as [child|e]; simpl; [apply IH | reflexivity].
Qed.

(** A step of [walk] that succeeds is a step through a link of a group. *)
Lemma walk_step (i : string) (g child : node) :
  contains i g = Ok true -> getitem i g = Ok child ->
  exists ty links, g = Group ty links /\ lookup i links = Some child.
Proof.
  destruct g as [ty links | ty p]; simpl.
  - destruct (lookup i links) as [n|] eqn:E; [|discriminate].
    intros _ [= <-]. now exists ty, links.
  - intros _ H. discriminate H.
Qed.

Lemma walk_resolve (keys : list string) (g n : node) :
  resolve keys g = Ok n -> walk keys g = Ok n.
Proof.
  revert g. induction keys as [|i keys IH]; intros g; simpl; [easy|].
  destruct g as [ty links | ty p]; simpl; [|discriminate].
  destruct (lookup i links) as [child|]; simpl; [apply IH | discriminate].
Qed.

Lemma walk_update (keys : list string) (g position position' : node) :
  walk keys g = Ok position ->
  walk keys (update keys position' g) = Ok position'.
Proof.
  revert g. induction keys as [|i keys IH]; intros g; simpl; [reflexivity|].
  destruct (contains i g) as [[|]|e] eqn:Hc; simpl; try discriminate.
  destruct (getitem i g) as [child|e] eqn:Hg; simpl; [|discriminate].
  intros Hw.
  destruct (walk_step _ _ _ Hc Hg) as (ty & links & -> & Hl).
  rewrite Hl. simpl.
  rewrite (lookup_relink_same _ _ _ _ Hl). simpl.
  now apply IH with (g := child).
Qed.

Lemma resolve_update_app (path1 path2 : list string) (root g n : node) :
  resolve path1 root = Ok g ->
  resolve path1 (update (path1 ++ path2) n root) = Ok (update path2 n g).
Proof.
  revert root. induction path1 as [|i path1 IH]; intros root; simpl.
  - now intros [= ->].
  - destruct root as [ty links | ty p]; simpl; [|discriminate].
    destruct (lookup i links) as [child|] eqn:Hl; simpl; [|discriminate].
    intros H. rewrite (lookup_relink_same _ _ _ _ Hl). simpl.
    now apply IH.
Qed.

Lemma resolve_update (path : list string) (root g n : node) :
  resolve path root = Ok g ->
  resolve path (update path n root) = Ok n.
Proof.
  intros H. rewrite <- (app_nil_r path) at 2.
  now rewrite (resolve_update_app _ _ _ _ _ H).
Qed.

Lemma resolve_app (path1 path2 : list string) (root : node) :
  resolve (path1 ++ path2) root = (n <- resolve path1 root ;; resolve path2 n).
Proof.
  revert root. induction path1 as [|i path1 IH]; intros root; simpl; [reflexivity|].
  destruct (getitem i root) as [child|e]; simpl; [apply IH | reflexivity].
Qed.

Lemma split_last_snoc (init : list string) (last : string) :
  split_last (init ++ [last]) = Some (init, last).
Proof.
  induction init as [|k init IH]; simpl; [reflexivity|]. now rewrite IH.
Qed.

Lemma snoc_of_nonempty (keys : list string) :
  keys <> [] -> exists init last, keys = init ++ [last].
Proof.
  intros H. destruct (split_last keys) as [[init last]|] eqn:E.
  - exists init, last. now apply split_last_app.
  - destruct keys as [|k keys]; [congruence|]. simpl in E.
    now destruct (split_last keys) as [[? ?]|].
Qed.

(** [self.group] after a method has rewritten it. *)
Lemma self_group_with_group (self : DictStorage) (g g' : node) :
  self_group self = Ok g -> self_group (with_group self g') = Ok g'.
Proof. unfold self_group, with_group. simpl. apply resolve_update. Qed.

(* ================================================================== *)
(** ** fetch *)
(* ================================================================== *)

Lemma fetch_missing (self : DictStorage) (g : node) (keys : list string) (k : string)
    (rest : list string) (ty : option string) (links : list (string * node)) :
  self_group self = Ok g ->
  resolve keys g = Ok (Group ty links) ->
  lookup k links = None ->
  fetch self (keys ++ k :: rest) = Raise (KeyError "Key not found").
Proof.
  intros Hg Hr Hl. unfold fetch. rewrite Hg. simpl.
  rewrite walk_app, (walk_resolve _ _ _ Hr). simpl. now rewrite Hl.
Qed.

Lemma fetch_dataset (self : DictStorage) (g : node) (keys : list string)
    (ty : option string) (p : payload) :
  self_group self = Ok g ->
  resolve keys g = Ok (Dataset ty p) ->
  fetch self keys = Ok p.
Proof.
  intros Hg Hr. unfold fetch. rewrite Hg. simpl.
  now rewrite (walk_resolve _ _ _ Hr).
Qed.

Lemma fetch_after_delete (self self' : DictStorage) (keys : list string)
    (recursive : bool) :
  delete self keys recursive = Some (Ok self') ->
  fetch self' keys = Raise (KeyError "Key not found").
Proof.
  unfold delete.
  destruct (split_last keys) as [[init last]|] eqn:Hs; [|discriminate].
  apply split_last_app in Hs. subst keys.
  destruct (self_group self) as [g|e] eqn:Hg; simpl; [|discriminate].
  destruct (walk init g) as [position|e] eqn:Hw; simpl; [|discriminate].
  destruct (contains last position) as [[|]|e] eqn:Hc; simpl; try discriminate.
  destruct (delitem last position) as [position'|e] eqn:Hd; simpl; [|discriminate].
  intros H.
  assert (Hself : self' = mk_DictStorage
                    (update (group self ++ init) position' (file self))
                    (group self) (torchDevice self)).
  { destruct recursive; [|now injection H].
    destruct (while_childless _ _); [now injection H | discriminate]. }
  clear H. subst self'.
  unfold fetch, self_group. simpl.
  unfold self_group in Hg. rewrite (resolve_update_app _ _ _ _ _ Hg). simpl.
  rewrite walk_app, (walk_update _ _ _ _ Hw). simpl.
  destruct position as [ty links | ty p]; simpl in Hd.
  - destruct (lookup last links); [|discriminate].
    injection Hd as <-. simpl. now rewrite lookup_unlink_same.
  - discriminate.
Qed.

(** Below a dataset [fetch] raises what the test [k in dataset] raises,
    and [KeyError("Key not found")] where that test finds nothing. *)
Lemma fetch_below_dataset (self : DictStorage) (g : node) (keys : list string)
    (k : string) (rest : list string) (ty : option string) (p : payload) :
  self_group self = Ok g ->
  resolve keys g = Ok (Dataset ty p) ->
  fetch self (keys ++ k :: rest)
  = match contains k (Dataset ty p) with
    | Raise e => Raise e
    | Ok _ => Raise (KeyError "Key not found")
    end.
Proof.
  intros Hg Hr. unfold fetch. rewrite Hg. cbn [bind].
  rewrite walk_app, (walk_resolve _ _ _ Hr). cbn [bind walk].
  destruct (contains_dataset k ty p) as [-> | [e ->]]; reflexivity.
Qed.

Lemma fetch_group (self : DictStorage) (g : node) (keys : list string)
    (ty : option string) (links : list (string * node)) :
  self_group self = Ok g ->
  resolve keys g = Ok (Group ty links) ->
  fetch self keys
  = Raise (TypeError "Accessing a group is done with bytes or str, not tuple").
Proof.
  intros Hg Hr. unfold fetch. rewrite Hg. simpl.
  now rewrite (walk_resolve _ _ _ Hr).
Qed.

(** [delete] without [recursive] returns for every path that leads to a
    node. *)
Lemma delete_returns (self : DictStorage) (g n : node) (keys : list string) :
  self_group self = Ok g ->
  keys <> [] ->
  resolve keys g = Ok n ->
  exists self', delete self keys false = Some (Ok self').
Proof.
  intros Hg Hne Hr.
  destruct (snoc_of_nonempty keys Hne) as (init & last & ->).
  rewrite resolve_app in Hr.
  destruct (resolve init g) as [pg|e] eqn:Hi; [|discriminate Hr].
  cbn [bind resolve] in Hr.
  destruct pg as [ty links | ty p]; [|discriminate Hr].
  cbn [getitem] in Hr.
  destruct (lookup last links) as [c|] eqn:Hl; [|discriminate Hr].
  unfold delete. rewrite split_last_snoc, Hg. cbn [bind].
  rewrite (walk_resolve _ _ _ Hi). cbn [bind contains delitem].
  rewrite !Hl. cbn [bind]. now eexists.
Qed.

(** Every path leads to a node, or stops at a group that lacks the next
    name, or at a dataset with names left. *)
Lemma path_cases (g : node) (keys : list string) :
  (exists n, resolve keys g = Ok n)
  \/ (exists pre k rest,
        keys = pre ++ k :: rest
        /\ ((exists ty links,
               resolve pre g = Ok (Group ty links) /\ lookup k links = None)
            \/ (exists ty p, resolve pre g = Ok (Dataset ty p)))).
Proof.
  revert g. induction keys as [|i keys IH]; intros g.
  - left. now exists g.
  - destruct g as [ty links | ty p].
    + destruct (lookup i links) as [child|] eqn:Hl.
      * destruct (IH child) as [(n & Hn) | (pre & k & rest & -> & Hcase)].
        -- left. exists n. simpl. now rewrite Hl.
        -- right. exists (i :: pre), k, rest. split; [reflexivity|].
           simpl. rewrite Hl. exact Hcase.
      * right. exists [], i, keys. split; [reflexivity|].
        left. now exists ty, links.
    + right. exists [], i, keys. split; [reflexivity|].
      right. now exists ty, p.
Qed.

(** C7, as the code has it.  [fetch] walks from [self.group] link by
    link; every path is of one of the kinds that follow.  At the first
    name that the group reached does not have it
    raises [KeyError("Key not found")].  Where the walk has reached a
    dataset and names are left, it raises what Python's test
    [name in dataset] raises ([TypeError] for a scalar dataset) and
    [KeyError("Key not found")] where that test finds nothing.  Where the
    whole path leads to a dataset it returns the payload, where it leads
    to a group it raises [TypeError].  After [fromDict] of [{"a": 5}] into a
    new file, [fetch(["a"])] is the payload [pack] makes of 5.  [delete]
    without [recursive] returns for every path of one name or more that
    leads to a node, and
    after a [delete] that returned, [fetch] of the same path raises
    [KeyError("Key not found")]. *)
Theorem fetch_raises_where_the_walk_stops (track_order : bool) :
  (forall g keys,
      (exists n, resolve keys g = Ok n)
      \/ (exists pre k rest,
            keys = pre ++ k :: rest
            /\ ((exists ty links,
                   resolve pre g = Ok (Group ty links) /\ lookup k links = None)
                \/ (exists ty p, resolve pre g = Ok (Dataset ty p)))))
  /\ (forall self g keys k rest ty links,
      self_group self = Ok g ->
      resolve keys g = Ok (Group ty links) ->
      link_name k = true ->
      lookup k links = None ->
      exists e, fetch self (keys ++ k :: rest) = Raise e /\ KeyNotFound e)
  /\ (forall self g keys k rest ty p,
        self_group self = Ok g ->
        resolve keys g = Ok (Dataset ty p) ->
        fetch self (keys ++ k :: rest)
        = match contains k (Dataset ty p) with
          | Raise e => Raise e
          | Ok _ => Raise (KeyError "Key not found")
          end)
  /\ (forall self g keys ty p,
        self_group self = Ok g ->
        resolve keys g = Ok (Dataset ty p) ->
        fetch self keys = Ok p)
  /\ (forall self g keys ty links,
        self_group self = Ok g ->
        resolve keys g = Ok (Group ty links) ->
        fetch self keys
        = Raise (TypeError "Accessing a group is done with bytes or str, not tuple"))
  /\ (exists self p tag,
        fromDict track_order (new_file "cpu") (VDict [(KStr "a", VInt 5)]) = Ok self
        /\ pack (VInt 5) = Ok (p, tag)
        /\ fetch self ["a"] = Ok p)
  /\ (forall self g keys n,
        self_group self = Ok g ->
        keys <> [] ->
        resolve keys g = Ok n ->
        exists self',
          delete self keys false = Some (Ok self')
          /\ exists e, fetch self' keys = Raise e /\ KeyNotFound e)
  /\ (forall self keys recursive self',
        delete self keys recursive = Some (Ok self') ->
        exists e, fetch self' keys = Raise e /\ KeyNotFound e).
Proof.
  split; [exact path_cases|].
  split; [|split; [|split; [|split; [|split; [|split]]]]].
  - intros self g keys k rest ty links Hg Hr _ Hl.
    eexists. split; [now apply (fetch_missing self g keys k rest ty links) | reflexivity].
  - intros self g keys k rest ty p. apply fetch_below_dataset.
  - intros self g keys ty p. apply fetch_dataset.
  - intros self g keys ty links. apply fetch_group.
  - destruct track_order; do 3 eexists; repeat split.
  - intros self g keys n Hg Hne Hr.
    destruct (delete_returns self g n keys Hg Hne Hr) as (self' & Hd).
    exists self'. split; [exact Hd|].
    eexists. split; [now apply (fetch_after_delete self self' keys false) | reflexivity].
  - intros self keys recursive self' H.
    eexists. split; [now apply (fetch_after_delete self self' keys recursive) | reflexivity].
Qed.

Lemma fetch_raises_where_the_walk_stops_witness :
  let leaf := Dataset (Some "int") (PArray (np_array_int 5)) in
  let none := Dataset (Some "None") (PArray np_array_empty) in
  let matrix := mk_ndarray "int64" [2; 2]%nat [SInt 1; SInt 2; SInt 3; SInt 4] in
  let g := Group (Some "dict")
             [("a", Group (Some "dict")
                      [("b", leaf); ("m", Dataset (Some "tensor") (PArray matrix));
                       ("n", none)])] in
  let self := mk_DictStorage g [] "cpu" in
  (exists e, fetch self ["a"; "c"; "d"] = Raise e /\ KeyNotFound e)
  /\ fetch self (["a"; "b"] ++ "c" :: [])
     = Raise (TypeError "Can't iterate over a scalar dataset")
  /\ fetch self (["a"; "m"] ++ "c" :: [])
     = Raise (ValueError "The truth value of an array is ambiguous")
  /\ fetch self (["a"; "n"] ++ "c" :: []) = Raise (KeyError "Key not found")
  /\ fetch self ["a"; "b"] = Ok (PArray (np_array_int 5))
  /\ fetch self ["a"]
     = Raise (TypeError "Accessing a group is done with bytes or str, not tuple")
  /\ (exists self',
        delete self ["a"; "b"] false = Some (Ok self')
        /\ exists e, fetch self' ["a"; "b"] = Raise e /\ KeyNotFound e).
Proof.
  intros leaf none matrix g self.
  pose proof (fetch_raises_where_the_walk_stops false)
    as (_ & Hmissing & Hbelow & Hdataset & Hgroup & _ & Hdelete & _).
  split; [|split; [|split; [|split; [|split; [|split]]]]].
  - apply (Hmissing self g ["a"] "c" ["d"] (Some "dict")
             [("b", leaf); ("m", Dataset (Some "tensor") (PArray matrix)); ("n", none)]);
      reflexivity.
  - rewrite (Hbelow self g ["a"; "b"] "c" [] (Some "int") (PArray (np_array_int 5))
               eq_refl eq_refl).
    reflexivity.
  - rewrite (Hbelow self g ["a"; "m"] "c" [] (Some "tensor") (PArray matrix)
               eq_refl eq_refl).
    reflexivity.
  - rewrite (Hbelow self g ["a"; "n"] "c" [] (Some "None") (PArray np_array_empty)
               eq_refl eq_refl).
    reflexivity.
  - apply (Hdataset self g ["a"; "b"] (Some "int")); reflexivity.
  - apply (Hgroup self g ["a"] (Some "dict")
             [("b", leaf); ("m", Dataset (Some "tensor") (PArray matrix)); ("n", none)]);
      reflexivity.
  - apply (Hdelete self g ["a"; "b"] leaf); [reflexivity | discriminate | reflexivity].
Defined.

(** C7, as stated, fails below a leaf: after [fromDict] of [{"a": 5}] the
    segment ["b"] of the path [["a", "b"]] is missing, and [fetch] raises
    the [TypeError] of iterating over a scalar dataset, not
    [KeyError("Key not found")]. *)
Lemma fetch_below_a_leaf_is_not_KeyNotFound :
  exists self,
    fromDict false (new_file "cpu") (VDict [(KStr "a", VInt 5)]) = Ok self
    /\ fetch self ["a"; "b"] = Raise (TypeError "Can't iterate over a scalar dataset")
    /\ ~ KeyNotFound (TypeError "Can't iterate over a scalar dataset").
Proof.
  eexists. split; [reflexivity|]. split; [reflexivity|].
  unfold KeyNotFound. discriminate.
Qed.

(* ================================================================== *)
(** ** What a successful insertion leaves in a group *)
(* ================================================================== *)

Section Kept.

Variable track_order : bool.
Variable rec : node -> value -> result node.

Lemma lookup_add_link_kept (name n : string) (c : node) (links : list (string * node)) :
  lookup name links = None ->
  n = name \/ lookup n links <> None ->
  lookup n (add_link track_order name c links) <> None.
Proof.
  intros Hfresh [-> | H].
  - now rewrite lookup_add_link_same.
  - destruct (string_dec n name) as [-> | Hne]; [now rewrite lookup_add_link_same|].
    now rewrite lookup_add_link_other.
Qed.

(** The step that stores one value works on a group, keeps its tag and
    its links, and leaves a link of the given name. *)
Lemma insert_child_kept (name : string) (x : value) (position position' : node) :
  insert_child track_order rec name x position = Ok position' ->
  exists ty links links',
    position = Group ty links /\ position' = Group ty links'
    /\ lookup name links' <> None
    /\ (forall n, lookup n links <> None -> lookup n links' <> None).
Proof.
  destruct position as [ty links | ty p].
  - intros H. exists ty, links.
    assert (Hgroup : forall tag,
               insert_group track_order rec name tag x (Group ty links) = Ok position' ->
               exists links', position' = Group ty links'
                 /\ lookup name links' <> None
                 /\ (forall n, lookup n links <> None -> lookup n links' <> None)).
    { clear H. intros tag H. unfold insert_group in H. simpl in H.
      destruct (lookup name links) as [old|] eqn:Hl; simpl in H.
      - rewrite Hl in H. simpl in H.
        destruct (rec old x) as [child'|e]; simpl in H; [|discriminate].
        injection H as <-. eexists. split; [reflexivity|]. split.
        + now rewrite (lookup_relink_same _ _ _ _ Hl).
        + intros n Hn. now rewrite lookup_relink_none.
      - unfold set_type in H. simpl in H.
        rewrite (lookup_add_link_same _ _ _ _ Hl) in H. simpl in H.
        rewrite (relink_add_link _ _ _ _ _ Hl) in H.
        rewrite (lookup_add_link_same _ _ _ _ Hl) in H. simpl in H.
        destruct (rec (Group (Some tag) []) x) as [child'|e]; simpl in H; [|discriminate].
        injection H as <-. rewrite (relink_add_link _ _ _ _ _ Hl).
        eexists. split; [reflexivity|]. split.
        + now rewrite lookup_add_link_same.
        + intros n Hn. apply lookup_add_link_kept; auto. }
    assert (Hgroup' : forall tag,
               insert_group track_order rec name tag x (Group ty links) = Ok position' ->
               exists links', Group ty links = Group ty links
                 /\ position' = Group ty links'
                 /\ lookup name links' <> None
                 /\ (forall n, lookup n links <> None -> lookup n links' <> None)).
    { intros tag Htag. destruct (Hgroup tag Htag) as (links' & ? & ? & ?).
      now exists links'. }
    unfold insert_child in H.
    destruct (isinstance_dict x); [now apply Hgroup' in H|].
    destruct (isinstance_list x); [now apply Hgroup' in H|].
    destruct (isinstance_tuple x); [now apply Hgroup' in H|].
    destruct (pack x) as [[outData outDType]|e]; cbn [bind] in H; [|discriminate].
    destruct (create_dataset track_order name outData (Group ty links))
      as [position1|e] eqn:Hcd; cbn [bind] in H; [|discriminate].
    destruct (create_dataset_inv _ _ _ _ _ Hcd) as (ty1 & links1 & [= <- <-] & _ & Hl & ->).
    unfold set_type in H. simpl in H.
    rewrite (lookup_add_link_same _ _ _ _ Hl) in H. simpl in H.
    injection H as <-. rewrite (relink_add_link _ _ _ _ _ Hl).
    eexists. split; [reflexivity|]. split; [reflexivity|]. split.
    + now rewrite lookup_add_link_same.
    + intros n Hn. apply lookup_add_link_kept; auto.
  - intros H. exfalso.
    assert (Hgroup : forall tag,
               insert_group track_order rec name tag x (Dataset ty p) <> Ok position').
    { intros tag. unfold insert_group.
      destruct (contains_dataset name ty p) as [-> | [e ->]]; simpl; discriminate. }
    unfold insert_child in H.
    destruct (isinstance_dict x); [now apply Hgroup in H|].
    destruct (isinstance_list x); [now apply Hgroup in H|].
    destruct (isinstance_tuple x); [now apply Hgroup in H|].
    destruct (pack x) as [[outData outDType]|e]; simpl in H; discriminate.
Qed.

(** After the loop over the items of a dict has returned, every key of
    the dict has its link in the group. *)
Lemma insert_items_kept (items : list (key * value)) (position position' : node) :
  insert_items track_order rec items position = Ok position' ->
  forall k x, In (k, x) items ->
  exists name ty links links',
    encodeKey k = Ok name
    /\ position = Group ty links /\ position' = Group ty links'
    /\ lookup name links' <> None.
Proof.
  revert position. induction items as [|[k0 x0] items IH]; intros position; simpl.
  - intros _ k x [].
  - destruct (encodeKey k0) as [newKey|e] eqn:Hk; simpl; [|discriminate].
    destruct (insert_child track_order rec newKey x0 position) as [position1|e] eqn:Hc;
      simpl; [|discriminate].
    intros Hrest k x Hin.
    destruct (insert_child_kept _ _ _ _ Hc) as (ty & links & links1 & -> & -> & Hname & Hkeep).
    destruct Hin as [[= <- <-] | Hin].
    + destruct items as [|[k1 x1] items].
      * simpl in Hrest. injection Hrest as <-.
        now exists newKey, ty, links, links1.
      * destruct (IH _ Hrest k1 x1 (or_introl eq_refl))
          as (name1 & ty1 & links1' & links' & _ & Heq & -> & _).
        injection Heq as <- <-.
        assert (Hmono : forall n, lookup n links1 <> None -> lookup n links' <> None).
        { clear - Hrest. revert Hrest. generalize ((k1, x1) :: items) as its.
          intros its. revert links1.
          induction its as [|[k2 x2] its IHits]; intros links1; simpl.
          - now intros [= ->].
          - destruct (encodeKey k2) as [n2|e]; simpl; [|discriminate].
            destruct (insert_child track_order rec n2 x2 (Group ty links1))
              as [p2|e] eqn:Hc2; simpl; [|discriminate].
            destruct (insert_child_kept _ _ _ _ Hc2) as (ty2 & l2 & l2' & Heq & -> & _ & Hk2).
            injection Heq as <- <-.
            intros H n Hn. eapply IHits; [exact H | now apply Hk2]. }
        exists newKey, ty, links, links'. repeat split; auto.
    + destruct (IH _ Hrest k x Hin) as (name & ty1 & links1' & links' & Hn & Heq & -> & Hl).
      injection Heq as <- <-.
      now exists name, ty, links, links'.
Qed.

End Kept.

(* ================================================================== *)
(** ** The same value *)
(* ================================================================== *)

Lemma all2_refl {A : Type} (f : A -> A -> bool) (l : list A) :
  Forall (fun a => f a a = true) l -> all2 f l l = true.
Proof. induction 1; simpl; [reflexivity | now rewrite H]. Qed.

Lemma float_same_refl (x : float) : float_same x x = true.
Proof.
  destruct x as [s | s | | s m e]; simpl;
    rewrite ?Bool.eqb_reflx, ?Pos.eqb_refl, ?Z.eqb_refl; reflexivity.
Qed.

Lemma scalar_same_refl (x : scalar) : scalar_same x x = true.
Proof.
  destruct x; simpl; [apply Bool.eqb_reflx | apply Z.eqb_refl | apply float_same_refl].
Qed.

Lemma ndarray_same_refl (a : ndarray) : ndarray_same a a = true.
Proof.
  unfold ndarray_same. rewrite String.eqb_refl. simpl.
  rewrite !all2_refl; [reflexivity | |].
  - apply Forall_forall. intros x _. apply scalar_same_refl.
  - apply Forall_forall. intros x _. apply Nat.eqb_refl.
Qed.

(** A leaf is the same value as itself. *)
Lemma same_value_leaf (x : value) :
  is_container x = false -> same_value x x = true.
Proof.
  destruct x as [ | b | z | f | s | t | items | l | l | p | r ]; simpl;
    try discriminate; intros _.
  - reflexivity.
  - apply Bool.eqb_reflx.
  - apply Z.eqb_refl.
  - apply float_same_refl.
  - apply String.eqb_refl.
  - now rewrite !String.eqb_refl, !Bool.eqb_reflx, ndarray_same_refl.
  - destruct p; simpl; [apply ndarray_same_refl | apply String.eqb_refl].
  - apply String.eqb_refl.
Qed.

Lemma all2_Forall2 {A B : Type} (f : A -> B -> bool) (l : list A) (l' : list B) :
  Forall2 (fun a b => f a b = true) l l' -> all2 f l l' = true.
Proof. induction 1; simpl; [reflexivity | now rewrite H]. Qed.

(** On texts and integers Python's equality of keys is equality. *)
Lemma key_eqb_eq (k k' : key) :
  text_or_int k = true -> text_or_int k' = true ->
  (key_eqb k k' = true <-> k = k').
Proof.
  destruct k, k'; simpl; try discriminate; intros _ _.
  - rewrite String.eqb_eq. split; [now intros -> | now intros [= ->]].
  - split; discriminate.
  - split; discriminate.
  - rewrite Z.eqb_eq. split; [now intros -> | now intros [= ->]].
Qed.

Lemma storable_text_or_int (k : key) :
  storable_key k = true -> text_or_int k = true.
Proof. now destruct k. Qed.

Lemma distinct_keys_NoDup (ks : list key) :
  Forall (fun k => text_or_int k = true) ks ->
  distinct_keys ks = true -> NoDup ks.
Proof.
  induction 1 as [|k ks Hk Hks IH]; simpl; [constructor|].
  intros H. apply andb_true_iff in H. destruct H as [Hn Hd].
  constructor; [|now apply IH].
  intros Hin. apply negb_true_iff in Hn.
  assert (existsb (key_eqb k) ks = true); [|congruence].
  apply existsb_exists. exists k. split; [exact Hin|].
  now apply key_eqb_eq.
Qed.

(** [d[k]] finds the value of a key that is listed once. *)
Lemma dict_get_In (k : key) (x : value) (items : list (key * value)) :
  Forall (fun k => text_or_int k = true) (map fst items) ->
  NoDup (map fst items) ->
  In (k, x) items ->
  dict_get k items = Some x.
Proof.
  induction items as [|[k0 x0] items IH]; simpl; [intros _ _ []|].
  intros Hk Hnd Hin. inversion Hk as [|? ? Hk0 Hks]; subst.
  inversion Hnd as [|? ? Hnotin Hnd']; subst.
  destruct Hin as [[= -> ->] | Hin].
  - assert (E : key_eqb k k = true) by now apply key_eqb_eq.
    now rewrite E.
  - destruct (key_eqb k k0) eqn:E.
    + apply key_eqb_eq in E; auto.
      * subst k0. elim Hnotin. now apply (in_map fst) in Hin.
      * apply (in_map fst) in Hin. simpl in Hin.
        now apply (proj1 (Forall_forall _ _) Hks).
    + now apply IH.
Qed.

(** [target[k] = x] adds the item at the end when the key is new. *)
Lemma dict_set_new (k : key) (x : value) (items : list (key * value)) :
  Forall (fun k => text_or_int k = true) (k :: map fst items) ->
  ~ In k (map fst items) ->
  dict_set k x items = items ++ [(k, x)].
Proof.
  induction items as [|[k0 x0] items IH]; simpl; [reflexivity|].
  intros Hk Hnotin.
  inversion Hk as [|? ? Hk1 Hks]; subst. inversion Hks as [|? ? Hk0 Hks']; subst.
  destruct (key_eqb k k0) eqn:E.
  - apply key_eqb_eq in E; auto. subst k0. elim Hnotin. now left.
  - rewrite IH; [reflexivity | now constructor | tauto].
Qed.

(* ================================================================== *)
(** ** Sequences: the names and the place of the links *)
(* ================================================================== *)

Lemma str_nat_neq (i j : nat) :
  i <> j -> String.eqb (str_int (Z.of_nat i)) (str_int (Z.of_nat j)) = false.
Proof.
  intros Hne. apply String.eqb_neq. intros H.
  apply str_int_inj, Nat2Z.inj in H. contradiction.
Qed.

Lemma lookup_named_fresh (cs : list node) (j idx : nat) :
  j + length cs <= idx ->
  lookup (str_int (Z.of_nat idx)) (named j cs) = None.
Proof.
  revert j. induction cs as [|c cs IH]; intros j; simpl; [reflexivity|].
  intros H. rewrite str_nat_neq by lia. apply IH. lia.
Qed.

Lemma named_app (idx : nat) (a b : list node) :
  named idx (a ++ b) = named idx a ++ named (idx + length a) b.
Proof.
  revert idx. induction a as [|c a IH]; intros idx; simpl.
  - now rewrite Nat.add_0_r.
  - rewrite IH. do 3 f_equal. lia.
Qed.

Lemma named_names (cs : list node) (j n : nat) :
  j + length cs <= n ->
  Forall (fun l => exists i, i < n /\ fst l = str_int (Z.of_nat i)) (named j cs).
Proof.
  revert j. induction cs as [|c cs IH]; intros j; simpl; constructor.
  - exists j. simpl. split; [lia | reflexivity].
  - apply IH. lia.
Qed.

(** Below ten, the order of the names is the order of the numbers. *)
Lemma digit_order (i j : nat) :
  j < i -> i < 10 ->
  String.ltb (str_int (Z.of_nat i)) (str_int (Z.of_nat j)) = false.
Proof.
  intros Hji Hi.
  do 10 (destruct i as [|i]; [do 10 (destruct j as [|j]; [reflexivity || lia|]); lia|]).
  lia.
Qed.

Lemma insert_by_name_last (name : string) (c : node) (links : list (string * node)) :
  Forall (fun l => String.ltb name (fst l) = false) links ->
  insert_by_name name c links = links ++ [(name, c)].
Proof.
  induction 1 as [|[name' c'] links H _ IH]; simpl; [reflexivity|].
  simpl in H. now rewrite H, IH.
Qed.

Section Sequences.

Variable track_order : bool.

(** The link of the next element goes to the end of the enumeration: always
    in creation order, and by name as long as the index has one digit. *)
Lemma add_link_named (c : node) (cs0 : list node) :
  track_order = true \/ length cs0 < 10 ->
  add_link track_order (str_int (Z.of_nat (length cs0))) c (named 0 cs0)
  = named 0 (cs0 ++ [c]).
Proof.
  intros H. rewrite named_app. simpl. unfold add_link.
  destruct track_order; [reflexivity|].
  destruct H as [H|H]; [discriminate|].
  apply insert_by_name_last.
  eapply Forall_impl; [|apply (named_names cs0 0 (length cs0)); lia].
  intros [name' c'] (i & Hi & ->). simpl. apply digit_order; lia.
Qed.

Lemma add_links_named (cs cs0 : list node) :
  track_order = true \/ length cs0 + length cs <= 10 ->
  add_links track_order (named (length cs0) cs) (named 0 cs0) = named 0 (cs0 ++ cs).
Proof.
  revert cs0. induction cs as [|c cs IH]; intros cs0 H; simpl.
  - now rewrite app_nil_r.
  - unfold add_links. simpl. rewrite add_link_named by (simpl in H; lia || (destruct H; [now left | right; lia])).
    replace (S (length cs0)) with (length (cs0 ++ [c])) by (rewrite length_app; simpl; lia).
    fold (add_links track_order (named (length (cs0 ++ [c])) cs) (named 0 (cs0 ++ [c]))).
    rewrite IH.
    + now rewrite <- app_assoc.
    + rewrite length_app. simpl in *. destruct H; [now left | right; lia].
Qed.

(** The loop over the elements adds one link per element, under the
    decimal form of its index. *)
Lemma insert_elements_writes (l : list value) (cs : list node) :
  Forall2 (writes track_order) l cs ->
  forall idx ty links,
    (forall i, idx <= i -> lookup (str_int (Z.of_nat i)) links = None) ->
    insert_elements track_order (fun child y => recursiveInsert track_order child y)
      idx l (Group ty links)
    = Ok (Group ty (add_links track_order (named idx cs) links)).
Proof.
  induction 1 as [|x c l cs Hw _ IH]; intros idx ty links Hfresh; simpl; [reflexivity|].
  rewrite (Hw _ ty links (Hfresh idx (le_n idx))). simpl.
  rewrite IH; [reflexivity|].
  intros i Hi. rewrite lookup_add_link_other.
  - apply Hfresh. lia.
  - intros E. apply str_int_inj, Nat2Z.inj in E. lia.
Qed.

End Sequences.

Section SequencesDecoded.

Variable torchDevice : string.

Lemma fetch_elements_decodes (links : list (string * node)) (xs : list value) :
  Forall2 (fun l x => decodes torchDevice (snd l) x) links xs ->
  forall target,
    fetch_elements torchDevice (recursiveFetch torchDevice) links target
    = ([], Ok (target ++ xs)).
Proof.
  induction 1 as [|[i c] x links xs Hd _ IH]; intros target; simpl.
  - now rewrite app_nil_r.
  - simpl in Hd. unfold decodes in Hd. rewrite Hd, out_bind_ok, IH.
    now rewrite <- app_assoc.
Qed.

Lemma named_decodes (cs : list node) (xs : list value) (idx : nat) :
  Forall2 (decodes torchDevice) cs xs ->
  Forall2 (fun l x => decodes torchDevice (snd l) x) (named idx cs) xs.
Proof.
  intros H. revert idx. induction H; intros idx; simpl; constructor; auto.
Qed.

End SequencesDecoded.

(* ================================================================== *)
(** ** Dicts: the items and their links *)
(* ================================================================== *)

Lemma spec_encodeKey_inj (k k' : key) :
  storable_key k = true -> storable_key k' = true ->
  spec_encodeKey k = spec_encodeKey k' -> k = k'.
Proof.
  intros Hk Hk' E.
  destruct (storable_key_codec k Hk) as [_ Hd].
  destruct (storable_key_codec k' Hk') as [_ Hd'].
  rewrite E, Hd' in Hd. now injection Hd.
Qed.

Section Dicts.

Variable track_order : bool.
Variable torchDevice : string.

Lemma add_links_perm (new links : list (string * node)) :
  Permutation (add_links track_order new links) (links ++ new).
Proof.
  revert links. induction new as [|[name c] new IH]; intros links; simpl.
  - now rewrite app_nil_r.
  - unfold add_links. simpl.
    fold (add_links track_order new (add_link track_order name c links)).
    rewrite IH, add_link_perm. simpl. apply Permutation_middle.
Qed.

(** The loop over the items adds one link per item, under the name of
    its key. *)
Lemma insert_items_writes (Q : list stored_item) :
  Forall (well_stored track_order torchDevice) Q ->
  NoDup (map fst (map link_of Q)) ->
  forall ty links,
    (forall q, In q Q -> lookup (fst (link_of q)) links = None) ->
    insert_items track_order (fun child y => recursiveInsert track_order child y)
      (map item_of Q) (Group ty links)
    = Ok (Group ty (add_links track_order (map link_of Q) links)).
Proof.
  induction 1 as [|q Q Hq _ IH]; intros Hnd ty links Hfresh; [reflexivity|].
  destruct Hq as (Hk & Hw & _ & _).
  destruct (storable_key_codec _ Hk) as [He _].
  pose proof (Hw _ ty links (Hfresh q (or_introl eq_refl))) as Hstep.
  cbn [map insert_items item_of]. rewrite He. cbn [bind].
  cbn [link_of fst] in Hstep. rewrite Hstep. cbn [bind].
  inversion Hnd as [|? ? Hnotin Hnd']; subst.
  rewrite IH; [reflexivity | exact Hnd' |].
  intros q' Hq'. rewrite lookup_add_link_other.
  - apply Hfresh. now right.
  - intros E. apply Hnotin. simpl. rewrite <- E.
    apply in_map. now apply in_map.
Qed.

(** The loop of the decoder over those links gives the items back. *)
Lemma fetch_items_decodes (Q : list stored_item) :
  Forall (well_stored track_order torchDevice) Q ->
  forall target,
    Forall (fun k => text_or_int k = true) (map fst target) ->
    NoDup (map fst target ++ map it_key Q) ->
    fetch_items torchDevice (recursiveFetch torchDevice) (map link_of Q) target
    = ([], Ok (target ++ map entry_of Q)).
Proof.
  induction 1 as [|q Q Hq _ IH]; intros target Hkeys Hnd.
  - simpl. now rewrite app_nil_r.
  - destruct Hq as (Hk & _ & Hd & _).
    destruct (storable_key_codec _ Hk) as [_ Hdk].
    cbn [map fetch_items link_of]. rewrite Hdk.
    unfold out_lift. rewrite out_bind_ok.
    unfold decodes in Hd. rewrite Hd, out_bind_ok.
    assert (Hnotin : ~ In (it_key q) (map fst target)).
    { intros Hin. apply NoDup_remove_2 in Hnd. apply Hnd.
      apply in_or_app. now left. }
    rewrite dict_set_new; [| constructor; [now apply storable_text_or_int | exact Hkeys]
                           | exact Hnotin].
    rewrite IH.
    + now rewrite <- app_assoc.
    + rewrite map_app. apply Forall_app. split; [exact Hkeys|].
      constructor; [now apply storable_text_or_int | constructor].
    + rewrite map_app, <- app_assoc. exact Hnd.
Qed.

(** The dict read back has the keys of the dict written, with the same
    values. *)
Lemma same_value_dict (Q Q' : list stored_item) :
  Forall (well_stored track_order torchDevice) Q ->
  NoDup (map it_key Q) ->
  Permutation Q Q' ->
  same_value (VDict (map item_of Q)) (VDict (map entry_of Q')) = true.
Proof.
  intros HQ Hnd Hperm. simpl.
  rewrite !length_map, (Permutation_length Hperm), Nat.eqb_refl. simpl.
  apply forallb_forall. intros [k x] Hin.
  apply in_map_iff in Hin. destruct Hin as (q & [= <- <-] & Hq).
  assert (Hback : dict_get (it_key q) (map entry_of Q') = Some (it_back q)).
  { apply dict_get_In.
    - rewrite map_map. simpl. apply Forall_map.
      eapply Forall_impl; [|exact (Permutation_Forall Hperm HQ)].
      intros q' (Hk & _). now apply storable_text_or_int.
    - rewrite map_map. simpl.
      apply (Permutation_NoDup (Permutation_map it_key Hperm) Hnd).
    - apply (in_map entry_of). now apply (Permutation_in _ Hperm). }
  rewrite Hback.
  now destruct (proj1 (Forall_forall _ _) HQ q Hq) as (_ & _ & _ & Hs).
Qed.

End Dicts.

(* ================================================================== *)
(** ** Round trip *)
(* ================================================================== *)

Section RoundTrip.

Variable track_order : bool.
Variable torchDevice : string.

Lemma leaf_writes (x : value) (p : payload) (tag : string) :
  is_container x = false ->
  pack x = Ok (p, tag) ->
  h5_accepts p = true ->
  writes track_order x (Dataset (Some tag) p).
Proof.
  intros Hc Hp Ha name ty links Hfresh.
  unfold insert_child. rewrite Hp.
  replace (isinstance_dict x) with false by (destruct x; try reflexivity; discriminate).
  replace (isinstance_list x) with false by (destruct x; try reflexivity; discriminate).
  replace (isinstance_tuple x) with false by (destruct x; try reflexivity; discriminate).
  cbn [bind]. rewrite (create_dataset_fresh _ _ _ _ _ Ha Hfresh). cbn [bind].
  unfold set_type. simpl.
  rewrite (lookup_add_link_same _ _ _ _ Hfresh). simpl.
  now rewrite (relink_add_link _ _ _ _ _ Hfresh).
Qed.

Lemma encodable_leaf (x : value) :
  is_container x = false ->
  encodable track_order torchDevice x = true ->
  stored_leaf x = true /\ to_device torchDevice x = x.
Proof.
  destruct x as [ | b | z | f | s | t | items | l | l | p | r ];
    try discriminate; intros _ He; try discriminate He;
    try (split; [exact He | reflexivity]).
  cbn [encodable] in He. apply andb_true_iff in He. destruct He as [Hs Hd].
  split; [exact Hs|]. apply String.eqb_eq in Hd. subst torchDevice.
  now destruct t.
Qed.

Lemma leaf_round_trips (x : value) :
  is_container x = false ->
  encodable track_order torchDevice x = true ->
  round_trips track_order torchDevice x.
Proof.
  intros Hc He.
  destruct (encodable_leaf x Hc He) as [Hs Hsame].
  destruct (stored_leaf_pack x Hs) as (p & tag & Hp & Ha & Hu).
  exists (Dataset (Some tag) p), x. split; [now apply leaf_writes | split].
  - unfold decodes. cbn [fetch_child is_group]. now rewrite Hu, Hsame.
  - now apply same_value_leaf.
Qed.

(** A container whose encoding and decoding are known is written as a
    group and read back from it. *)
Lemma container_round_trips (v : value) (links : list (string * node)) (x' : value) :
  is_container v = true ->
  (forall ty0, recursiveInsert track_order (Group ty0 []) v = Ok (Group ty0 links)) ->
  recursiveFetch torchDevice (Group (Some (tag_of v)) links) = ([], Ok x') ->
  same_value v x' = true ->
  round_trips track_order torchDevice v.
Proof.
  intros Hc Hins Hfetch Hsame.
  exists (Group (Some (tag_of v)) links), x'.
  split; [|split; [exact Hfetch | exact Hsame]].
  intros name ty links0 Hfresh.
  assert (Hgroup : insert_group track_order
                     (fun child y => recursiveInsert track_order child y)
                     name (tag_of v) v (Group ty links0)
                   = Ok (Group ty (add_link track_order name
                                     (Group (Some (tag_of v)) links) links0))).
  { unfold insert_group. simpl. rewrite Hfresh. simpl.
    unfold set_type. simpl.
    rewrite (lookup_add_link_same _ _ _ _ Hfresh). simpl.
    rewrite (relink_add_link _ _ _ _ _ Hfresh).
    rewrite (lookup_add_link_same _ _ _ _ Hfresh). simpl.
    rewrite Hins. simpl.
    now rewrite (relink_add_link _ _ _ _ _ Hfresh). }
  unfold insert_child.
  destruct v; try discriminate Hc; exact Hgroup.
Qed.

Lemma round_trips_lists (l : list value) :
  Forall (round_trips track_order torchDevice) l ->
  exists cs xs,
    Forall2 (writes track_order) l cs
    /\ Forall2 (decodes torchDevice) cs xs
    /\ Forall2 (fun x x' => same_value x x' = true) l xs.
Proof.
  induction 1 as [|x l (c & x' & Hw & Hd & Hs) _ (cs & xs & IHw & IHd & IHs)].
  - exists [], []. repeat constructor.
  - exists (c :: cs), (x' :: xs). repeat constructor; assumption.
Qed.

(** A list or tuple of values that round-trip. *)
Lemma sequence_encoded (l : list value) (ty : string) :
  ty = "list" \/ ty = "tuple" ->
  (track_order || Nat.leb (length l) 10) = true ->
  Forall (round_trips track_order torchDevice) l ->
  exists links xs,
    (forall ty0,
        insert_elements track_order (fun child y => recursiveInsert track_order child y)
          0 l (Group ty0 [])
        = Ok (Group ty0 links))
    /\ recursiveFetch torchDevice (Group (Some ty) links)
       = ([], Ok (if String.eqb ty "tuple" then VTuple xs else VList xs))
    /\ all2 (fun x y => same_value x y) l xs = true.
Proof.
  intros Hty Hlen Hall.
  destruct (round_trips_lists l Hall) as (cs & xs & Hw & Hd & Hs).
  exists (named 0 cs), xs. split; [|split].
  - intros ty0.
    rewrite (insert_elements_writes track_order l cs Hw 0 ty0 []) by reflexivity.
    assert (Hadd : add_links track_order (named 0 cs) [] = named 0 cs).
    { apply (add_links_named track_order cs []).
      rewrite <- (Forall2_length Hw). simpl.
      apply orb_true_iff in Hlen. destruct Hlen as [H|H]; [now left | right].
      now apply Nat.leb_le. }
    now rewrite Hadd.
  - rewrite recursiveFetch_group.
    replace (String.eqb ty "list" || String.eqb ty "tuple") with true
      by (destruct Hty; subst; reflexivity).
    rewrite (fetch_elements_decodes torchDevice (named 0 cs) xs
               (named_decodes torchDevice cs xs 0 Hd)).
    rewrite out_bind_ok. simpl. now destruct (String.eqb ty "tuple").
  - now apply all2_Forall2.
Qed.

Lemma well_stored_items (items : list (key * value)) :
  forallb storable_key (map fst items) = true ->
  Forall (round_trips track_order torchDevice) (map snd items) ->
  exists Q, map item_of Q = items /\ Forall (well_stored track_order torchDevice) Q.
Proof.
  induction items as [|[k x] items IH]; simpl.
  - intros _ _. now exists [].
  - intros Hk Hall. apply andb_true_iff in Hk. destruct Hk as [Hk Hks].
    inversion Hall as [|? ? (c & x' & Hw & Hd & Hs) Hall']; subst.
    destruct (IH Hks Hall') as (Q & HQ & Hgood).
    exists (mk_stored_item k x c x' :: Q). split.
    + simpl. now rewrite HQ.
    + constructor; [|exact Hgood]. now repeat split.
Qed.

(** A dict with storable, distinct keys and values that round-trip. *)
Lemma dict_encoded (items : list (key * value)) :
  forallb storable_key (map fst items) = true ->
  distinct_keys (map fst items) = true ->
  Forall (round_trips track_order torchDevice) (map snd items) ->
  exists links entries,
    (forall ty0,
        insert_items track_order (fun child y => recursiveInsert track_order child y)
          items (Group ty0 [])
        = Ok (Group ty0 links))
    /\ recursiveFetch torchDevice (Group (Some "dict") links) = ([], Ok (VDict entries))
    /\ same_value (VDict items) (VDict entries) = true.
Proof.
  intros Hk Hd Hall.
  destruct (well_stored_items items Hk Hall) as (Q & <- & HQ).
  assert (Hkeys : map fst (map item_of Q) = map it_key Q) by now rewrite map_map.
  rewrite Hkeys in Hk, Hd.
  assert (Htext : Forall (fun k => text_or_int k = true) (map it_key Q)).
  { apply Forall_map. eapply Forall_impl; [|exact HQ].
    intros q (Hq & _). now apply storable_text_or_int. }
  assert (Hnd : NoDup (map it_key Q)) by now apply distinct_keys_NoDup.
  assert (Hnames : NoDup (map fst (map link_of Q))).
  { replace (map fst (map link_of Q)) with (map spec_encodeKey (map it_key Q))
      by now rewrite !map_map.
    apply NoDup_map_NoDup_ForallPairs; [|exact Hnd].
    intros k k' Hin Hin' E.
    apply spec_encodeKey_inj; auto.
    - apply (proj1 (forallb_forall _ _) Hk _ Hin).
    - apply (proj1 (forallb_forall _ _) Hk _ Hin'). }
  destruct (Permutation_map_inv link_of Q (add_links_perm track_order (map link_of Q) []))
    as (Q' & Hlinks & Hperm).
  exists (add_links track_order (map link_of Q) []), (map entry_of Q').
  split; [|split].
  - intros ty0. now apply (insert_items_writes track_order torchDevice).
  - rewrite recursiveFetch_group. simpl. rewrite Hlinks.
    rewrite (fetch_items_decodes track_order torchDevice Q').
    + now rewrite out_bind_ok.
    + exact (Permutation_Forall Hperm HQ).
    + constructor.
    + simpl. apply (Permutation_NoDup (Permutation_map it_key Hperm) Hnd).
  - now apply (same_value_dict track_order torchDevice).
Qed.

(** What [recursiveInsert] writes into an empty group for a container,
    [recursiveFetch] reads back. *)
Lemma container_encoded (v : value) :
  is_container v = true ->
  encodable track_order torchDevice v = true ->
  Forall (round_trips track_order torchDevice) (elements v) ->
  exists links x',
    (forall ty0, recursiveInsert track_order (Group ty0 []) v = Ok (Group ty0 links))
    /\ recursiveFetch torchDevice (Group (Some (tag_of v)) links) = ([], Ok x')
    /\ same_value v x' = true.
Proof.
  intros Hc He Hall.
  destruct v as [ | b | z | f | s | t | items | l | l | p | r ]; try discriminate Hc;
    simpl in He, Hall.
  - apply andb_true_iff in He. destruct He as [He _].
    apply andb_true_iff in He. destruct He as [Hk Hd].
    destruct (dict_encoded items Hk Hd Hall) as (links & entries & Hi & Hf & Hs).
    now exists links, (VDict entries).
  - apply andb_true_iff in He. destruct He as [Hlen _].
    destruct (sequence_encoded l "list" (or_introl eq_refl) Hlen Hall)
      as (links & xs & Hi & Hf & Hs).
    now exists links, (VList xs).
  - apply andb_true_iff in He. destruct He as [Hlen _].
    destruct (sequence_encoded l "tuple" (or_intror eq_refl) Hlen Hall)
      as (links & xs & Hi & Hf & Hs).
    now exists links, (VTuple xs).
Qed.

Lemma encodable_round_trips (x : value) :
  encodable track_order torchDevice x = true ->
  round_trips track_order torchDevice x.
Proof.
  induction x as [x Hleaf | items IH | l IH | l IH] using value_nested_ind;
    intros He.
  - now apply leaf_round_trips.
  - assert (Hall : Forall (round_trips track_order torchDevice) (elements (VDict items))).
    { simpl in *. apply andb_true_iff in He. destruct He as [_ He].
      apply Forall_map. apply Forall_forall. intros [k x] Hin.
      apply (proj1 (Forall_forall _ _) IH _ Hin).
      apply (proj1 (forallb_forall _ _) He _ Hin). }
    destruct (container_encoded _ (eq_refl : is_container (VDict items) = true) He Hall)
      as (links & x' & Hi & Hf & Hs).
    now apply (container_round_trips _ links x').
  - assert (Hall : Forall (round_trips track_order torchDevice) (elements (VList l))).
    { simpl in *. apply andb_true_iff in He. destruct He as [_ He].
      apply Forall_forall. intros x Hin.
      apply (proj1 (Forall_forall _ _) IH _ Hin).
      apply (proj1 (forallb_forall _ _) He _ Hin). }
    destruct (container_encoded _ (eq_refl : is_container (VList l) = true) He Hall)
      as (links & x' & Hi & Hf & Hs).
    now apply (container_round_trips _ links x').
  - assert (Hall : Forall (round_trips track_order torchDevice) (elements (VTuple l))).
    { simpl in *. apply andb_true_iff in He. destruct He as [_ He].
      apply Forall_forall. intros x Hin.
      apply (proj1 (Forall_forall _ _) IH _ Hin).
      apply (proj1 (forallb_forall _ _) He _ Hin). }
    destruct (container_encoded _ (eq_refl : is_container (VTuple l) = true) He Hall)
      as (links & x' & Hi & Hf & Hs).
    now apply (container_round_trips _ links x').
Qed.

Lemma encodable_elements (v : value) :
  encodable track_order torchDevice v = true ->
  Forall (fun x => encodable track_order torchDevice x = true) (elements v).
Proof.
  destruct v as [ | b | z | f | s | t | items | l | l | p | r ]; simpl;
    try (intros _; constructor); intros He;
    apply andb_true_iff in He; destruct He as [_ He].
  - apply Forall_map. apply Forall_forall. intros [k x] Hin.
    apply (proj1 (forallb_forall _ _) He _ Hin).
  - apply Forall_forall. intros x Hin. apply (proj1 (forallb_forall _ _) He _ Hin).
  - apply Forall_forall. intros x Hin. apply (proj1 (forallb_forall _ _) He _ Hin).
Qed.

End RoundTrip.

(** X20.  The round trip, where it holds.  Let [v] be a dict, list or
    tuple that is [encodable]: built from None, booleans, floats, integers
    from -2^63 up to 2^64 - 1, strings without NUL, dense tensors on the
    device of the storage that require no gradient and have an element
    type of numpy, dicts with pairwise distinct storable keys (integers,
    and texts that are not reserved and are one link name), and lists and
    tuples, of at most ten elements each where the groups enumerate their
    links by name.  Then [fromDict(v)] into an empty group returns, and
    [toDict()] after it returns, without a warning, the same value: lists
    stay lists and tuples tuples, with their elements in order; a dict has
    the same keys, integer keys and the empty text among them, and the
    same value under each key. *)
Theorem container_round_trip
    (track_order : bool) (self : DictStorage) (ty : option string) (v : value) :
  self_group self = Ok (Group ty []) ->
  is_container v = true ->
  encodable track_order (torchDevice self) v = true ->
  exists self' v',
    fromDict track_order self v = Ok self'
    /\ toDict self' = ([], Ok v')
    /\ same_value v v' = true.
Proof.
  intros Hg Hc He.
  assert (Hall : Forall (round_trips track_order (torchDevice self)) (elements v)).
  { eapply Forall_impl; [|exact (encodable_elements _ _ _ He)].
    intros x. apply encodable_round_trips. }
  destruct (container_encoded _ _ v Hc He Hall) as (links & v' & Hi & Hf & Hs).
  exists (with_group self (Group (Some (tag_of v)) links)), v'.
  split; [|split; [|exact Hs]].
  - unfold fromDict. rewrite Hg. simpl.
    replace (if isinstance_dict v then Group (Some "dict") []
             else if isinstance_list v then Group (Some "list") []
             else if isinstance_tuple v then Group (Some "tuple") []
             else Group ty [])
      with (Group (Some (tag_of v)) [])
      by (destruct v; try discriminate Hc; reflexivity).
    now rewrite Hi.
  - unfold toDict.
    rewrite (self_group_with_group self _ (Group (Some (tag_of v)) links) Hg).
    unfold out_lift. rewrite out_bind_ok. exact Hf.
Qed.

(** The scenario of the specification: [{"": 1, 0: "x", "k": [1, 2.5, None]}]. *)
Lemma container_round_trip_witness :
  let v := VDict [(KStr "", VInt 1); (KInt 0, VStr "x");
                  (KStr "k", VList [VInt 1; VFloat (S754_finite false 5 (-1)); VNone])] in
  exists self' v',
    fromDict false (new_file "cpu") v = Ok self'
    /\ toDict self' = ([], Ok v')
    /\ same_value v v' = true.
Proof.
  intros v.
  apply (container_round_trip false (new_file "cpu") None v); reflexivity.
Defined.

Example specification_scenario (track_order : bool) :
  let v := VDict [(KStr "", VInt 1); (KInt 0, VStr "x");
                  (KStr "k", VList [VInt 1; VFloat (S754_finite false 5 (-1)); VNone])] in
  exists self',
    fromDict track_order (new_file "cpu") v = Ok self'
    /\ toDict self' = ([], Ok v).
Proof. destruct track_order; eexists; split; reflexivity. Qed.

(** A value that is not a container is not stored: [fromDict] of the
    integer 5 writes nothing, not even the tag of the root, and [toDict]
    raises on the missing tag. *)
Lemma top_level_scalar_not_read_back :
  fromDict false (new_file "cpu") (VInt 5) = Ok (new_file "cpu")
  /\ fromDict true (new_file "cpu") (VInt 5) = Ok (new_file "cpu")
  /\ toDict (new_file "cpu")
     = ([], Raise (KeyError "Can't open attribute (can't locate attribute: 'type')")).
Proof. repeat split. Qed.

(** C1 does not hold of the code: where links are enumerated by name, as
    h5py does by default, [fromDict] of the list [0, 1, ..., 10] into a new
    file returns, and [toDict] after it returns the elements in the order
    of their names, "0", "1", "10", "2", ..., not the list stored. *)
Theorem eleven_element_list_comes_back_reordered :
  let v := VList (map (fun n => VInt (Z.of_nat n)) (seq 0 11)) in
  let v' := VList [VInt 0; VInt 1; VInt 10; VInt 2; VInt 3; VInt 4;
                   VInt 5; VInt 6; VInt 7; VInt 8; VInt 9] in
  exists self',
    fromDict false (new_file "cpu") v = Ok self'
    /\ toDict self' = ([], Ok v')
    /\ same_value v v' = false.
Proof. eexists. repeat split. Qed.

(* ================================================================== *)
(** ** Boolean keys *)
(* ================================================================== *)

Lemma snd_out_bind_ok {A B : Type} (w : list string) (a : A) (f : A -> out B) :
  snd (out_bind (w, Ok a) f) = snd (f a).
Proof. unfold out_bind. now destruct (f a). Qed.

(** The loop over the items raises when one of the names does not decode. *)
Lemma fetch_items_bad_name (torchDevice : string) (dec : node -> out value)
    (links : list (string * node)) (name : string) :
  lookup name links <> None ->
  raises (decodeKey name) ->
  forall target, raises (snd (fetch_items torchDevice dec links target)).
Proof.
  intros Hin Hbad.
  induction links as [|[i child] links IH]; [simpl in Hin; congruence|].
  intros target. cbn [fetch_items]. unfold out_lift. simpl in Hin.
  destruct (String.eqb name i) eqn:E.
  - apply String.eqb_eq in E. subst i.
    destruct Hbad as [e ->]. simpl. now exists e.
  - destruct (decodeKey i) as [iOut|e]; [|now exists e].
    rewrite snd_out_bind_ok.
    destruct (fetch_child torchDevice dec child) as [w [x|e]]; [|now exists e].
    rewrite snd_out_bind_ok. now apply IH.
Qed.

(** C9.  A boolean key passes the test for integer keys and gets the name
    ["__int__True"] or ["__int__False"]; [int] raises on the rest of that
    name.  [fromDict] of a dict with a boolean key and an encodable value
    into an empty group returns; and whenever [fromDict] of a dict with a
    boolean key returns, the link of that name is in the group and
    [toDict] raises. *)
Theorem bool_key_encodes_but_does_not_decode (track_order : bool) (b : bool) :
  let name := ("__int__" ++ str_bool b)%string in
  encodeKey (KBool b) = Ok name
  /\ raises (decodeKey name)
  /\ (forall self ty x,
        self_group self = Ok (Group ty []) ->
        encodable track_order (torchDevice self) x = true ->
        exists self', fromDict track_order self (VDict [(KBool b, x)]) = Ok self')
  /\ (forall self self' items x,
        In (KBool b, x) items ->
        fromDict track_order self (VDict items) = Ok self' ->
        (exists g child, self_group self' = Ok g /\ getitem name g = Ok child)
        /\ raises (snd (toDict self'))).
Proof.
  intros name.
  assert (Hdec : raises (decodeKey name)) by (destruct b; now eexists).
  split; [reflexivity|]. split; [exact Hdec|]. split.
  { intros self ty x Hg He.
    destruct (encodable_round_trips _ _ x He) as (c & _ & Hw & _).
    unfold fromDict. rewrite Hg.
    cbn [bind isinstance_dict set_attr_type recursiveInsert insert_items].
    change (encodeKey (KBool b)) with (Ok name). cbn [bind].
    rewrite (Hw name (Some "dict") [] eq_refl). cbn [bind]. now eexists. }
  intros self self' items x Hin. unfold fromDict.
  destruct (self_group self) as [g0|e] eqn:Hg; simpl; [|discriminate].
  destruct (insert_items track_order
              (fun child y => recursiveInsert track_order child y) items
              (set_attr_type "dict" g0)) as [g'|e] eqn:Hi; simpl; [|discriminate].
  intros [= <-].
  destruct (insert_items_kept _ _ _ _ _ Hi _ _ Hin)
    as (name' & ty & links & links' & Hname & Heq & -> & Hl).
  injection Hname as <-. change (lookup name links' <> None) in Hl.
  assert (Hty : ty = Some "dict")
    by (destruct g0; simpl in Heq; [now injection Heq | discriminate Heq]).
  subst ty.
  pose proof (self_group_with_group self g0 (Group (Some "dict") links') Hg) as Hg'.
  split.
  - exists (Group (Some "dict") links').
    destruct (lookup name links') as [child|] eqn:E; [|congruence].
    exists child. split; [exact Hg'|]. simpl. now rewrite E.
  - unfold toDict. rewrite Hg'. unfold out_lift. rewrite out_bind_ok.
    rewrite recursiveFetch_group. simpl.
    destruct (fetch_items_bad_name (torchDevice (with_group self (Group (Some "dict") links')))
                (recursiveFetch (torchDevice (with_group self (Group (Some "dict") links'))))
                links' name Hl Hdec []) as [e He].
    destruct (fetch_items _ _ links' []) as [w [t|e']]; simpl in *; [discriminate|].
    now exists e'.
Qed.

Lemma bool_key_encodes_but_does_not_decode_witness :
  exists self',
    fromDict false (new_file "cpu") (VDict [(KBool true, VInt 1)]) = Ok self'
    /\ (exists g child, self_group self' = Ok g /\ getitem "__int__True" g = Ok child)
    /\ raises (snd (toDict self')).
Proof.
  eexists. split; [reflexivity|].
  apply (proj2 (proj2 (proj2 (bool_key_encodes_but_does_not_decode false true)))
           (new_file "cpu") _ [(KBool true, VInt 1)] (VInt 1)).
  - now left.
  - reflexivity.
Defined.


(* ================================================================== *)
(** ** Encoding twice and deleting upward, in general *)
(* ================================================================== *)

(** Whenever [fromDict] of a dict whose first item holds a leaf has
    returned, [fromDict] of the same dict into the same group raises. *)
Lemma second_fromDict_of_leaf_raises
    (track_order : bool) (self self' : DictStorage)
    (k : key) (x : value) (items : list (key * value)) :
  is_container x = false ->
  fromDict track_order self (VDict ((k, x) :: items)) = Ok self' ->
  fromDict track_order self' (VDict ((k, x) :: items))
  = Raise (ValueError "Unable to create dataset (name already exists)").
Proof.
  intros Hleaf. unfold fromDict.
  destruct (self_group self) as [g0|e] eqn:Hg; [|discriminate].
  cbn [bind isinstance_dict recursiveInsert].
  destruct (insert_items track_order
              (fun child y => recursiveInsert track_order child y)
              ((k, x) :: items) (set_attr_type "dict" g0)) as [g'|e] eqn:Hi;
    [|discriminate].
  cbn [bind]. intros [= <-].
  destruct (insert_items_kept _ _ _ _ _ Hi k x (or_introl eq_refl))
    as (name & ty & links & links' & Hname & _ & -> & Hl).
  rewrite (self_group_with_group self g0 _ Hg).
  cbn [bind set_attr_type insert_items]. rewrite Hname. cbn [bind].
  cbn [insert_items] in Hi. rewrite Hname in Hi. cbn [bind] in Hi.
  destruct (insert_child track_order
              (fun child y => recursiveInsert track_order child y)
              name x (set_attr_type "dict" g0)) as [g1|e] eqn:Hc; [|discriminate Hi].
  destruct (insert_child_leaf_accepted _ _ _ _ _ _ Hleaf Hc)
    as (outData & outDType & Hp & Ha).
  unfold h5_accepts in Ha. apply andb_true_iff in Ha. destruct Ha as [Ht _].
  destruct (lookup name links') as [old|] eqn:E; [|congruence].
  now rewrite (insert_child_leaf_taken _ _ _ _ _ _ old outData outDType Hleaf Hp Ht E).
Qed.

(** Whenever [delete] returns, the file it leaves is the one it leaves
    without [recursive]: no group is removed on the way up. *)
Lemma recursive_delete_removes_one_node
    (self self' : DictStorage) (keys : list string) :
  delete self keys true = Some (Ok self') ->
  delete self keys false = Some (Ok self').
Proof.
  unfold delete.
  destruct (split_last keys) as [[init last]|]; [|discriminate].
  destruct (position <- self_group self ;;
            position <- walk init position ;;
            present <- contains last position ;;
            if present then delitem last position
            else Raise (KeyError "Key not found")) as [position'|e];
    [|discriminate].
  cbn [file]. now destruct (while_childless _ _).
Qed.

(* ================================================================== *)
(** * Further properties of the code *)
(* ================================================================== *)

(* ================================================================== *)
(** ** Names of keys *)
(* ================================================================== *)

Lemma encodeKey_text_name (s n : string) :
  encodeKey (KStr s) = Ok n ->
  startswith n "__int__" = false
  /\ ((s = "" /\ n = "__emptyString__")
      \/ (s <> "" /\ n = s /\ String.eqb s "__emptyString__" = false)).
Proof.
  unfold encodeKey. simpl.
  destruct (startswith s "__int__") eqn:Hp; [discriminate|].
  destruct (String.eqb s "__emptyString__") eqn:He; [discriminate|].
  destruct (String.eqb s "") eqn:H0.
  - apply String.eqb_eq in H0. subst s. intros [= <-]. split; [reflexivity | now left].
  - apply String.eqb_neq in H0. intros [= <-]. split; [exact Hp | now right].
Qed.

Lemma str_int_not_bool (z : Z) (b : bool) : str_int z <> str_bool b.
Proof.
  intros E. pose proof (int_of_str_str_int z) as H. rewrite E in H.
  destruct b; discriminate H.
Qed.

Lemma encodeKey_int_like_name (k : key) (n : string) :
  key_isinstance_int k = true -> encodeKey k = Ok n ->
  startswith n "__int__" = true /\ n = ("__int__" ++ str_key k)%string.
Proof.
  unfold encodeKey. intros ->. intros [= <-].
  split; [apply (startswith_app "__int__" (str_key k)) | reflexivity].
Qed.

(** X1.  No two keys share a name: keys that [recursiveInsert] stores
    under the same name are the same key. *)
Theorem encodeKey_injective (k k' : key) (n : string) :
  encodeKey k = Ok n -> encodeKey k' = Ok n -> k = k'.
Proof.
  intros H H'.
  destruct k as [s|z|b|r], k' as [s'|z'|b'|r'];
    try discriminate H; try discriminate H'.
  - destruct (encodeKey_text_name _ _ H) as (_ & [[-> ->] | (Hs & -> & He)]);
      destruct (encodeKey_text_name _ _ H') as (_ & [[-> E] | (Hs' & E & He')]).
    + reflexivity.
    + subst s'. discriminate He'.
    + subst s. discriminate He.
    + now subst s'.
  - destruct (encodeKey_text_name _ _ H) as (Hp & _).
    apply encodeKey_int_like_name in H' as (Hp' & _); [congruence | reflexivity].
  - destruct (encodeKey_text_name _ _ H) as (Hp & _).
    apply encodeKey_int_like_name in H' as (Hp' & _); [congruence | reflexivity].
  - destruct (encodeKey_text_name _ _ H') as (Hp & _).
    apply encodeKey_int_like_name in H as (Hp' & _); [congruence | reflexivity].
  - injection H as <-. injection H' as E. now apply str_int_inj in E; subst.
  - injection H as <-. injection H' as E. simpl in E.
    symmetry in E. now apply str_int_not_bool in E.
  - destruct (encodeKey_text_name _ _ H') as (Hp & _).
    apply encodeKey_int_like_name in H as (Hp' & _); [congruence | reflexivity].
  - injection H as <-. injection H' as E. simpl in E.
    now apply str_int_not_bool in E.
  - injection H as <-. injection H' as E. simpl in E.
    destruct b, b'; try reflexivity; discriminate E.
Qed.

Lemma encodeKey_injective_witness :
  encodeKey (KInt 7) = Ok "__int__7" /\ KInt 7 = KInt 7.
Proof.
  split; [reflexivity|].
  apply (encodeKey_injective (KInt 7) (KInt 7) "__int__7"); reflexivity.
Defined.

(* ================================================================== *)
(** ** Leaves: there and back *)
(* ================================================================== *)

(** X2.  Every leaf that numpy and h5py take ([stored_leaf]: None, a
    boolean, a float, an integer from -2^63 up to 2^64 - 1, a string
    without NUL, a dense tensor that requires no gradient and has an
    element type of numpy) is packed into data h5py accepts, and [unpack]
    gives it back from the dataset so tagged, without a warning; a tensor
    comes back on [torchDevice], whatever device it was on. *)
Theorem leaf_pack_unpack (torchDevice : string) (x : value) :
  stored_leaf x = true ->
  exists p tag,
    pack x = Ok (p, tag)
    /\ h5_accepts p = true
    /\ unpack torchDevice (Dataset (Some tag) p) = ([], Ok (to_device torchDevice x)).
Proof.
  intros H. destruct (stored_leaf_pack x H) as (p & tag & Hp & Ha & Hu).
  exists p, tag. split; [exact Hp | split; [exact Ha | apply Hu]].
Qed.

Lemma leaf_pack_unpack_witness :
  let a := mk_ndarray "float32" [2%nat] [SFloat S754_nan; SFloat (S754_zero false)] in
  exists p tag,
    pack (VTensor (mk_tensor "cuda:0" "torch.strided" false false false a)) = Ok (p, tag)
    /\ h5_accepts p = true
    /\ unpack "cpu" (Dataset (Some tag) p)
       = ([], Ok (VTensor (mk_tensor "cpu" "torch.strided" false false false a))).
Proof.
  intros a.
  apply (leaf_pack_unpack "cpu"
           (VTensor (mk_tensor "cuda:0" "torch.strided" false false false a))).
  reflexivity.
Defined.

(* ================================================================== *)
(** ** __init__ *)
(* ================================================================== *)

Lemma relink_same (name : string) (n : node) (links : list (string * node)) :
  lookup name links = Some n -> relink name n links = links.
Proof.
  induction links as [|[name1 n1] links IH]; simpl; [reflexivity|].
  destruct (String.eqb name name1) eqn:E.
  - intros [= ->]. reflexivity.
  - intros H. now rewrite IH.
Qed.

Lemma open_groups_existing (track_order : bool) (groups : list string) (file g : node) :
  resolve groups file = Ok g ->
  open_groups track_order groups file = Ok file.
Proof.
  revert file. induction groups as [|i groups IH]; intros file; simpl; [reflexivity|].
  destruct file as [ty links | ty p]; simpl; [|discriminate].
  destruct (lookup i links) as [child|] eqn:Hl; simpl; [|discriminate].
  intros H. rewrite Hl. simpl. rewrite (IH _ H). simpl.
  now rewrite (relink_same _ _ _ Hl).
Qed.

Lemma open_groups_resolve (track_order : bool) (groups : list string) (file file' : node) :
  open_groups track_order groups file = Ok file' ->
  exists g, resolve groups file' = Ok g.
Proof.
  revert file file'. induction groups as [|i groups IH]; intros file file'; simpl.
  - intros [= <-]. now exists file.
  - destruct (contains i file) as [present|e]; simpl; [|discriminate].
    destruct (if present then Ok file else create_group track_order i file)
      as [position1|e]; simpl; [|discriminate].
    destruct (getitem i position1) as [child|e] eqn:Hg; simpl; [|discriminate].
    destruct (open_groups track_order groups child) as [child'|e] eqn:Ho; simpl;
      [|discriminate].
    intros [= <-].
    destruct position1 as [ty links | ty p]; simpl in Hg; [|discriminate].
    destruct (lookup i links) as [c|] eqn:Hl; [|discriminate].
    simpl. rewrite (lookup_relink_same _ _ _ _ Hl). simpl.
    now apply (IH child).
Qed.

(** X3.  Opening a storage at a place that exists in the file changes
    nothing in the file. *)
Theorem init_at_existing_place
    (track_order : bool) (file g : node) (groups : list string) (torchDevice : string) :
  resolve groups file = Ok g ->
  init track_order file groups torchDevice
  = Ok (mk_DictStorage file groups torchDevice).
Proof.
  intros H. unfold init. now rewrite (open_groups_existing _ _ _ _ H).
Qed.

Lemma init_at_existing_place_witness :
  let file := Group None [("model", Group (Some "dict") [])] in
  init false file ["model"] "cpu" = Ok (mk_DictStorage file ["model"] "cpu").
Proof.
  intros file.
  apply (init_at_existing_place false file (Group (Some "dict") []) ["model"] "cpu").
  reflexivity.
Defined.

(** X4.  When [__init__] returns, [self.group] is a node of the file: the
    groups on the way to it have been created where they were missing. *)
Theorem init_makes_the_place
    (track_order : bool) (file : node) (groups : list string) (torchDevice : string)
    (self : DictStorage) :
  init track_order file groups torchDevice = Ok self ->
  group self = groups /\ exists g, self_group self = Ok g.
Proof.
  unfold init.
  destruct (open_groups track_order groups file) as [file'|e] eqn:Ho; simpl; [|discriminate].
  intros [= <-]. split; [reflexivity|].
  unfold self_group. simpl. now apply (open_groups_resolve _ _ _ _ Ho).
Qed.

Lemma init_makes_the_place_witness :
  exists self,
    init false (Group None []) ["a"; "b"] "cpu" = Ok self
    /\ group self = ["a"; "b"] /\ exists g, self_group self = Ok g.
Proof.
  eexists. split; [reflexivity|].
  apply (init_makes_the_place false (Group None []) ["a"; "b"] "cpu"). reflexivity.
Defined.

(* ================================================================== *)
(** ** insert and fetch *)
(* ================================================================== *)

Lemma lookup_unlink_other (name n : string) (links : list (string * node)) :
  n <> name -> lookup n (unlink name links) = lookup n links.
Proof.
  intros Hne. unfold unlink.
  induction links as [|[name1 n1] links IH]; simpl; [reflexivity|].
  destruct (String.eqb name name1) eqn:E; simpl.
  - apply String.eqb_eq in E. subst name1.
    apply String.eqb_neq in Hne. now rewrite Hne.
  - now rewrite IH.
Qed.


Section InsertFacts.

Variable track_order : bool.

(** The last step of [insert] on a group: the dataset replaces the link
    of its name. *)
Lemma insert_at_last (last : string) (value : payload) (position position' : node) :
  insert_at track_order [] last value position = Ok position' ->
  exists ty links,
    position = Group ty links
    /\ h5_accepts value = true
    /\ position' = Group ty (add_link track_order last (Dataset None value)
                              (unlink last links)).
Proof.
  destruct position as [ty links | ty p]; intros H.
  - exists ty, links. split; [reflexivity|].
    assert (Hu : lookup last links = None -> unlink last links = links).
    { clear H. unfold unlink.
      induction links as [|[n1 c1] links IH]; simpl; [reflexivity|].
      destruct (String.eqb last n1); [discriminate|]. simpl.
      intros Hn. now rewrite IH. }
    cbn [insert_at contains bind] in H.
    destruct (lookup last links) as [old|] eqn:Hl; cbn [bind delitem] in H.
    + rewrite Hl in H. cbn [bind] in H.
      destruct (create_dataset_inv _ _ _ _ _ H) as (ty1 & links1 & [= <- <-] & Ha & _ & ->).
      now split.
    + destruct (create_dataset_inv _ _ _ _ _ H) as (ty1 & links1 & [= <- <-] & Ha & _ & ->).
      rewrite Hu by reflexivity. now split.
  - exfalso. cbn [insert_at] in H.
    destruct (contains_dataset last ty p) as [Hc | [e Hc]]; rewrite Hc in H;
      simpl in H; discriminate.
Qed.

(** A step of [insert] through the group [i]. *)
Lemma insert_at_step (i : string) (keys : list string) (last : string)
    (value : payload) (position position' : node) :
  insert_at track_order (i :: keys) last value position = Ok position' ->
  exists ty links links1 child child',
    position = Group ty links
    /\ (links1 = links
        \/ (lookup i links = None
            /\ links1 = add_link track_order i (Group None []) links))
    /\ lookup i links1 = Some child
    /\ insert_at track_order keys last value child = Ok child'
    /\ position' = Group ty (relink i child' links1).
Proof.
  simpl. destruct position as [ty links | ty p].
  - simpl. intros H. exists ty, links.
    destruct (lookup i links) as [old|] eqn:Hl; simpl in H.
    + rewrite Hl in H. simpl in H.
      destruct (insert_at track_order keys last value old) as [child'|e] eqn:Hi;
        simpl in H; [|discriminate].
      exists links, old, child'. injection H as <-. repeat split; auto.
    + rewrite (lookup_add_link_same _ _ _ _ Hl) in H. simpl in H.
      destruct (insert_at track_order keys last value (Group None [])) as [child'|e] eqn:Hi;
        simpl in H; [|discriminate].
      exists (add_link track_order i (Group None []) links), (Group None []), child'.
      injection H as <-. repeat split; auto.
      now apply lookup_add_link_same.
  - intros H. exfalso.
    destruct (contains_dataset i ty p) as [Hc | [e Hc]]; rewrite Hc in H;
      simpl in H; discriminate.
Qed.

Lemma insert_at_walk (keys : list string) (last : string) (value : payload)
    (position position' : node) :
  insert_at track_order keys last value position = Ok position' ->
  walk (keys ++ [last]) position' = Ok (Dataset None value).
Proof.
  revert position position'. induction keys as [|i keys IH]; intros position position' H.
  - destruct (insert_at_last _ _ _ _ H) as (ty & links & -> & _ & ->).
    simpl. rewrite lookup_add_link_same by apply lookup_unlink_same. reflexivity.
  - destruct (insert_at_step _ _ _ _ _ _ H)
      as (ty & links & links1 & child & child' & -> & _ & Hl & Hi & ->).
    simpl. rewrite (lookup_relink_same _ _ _ _ Hl). simpl.
    now apply (IH child).
Qed.

(** What [insert] has stored is data h5py accepts. *)
Lemma insert_at_accepted (keys : list string) (last : string) (value : payload)
    (position position' : node) :
  insert_at track_order keys last value position = Ok position' ->
  h5_accepts value = true.
Proof.
  revert position position'. induction keys as [|i keys IH]; intros position position' H.
  - now destruct (insert_at_last _ _ _ _ H) as (ty & links & _ & Ha & _).
  - destruct (insert_at_step _ _ _ _ _ _ H)
      as (ty & links & links1 & child & child' & _ & _ & _ & Hi & _).
    now apply (IH _ _ Hi).
Qed.

Lemma insert_at_again (keys : list string) (last : string) (value value' : payload)
    (position position' : node) :
  insert_at track_order keys last value position = Ok position' ->
  h5_accepts value' = true ->
  exists position'', insert_at track_order keys last value' position' = Ok position''.
Proof.
  revert position position'. induction keys as [|i keys IH];
    intros position position' H Ha'.
  - destruct (insert_at_last _ _ _ _ H) as (ty & links & -> & _ & ->).
    cbn [insert_at contains bind].
    rewrite lookup_add_link_same by apply lookup_unlink_same.
    cbn [bind delitem].
    rewrite lookup_add_link_same by apply lookup_unlink_same. cbn [bind].
    rewrite (create_dataset_fresh _ _ _ _ _ Ha' (lookup_unlink_same _ _)).
    now eexists.
  - destruct (insert_at_step _ _ _ _ _ _ H)
      as (ty & links & links1 & child & child' & -> & _ & Hl & Hi & ->).
    destruct (IH _ _ Hi Ha') as (child'' & Hi').
    simpl. rewrite (lookup_relink_same _ _ _ _ Hl). simpl.
    rewrite ?(lookup_relink_same _ _ _ _ Hl). simpl.
    rewrite Hi'. simpl. now eexists.
Qed.

(** What [insert] leaves alone: a walk that does not go through the
    place written ends where it ended before. *)
Lemma insert_at_frame (keys : list string) (last : string) (value : payload)
    (position position' : node) :
  insert_at track_order keys last value position = Ok position' ->
  forall keys' ty p,
    walk keys' position = Ok (Dataset ty p) ->
    (forall rest, keys' <> (keys ++ [last]) ++ rest) ->
    walk keys' position' = Ok (Dataset ty p).
Proof.
  revert position position'. induction keys as [|i keys IH];
    intros position position' H keys' ty0 p Hw Hnp.
  - destruct (insert_at_last _ _ _ _ H) as (ty & links & -> & _ & ->).
    destruct keys' as [|k rest]; [discriminate Hw|].
    assert (Hk : k <> last) by (intros ->; now apply (Hnp rest)).
    simpl in *. rewrite lookup_add_link_other by exact Hk.
    now rewrite lookup_unlink_other by exact Hk.
  - destruct (insert_at_step _ _ _ _ _ _ H)
      as (ty & links & links1 & child & child' & -> & Hl1 & Hl & Hi & ->).
    destruct keys' as [|k rest]; [discriminate Hw|].
    simpl in Hw |- *.
    destruct (string_dec k i) as [-> | Hk].
    + rewrite (lookup_relink_same _ _ _ _ Hl). simpl.
      destruct (lookup i links) as [old|] eqn:Ho; simpl in Hw; [|discriminate].
      assert (old = child).
      { destruct Hl1 as [-> | [Hnone _]]; congruence. }
      subst old. apply (IH _ _ Hi); [exact Hw|].
      intros rest' E. apply (Hnp rest'). simpl. now rewrite E.
    + rewrite lookup_relink_other by exact Hk.
      destruct Hl1 as [-> | [_ ->]]; [exact Hw|].
      now rewrite lookup_add_link_other by exact Hk.
Qed.

End InsertFacts.

(** X5.  What [insert] has written, [fetch] reads: after an [insert] that
    returned, [fetch] of the same keys is the value inserted. *)
Theorem insert_then_fetch
    (track_order : bool) (self self' : DictStorage) (keys : list string)
    (value : payload) :
  insert track_order self keys value = Ok self' ->
  fetch self' keys = Ok value.
Proof.
  unfold insert.
  destruct (split_last keys) as [[init last]|] eqn:Hs; [|discriminate].
  apply split_last_app in Hs. subst keys.
  destruct (self_group self) as [g|e] eqn:Hg; simpl; [|discriminate].
  destruct (insert_at track_order init last value g) as [g'|e] eqn:Hi; simpl; [|discriminate].
  intros [= <-]. unfold fetch.
  rewrite (self_group_with_group self g g' Hg). simpl.
  now rewrite (insert_at_walk _ _ _ _ _ _ Hi).
Qed.

Lemma insert_then_fetch_witness :
  exists self',
    insert false (new_file "cpu") ["layer"; "bias"] (PArray (np_array_int 3)) = Ok self'
    /\ fetch self' ["layer"; "bias"] = Ok (PArray (np_array_int 3)).
Proof.
  eexists. split; [reflexivity|].
  apply (insert_then_fetch false (new_file "cpu") _ ["layer"; "bias"]). reflexivity.
Defined.

(** X6.  [insert] overwrites: after an [insert] that returned, a second
    [insert] under the same keys, of data h5py accepts, returns too, and
    [fetch] then reads the second value; of data h5py refuses (an array
    of objects, a string with a NUL) it raises. *)
Theorem insert_overwrites
    (track_order : bool) (self self' : DictStorage) (keys : list string)
    (value value' : payload) :
  insert track_order self keys value = Ok self' ->
  (h5_accepts value' = true ->
   exists self'',
     insert track_order self' keys value' = Ok self''
     /\ fetch self'' keys = Ok value')
  /\ (h5_refuses value' = true -> raises (insert track_order self' keys value')).
Proof.
  unfold insert.
  destruct (split_last keys) as [[init last]|] eqn:Hs; [|discriminate].
  apply split_last_app in Hs. subst keys.
  destruct (self_group self) as [g|e] eqn:Hg; simpl; [|discriminate].
  destruct (insert_at track_order init last value g) as [g'|e] eqn:Hi; simpl; [|discriminate].
  intros [= <-].
  pose proof (self_group_with_group self g g' Hg) as Hg'.
  split; intros Ha'.
  - destruct (insert_at_again _ _ _ _ value' _ _ Hi Ha') as (g'' & Hi').
    rewrite Hg'. simpl. rewrite Hi'. simpl.
    eexists. split; [reflexivity|].
    unfold fetch. rewrite (self_group_with_group _ g' g'' Hg'). simpl.
    now rewrite (insert_at_walk _ _ _ _ _ _ Hi').
  - rewrite Hg'. simpl.
    destruct (insert_at track_order init last value' g') as [g''|e] eqn:Hi'; simpl;
      [|now exists e].
    apply insert_at_accepted in Hi'.
    apply h5_refuses_not_accepted in Ha'. congruence.
Qed.

Lemma insert_overwrites_witness :
  exists self' self'',
    insert false (new_file "cpu") ["a"] (PArray (np_array_int 5)) = Ok self'
    /\ insert false self' ["a"] (PBytes "six") = Ok self''
    /\ fetch self'' ["a"] = Ok (PBytes "six")
    /\ raises (insert false self' ["a"] (PArray (np_array_int (2 ^ 64)))).
Proof.
  eexists.
  destruct (insert_overwrites false (new_file "cpu") _ ["a"]
              (PArray (np_array_int 5)) (PBytes "six") eq_refl) as [Hyes _].
  destruct (Hyes eq_refl) as (self'' & H1 & H2).
  exists self''. split; [reflexivity | split; [exact H1 | split; [exact H2|]]].
  apply (proj2 (insert_overwrites false (new_file "cpu") _ ["a"]
                  (PArray (np_array_int 5)) (PArray (np_array_int (2 ^ 64))) eq_refl)).
  reflexivity.
Defined.

(** X7.  [insert] leaves the other datasets alone: with keys that are
    link names, what [fetch] read under keys that do not start with the
    keys inserted, it reads after the [insert] too. *)
Theorem insert_keeps_other_datasets
    (track_order : bool) (self self' : DictStorage) (keys keys' : list string)
    (value p : payload) :
  Forall (fun k => link_name k = true) keys ->
  Forall (fun k => link_name k = true) keys' ->
  insert track_order self keys value = Ok self' ->
  fetch self keys' = Ok p ->
  (forall rest, keys' <> keys ++ rest) ->
  fetch self' keys' = Ok p.
Proof.
  intros _ _. unfold insert.
  destruct (split_last keys) as [[init last]|] eqn:Hs; [|discriminate].
  apply split_last_app in Hs. subst keys.
  destruct (self_group self) as [g|e] eqn:Hg; simpl; [|discriminate].
  destruct (insert_at track_order init last value g) as [g'|e] eqn:Hi; simpl; [|discriminate].
  intros [= <-]. unfold fetch. rewrite Hg.
  rewrite (self_group_with_group self g g' Hg). simpl.
  destruct (walk keys' g) as [[ty links | ty q]|e] eqn:Hw; simpl; try discriminate.
  intros [= ->] Hnp.
  now rewrite (insert_at_frame _ _ _ _ _ _ Hi keys' ty p Hw Hnp).
Qed.

Lemma insert_keeps_other_datasets_witness :
  let self := mk_DictStorage
                (Group None [("a", Group None [("w", Dataset None (PBytes "old"))])])
                [] "cpu" in
  exists self',
    insert false self ["a"; "b"] (PBytes "new") = Ok self'
    /\ fetch self' ["a"; "w"] = Ok (PBytes "old").
Proof.
  intros self. eexists. split; [reflexivity|].
  apply (insert_keeps_other_datasets false self _ ["a"; "b"] ["a"; "w"] (PBytes "new")).
  - repeat constructor.
  - repeat constructor.
  - reflexivity.
  - reflexivity.
  - intros rest E. discriminate E.
Defined.

(* ================================================================== *)
(** ** delete and the rest of the file *)
(* ================================================================== *)

Lemma delete_walk_frame (init : list string) (last : string) (g : node)
    (ty : option string) (links : list (string * node)) :
  walk init g = Ok (Group ty links) ->
  forall keys',
    (forall rest, keys' <> (init ++ [last]) ++ rest) ->
    (position <- walk keys' (update init (Group ty (unlink last links)) g) ;; read position)
    = (position <- walk keys' g ;; read position).
Proof.
  revert g. induction init as [|i init IH]; intros g Hw keys' Hnp.
  - simpl in Hw. injection Hw as ->. simpl update.
    destruct keys' as [|k rest]; [reflexivity|].
    assert (Hk : k <> last) by (intros ->; now apply (Hnp rest)).
    simpl. now rewrite lookup_unlink_other by exact Hk.
  - simpl in Hw.
    destruct (contains i g) as [[|]|e] eqn:Hc; simpl in Hw; try discriminate.
    destruct (getitem i g) as [child|e] eqn:Hg; simpl in Hw; [|discriminate].
    destruct (walk_step _ _ _ Hc Hg) as (tyg & linksg & -> & Hl).
    simpl update. rewrite Hl.
    destruct keys' as [|k rest]; [reflexivity|].
    simpl walk. cbn [contains getitem].
    destruct (string_dec k i) as [-> | Hk].
    + rewrite (lookup_relink_same _ _ _ _ Hl), Hl. cbn [bind].
      apply (IH child Hw).
      intros rest' E. apply (Hnp rest'). simpl. now rewrite E.
    + now rewrite lookup_relink_other by exact Hk.
Qed.

(** X8.  [delete] leaves the rest of the file alone: with keys that are
    link names, after a [delete] that returned, [fetch] under keys that do
    not start with the keys deleted gives what it gave before, value or
    exception. *)
Theorem delete_keeps_other_paths
    (self self' : DictStorage) (keys keys' : list string) (recursive : bool) :
  Forall (fun k => link_name k = true) keys ->
  Forall (fun k => link_name k = true) keys' ->
  delete self keys recursive = Some (Ok self') ->
  (forall rest, keys' <> keys ++ rest) ->
  fetch self' keys' = fetch self keys'.
Proof.
  intros _ _. unfold delete.
  destruct (split_last keys) as [[init last]|] eqn:Hs; [|discriminate].
  apply split_last_app in Hs. subst keys.
  destruct (self_group self) as [g|e] eqn:Hg; simpl; [|discriminate].
  destruct (walk init g) as [position|e] eqn:Hw; simpl; [|discriminate].
  destruct (contains last position) as [[|]|e] eqn:Hc; simpl; try discriminate.
  destruct (delitem last position) as [position'|e] eqn:Hd; simpl; [|discriminate].
  intros H Hnp.
  assert (Hself : self' = mk_DictStorage
                    (update (group self ++ init) position' (file self))
                    (group self) (torchDevice self)).
  { destruct recursive; [|now injection H].
    destruct (while_childless _ _); [now injection H | discriminate]. }
  clear H. subst self'.
  destruct position as [ty links | ty p]; simpl in Hd; [|discriminate].
  destruct (lookup last links); [|discriminate]. injection Hd as <-.
  unfold fetch. rewrite Hg. unfold self_group. simpl.
  unfold self_group in Hg. rewrite (resolve_update_app _ _ _ _ _ Hg). simpl.
  now apply delete_walk_frame.
Qed.

Lemma delete_keeps_other_paths_witness :
  let self := mk_DictStorage
                (Group None [("a", Dataset None (PBytes "x"));
                             ("b", Dataset None (PBytes "y"))]) [] "cpu" in
  exists self',
    delete self ["a"] false = Some (Ok self')
    /\ fetch self' ["b"] = fetch self ["b"].
Proof.
  intros self. eexists. split; [reflexivity|].
  apply (delete_keeps_other_paths self _ ["a"] ["b"] false).
  - repeat constructor.
  - repeat constructor.
  - reflexivity.
  - intros rest E. discriminate E.
Defined.




Lemma delete_walk_gone (init : list string) (last : string) (g : node)
    (ty : option string) (links : list (string * node)) :
  walk init g = Ok (Group ty links) ->
  forall rest,
    walk ((init ++ [last]) ++ rest) (update init (Group ty (unlink last links)) g)
    = Raise (KeyError "Key not found").
Proof.
  revert g. induction init as [|i init IH]; intros g Hw rest.
  - simpl in Hw. injection Hw as ->. simpl.
    now rewrite lookup_unlink_same.
  - simpl in Hw.
    destruct (contains i g) as [[|]|e] eqn:Hc; simpl in Hw; try discriminate.
    destruct (getitem i g) as [child|e] eqn:Hg; simpl in Hw; [|discriminate].
    destruct (walk_step _ _ _ Hc Hg) as (tyg & linksg & -> & Hl).
    simpl update. rewrite Hl.
    simpl app. simpl walk. cbn [contains getitem].
    rewrite (lookup_relink_same _ _ _ _ Hl). cbn [bind].
    apply (IH child Hw).
Qed.

(** X10.  What [delete] has removed, [fetch] no longer finds: after a
    [delete] that returned, [fetch] under the keys deleted, and under any
    keys that start with them, raises KeyError("Key not found"). *)
Theorem delete_then_fetch_raises
    (self self' : DictStorage) (keys rest : list string) (recursive : bool) :
  delete self keys recursive = Some (Ok self') ->
  fetch self' (keys ++ rest) = Raise (KeyError "Key not found").
Proof.
  unfold delete.
  destruct (split_last keys) as [[init last]|] eqn:Hs; [|discriminate].
  apply split_last_app in Hs. subst keys.
  destruct (self_group self) as [g|e] eqn:Hg; simpl; [|discriminate].
  destruct (walk init g) as [position|e] eqn:Hw; simpl; [|discriminate].
  destruct (contains last position) as [[|]|e] eqn:Hc; simpl; try discriminate.
  destruct (delitem last position) as [position'|e] eqn:Hd; simpl; [|discriminate].
  intros H.
  assert (Hself : self' = mk_DictStorage
                    (update (group self ++ init) position' (file self))
                    (group self) (torchDevice self)).
  { destruct recursive; [|now injection H].
    destruct (while_childless _ _); [now injection H | discriminate]. }
  clear H. subst self'.
  destruct position as [ty links | ty p]; simpl in Hd; [|discriminate].
  destruct (lookup last links); [|discriminate]. injection Hd as <-.
  unfold fetch, self_group. simpl.
  unfold self_group in Hg. rewrite (resolve_update_app _ _ _ _ _ Hg). simpl.
  now rewrite (delete_walk_gone init last g ty links Hw rest).
Qed.

Lemma delete_then_fetch_raises_witness :
  let leaf := Dataset None (PBytes "x") in
  let self := mk_DictStorage
                (Group None [("A", Group None [("B", leaf); ("C", leaf)])]) [] "cpu" in
  fetch self ["A"; "B"] = Ok (PBytes "x")
  /\ exists self',
       delete self ["A"; "B"] true = Some (Ok self')
       /\ fetch self' (["A"; "B"] ++ []) = Raise (KeyError "Key not found").
Proof.
  intros leaf self. split; [reflexivity|].
  eexists. split; [reflexivity|].
  apply (delete_then_fetch_raises self _ ["A"; "B"] [] true).
  reflexivity.
Defined.

(* ================================================================== *)
(** ** One step of the encoder on a group *)
(* ================================================================== *)

Section Steps.

Variable track_order : bool.

(** What the step that stores [x] under [name] does to a group, when it
    returns: under a free name it adds one link, to a packed dataset for a
    leaf and to a new, tagged and filled group for a container; under a
    name in use, which only a container gets past, it fills the node that
    is there. *)
Lemma insert_child_shape (rec : node -> value -> result node)
    (name : string) (x : value) (ty : option string)
    (links : list (string * node)) (position' : node) :
  insert_child track_order rec name x (Group ty links) = Ok position' ->
  (lookup name links = None
   /\ exists c,
       position' = Group ty (add_link track_order name c links)
       /\ ((is_container x = false
            /\ exists p tag, pack x = Ok (p, tag) /\ c = Dataset (Some tag) p)
           \/ (is_container x = true
               /\ rec (Group (Some (tag_of x)) []) x = Ok c)))
  \/ (exists old child',
        lookup name links = Some old /\ is_container x = true
        /\ rec old x = Ok child'
        /\ position' = Group ty (relink name child' links)).
Proof.
  intros H.
  assert (Hgroup : forall tag,
             insert_group track_order rec name tag x (Group ty links) = Ok position' ->
             (lookup name links = None
              /\ exists c, position' = Group ty (add_link track_order name c links)
                           /\ rec (Group (Some tag) []) x = Ok c)
             \/ (exists old child',
                   lookup name links = Some old /\ rec old x = Ok child'
                   /\ position' = Group ty (relink name child' links))).
  { clear H. intros tag H. unfold insert_group in H. simpl in H.
    destruct (lookup name links) as [old|] eqn:Hl; simpl in H.
    - rewrite Hl in H. simpl in H.
      destruct (rec old x) as [child'|e] eqn:Hr; simpl in H; [|discriminate].
      injection H as <-. right. now exists old, child'.
    - unfold set_type in H. simpl in H.
      rewrite (lookup_add_link_same _ _ _ _ Hl) in H. simpl in H.
      rewrite (relink_add_link _ _ _ _ _ Hl) in H.
      rewrite (lookup_add_link_same _ _ _ _ Hl) in H. simpl in H.
      destruct (rec (Group (Some tag) []) x) as [child'|e] eqn:Hr; simpl in H; [|discriminate].
      injection H as <-. rewrite (relink_add_link _ _ _ _ _ Hl).
      left. split; [reflexivity|]. now exists child'. }
  unfold insert_child in H.
  destruct x as [ | b | z | f | s | t | items | l | l | p | r ];
    cbn [isinstance_dict isinstance_list isinstance_tuple] in H;
    try (destruct (Hgroup _ H) as [(Hl & c & Hp & Hr) | (old & child' & Hl & Hr & Hp)];
         [left; split; [exact Hl|]; exists c; split; [exact Hp|]; right; now split
         | right; exists old, child'; now repeat split]).
  all: destruct (pack _) as [[outData outDType]|e] eqn:Hpack; cbn [bind] in H;
    [|discriminate];
    destruct (create_dataset track_order name outData (Group ty links))
      as [position1|e] eqn:Hcd; cbn [bind] in H; [|discriminate];
    destruct (create_dataset_inv _ _ _ _ _ Hcd) as (ty1 & links1 & [= <- <-] & _ & Hl & ->);
    unfold set_type in H; simpl in H;
    rewrite (lookup_add_link_same _ _ _ _ Hl) in H; simpl in H;
    injection H as <-; rewrite (relink_add_link _ _ _ _ _ Hl);
    left; split; [exact Hl|]; eexists; split; [reflexivity|];
    left; split; [reflexivity|]; now exists outData, outDType.
Qed.

(** The links of other names are as they were. *)
Lemma insert_child_other (rec : node -> value -> result node)
    (name n : string) (x : value) (ty : option string)
    (links links' : list (string * node)) :
  insert_child track_order rec name x (Group ty links) = Ok (Group ty links') ->
  n <> name ->
  lookup n links' = lookup n links.
Proof.
  intros H Hne.
  destruct (insert_child_shape _ _ _ _ _ _ H)
    as [(_ & c & [= ->] & _) | (old & child' & _ & _ & _ & [= ->])].
  - now apply lookup_add_link_other.
  - now apply lookup_relink_other.
Qed.

(** Into a dataset [recursiveInsert] writes nothing. *)
Lemma recursiveInsert_dataset (a : option string) (p : payload) (y : value) (n : node) :
  recursiveInsert track_order (Dataset a p) y = Ok n -> n = Dataset a p.
Proof.
  destruct y as [ | b | z | f | s | t | items | l | l | q | r ]; simpl;
    try (now intros [= <-]).
  - destruct items as [|[k x] items]; simpl; [now intros [= <-]|].
    destruct (encodeKey k) as [newKey|e]; simpl; [|discriminate].
    destruct (insert_child track_order _ newKey x (Dataset a p)) as [p1|e] eqn:Hc;
      simpl; [|discriminate].
    destruct (insert_child_kept _ _ _ _ _ _ Hc) as (? & ? & ? & Habs & _). discriminate Habs.
  - destruct l as [|x l]; simpl; [now intros [= <-]|].
    destruct (insert_child track_order _ _ x (Dataset a p)) as [p1|e] eqn:Hc;
      simpl; [|discriminate].
    destruct (insert_child_kept _ _ _ _ _ _ Hc) as (? & ? & ? & Habs & _). discriminate Habs.
  - destruct l as [|x l]; simpl; [now intros [= <-]|].
    destruct (insert_child track_order _ _ x (Dataset a p)) as [p1|e] eqn:Hc;
      simpl; [|discriminate].
    destruct (insert_child_kept _ _ _ _ _ _ Hc) as (? & ? & ? & Habs & _). discriminate Habs.
Qed.

(** A dataset of the group stays what it is through a step that returns. *)
Lemma insert_child_keeps_dataset (name n : string) (x : value) (ty : option string)
    (links links' : list (string * node)) (a : option string) (p : payload) :
  insert_child track_order (fun child y => recursiveInsert track_order child y)
    name x (Group ty links) = Ok (Group ty links') ->
  lookup n links = Some (Dataset a p) ->
  lookup n links' = Some (Dataset a p).
Proof.
  intros H Hn.
  destruct (string_dec n name) as [-> | Hne].
  - destruct (insert_child_shape _ _ _ _ _ _ H)
      as [(Hl & _) | (old & child' & Hl & _ & Hr & [= ->])]; [congruence|].
    rewrite Hn in Hl. injection Hl as <-.
    apply recursiveInsert_dataset in Hr. subst child'.
    now rewrite (lookup_relink_same _ _ _ _ Hn).
  - now rewrite (insert_child_other _ _ _ _ _ _ _ H Hne).
Qed.

(** The loops return a group with the tag of the group they got. *)
Lemma insert_items_group (rec : node -> value -> result node)
    (items : list (key * value)) (ty : option string)
    (links : list (string * node)) (position' : node) :
  insert_items track_order rec items (Group ty links) = Ok position' ->
  exists links', position' = Group ty links'.
Proof.
  revert links. induction items as [|[k x] items IH]; intros links; simpl.
  - intros [= <-]. now exists links.
  - destruct (encodeKey k) as [newKey|e]; simpl; [|discriminate].
    destruct (insert_child track_order rec newKey x (Group ty links)) as [p1|e] eqn:Hc;
      simpl; [|discriminate].
    destruct (insert_child_kept _ _ _ _ _ _ Hc) as (ty1 & l0 & links1 & Heq & -> & _).
    injection Heq as <- <-. apply IH.
Qed.

Lemma insert_elements_group (rec : node -> value -> result node)
    (l : list value) (idx : nat) (ty : option string)
    (links : list (string * node)) (position' : node) :
  insert_elements track_order rec idx l (Group ty links) = Ok position' ->
  exists links', position' = Group ty links'.
Proof.
  revert idx links. induction l as [|x l IH]; intros idx links; simpl.
  - intros [= <-]. now exists links.
  - destruct (insert_child track_order rec _ x (Group ty links)) as [p1|e] eqn:Hc;
      simpl; [|discriminate].
    destruct (insert_child_kept _ _ _ _ _ _ Hc) as (ty1 & l0 & links1 & Heq & -> & _).
    injection Heq as <- <-. apply IH.
Qed.

Lemma insert_items_keeps_dataset (items : list (key * value)) (ty : option string)
    (links links' : list (string * node)) (n : string) (a : option string) (p : payload) :
  insert_items track_order (fun child y => recursiveInsert track_order child y)
    items (Group ty links) = Ok (Group ty links') ->
  lookup n links = Some (Dataset a p) ->
  lookup n links' = Some (Dataset a p).
Proof.
  revert links. induction items as [|[k x] items IH]; intros links; simpl.
  - now intros [= <-].
  - destruct (encodeKey k) as [newKey|e]; simpl; [|discriminate].
    destruct (insert_child track_order _ newKey x (Group ty links)) as [p1|e] eqn:Hc;
      simpl; [|discriminate].
    destruct (insert_child_kept _ _ _ _ _ _ Hc) as (ty1 & l0 & links1 & Heq & -> & _).
    injection Heq as <- <-. intros Hrest Hn.
    apply (IH links1 Hrest). now apply (insert_child_keeps_dataset _ _ _ _ _ _ _ _ Hc).
Qed.

Lemma insert_elements_keeps_dataset (l : list value) (idx : nat) (ty : option string)
    (links links' : list (string * node)) (n : string) (a : option string) (p : payload) :
  insert_elements track_order (fun child y => recursiveInsert track_order child y)
    idx l (Group ty links) = Ok (Group ty links') ->
  lookup n links = Some (Dataset a p) ->
  lookup n links' = Some (Dataset a p).
Proof.
  revert idx links. induction l as [|x l IH]; intros idx links; simpl.
  - now intros [= <-].
  - destruct (insert_child track_order _ _ x (Group ty links)) as [p1|e] eqn:Hc;
      simpl; [|discriminate].
    destruct (insert_child_kept _ _ _ _ _ _ Hc) as (ty1 & l0 & links1 & Heq & -> & _).
    injection Heq as <- <-. intros Hrest Hn.
    apply (IH _ links1 Hrest). now apply (insert_child_keeps_dataset _ _ _ _ _ _ _ _ Hc).
Qed.

End Steps.

(* ================================================================== *)
(** ** fromDict and the point accessors *)
(* ================================================================== *)

Section Written.

Variable track_order : bool.

Lemma insert_items_leaf (items : list (key * value)) (ty : option string)
    (links links' : list (string * node)) (k : key) (x : value) :
  insert_items track_order (fun child y => recursiveInsert track_order child y) items (Group ty links) = Ok (Group ty links') ->
  In (k, x) items ->
  is_container x = false ->
  exists name p tag,
    encodeKey k = Ok name /\ pack x = Ok (p, tag)
    /\ lookup name links' = Some (Dataset (Some tag) p).
Proof.
  revert links. induction items as [|[k0 x0] items IH]; intros links; simpl; [intros _ []|].
  destruct (encodeKey k0) as [newKey|e] eqn:Hk; simpl; [|discriminate].
  destruct (insert_child track_order (fun child y => recursiveInsert track_order child y) newKey x0 (Group ty links)) as [p1|e] eqn:Hc;
    simpl; [|discriminate].
  destruct (insert_child_kept _ _ _ _ _ _ Hc) as (ty1 & l0 & links1 & Heq & -> & _).
  injection Heq as <- <-.
  intros Hrest [[= <- <-] | Hin] Hleaf.
  - destruct (insert_child_shape _ _ _ _ _ _ _ Hc)
      as [(Hl & c & [= ->] & [(_ & p & tag & Hp & ->) | (Habs & _)])
         | (old & child' & _ & Habs & _)]; try congruence.
    exists newKey, p, tag. split; [exact Hk | split; [exact Hp|]].
    apply (insert_items_keeps_dataset _ _ _ _ _ _ _ _ Hrest).
    now apply lookup_add_link_same.
  - now apply (IH links1).
Qed.

Lemma insert_elements_leaf (l : list value) (idx : nat) (ty : option string)
    (links links' : list (string * node)) (i : nat) (x : value) :
  insert_elements track_order (fun child y => recursiveInsert track_order child y) idx l (Group ty links) = Ok (Group ty links') ->
  nth_error l i = Some x ->
  is_container x = false ->
  exists p tag,
    pack x = Ok (p, tag)
    /\ lookup (str_int (Z.of_nat (idx + i))) links' = Some (Dataset (Some tag) p).
Proof.
  revert idx links i. induction l as [|x0 l IH]; intros idx links i; simpl.
  - intros _ H. now destruct i.
  - destruct (insert_child track_order (fun child y => recursiveInsert track_order child y) _ x0 (Group ty links)) as [p1|e] eqn:Hc;
      simpl; [|discriminate].
    destruct (insert_child_kept _ _ _ _ _ _ Hc) as (ty1 & l0 & links1 & Heq & -> & _).
    injection Heq as <- <-.
    intros Hrest Hnth Hleaf. destruct i as [|i]; simpl in Hnth.
    + injection Hnth as ->.
      destruct (insert_child_shape _ _ _ _ _ _ _ Hc)
        as [(Hl & c & [= ->] & [(_ & p & tag & Hp & ->) | (Habs & _)])
           | (old & child' & _ & Habs & _)]; try congruence.
      exists p, tag. split; [exact Hp|]. rewrite Nat.add_0_r.
      apply (insert_elements_keeps_dataset _ _ _ _ _ _ _ _ _ Hrest).
      now apply lookup_add_link_same.
    + replace (idx + S i) with (S idx + i) by lia.
      now apply (IH (S idx) links1).
Qed.

(** The root group before and after a [fromDict] that returned. *)
Lemma fromDict_root (self self' : DictStorage) (v : value) :
  fromDict track_order self v = Ok self' ->
  exists g g',
    self_group self = Ok g /\ self_group self' = Ok g'
    /\ torchDevice self' = torchDevice self
    /\ recursiveInsert track_order
         (if isinstance_dict v then set_attr_type "dict" g
          else if isinstance_list v then set_attr_type "list" g
          else if isinstance_tuple v then set_attr_type "tuple" g
          else g) v = Ok g'.
Proof.
  unfold fromDict.
  destruct (self_group self) as [g|e] eqn:Hg; simpl; [|discriminate].
  match goal with |- (position' <- ?m ;; _) = _ -> _ => destruct m as [g'|e] eqn:Hi end;
    simpl; [|discriminate].
  intros [= <-]. exists g, g'. repeat split; auto.
  now apply (self_group_with_group self g).
Qed.

End Written.

(** X11.  After a [fromDict] of a dict that returned, [fetch] under the
    name of a key whose value is a leaf is the payload [pack] makes of that
    value. *)
Theorem fromDict_then_fetch_item
    (track_order : bool) (self self' : DictStorage)
    (items : list (key * value)) (k : key) (x : value) :
  fromDict track_order self (VDict items) = Ok self' ->
  In (k, x) items ->
  is_container x = false ->
  exists name p tag,
    encodeKey k = Ok name /\ pack x = Ok (p, tag) /\ fetch self' [name] = Ok p.
Proof.
  intros H Hin Hleaf.
  destruct (fromDict_root _ _ _ _ H) as (g & g' & Hg & Hg' & _ & Hi).
  cbn [isinstance_dict recursiveInsert] in Hi.
  destruct g as [ty links | ty q].
  - simpl in Hi.
    destruct (insert_items_group _ _ _ _ _ _ Hi) as (links' & ->).
    destruct (insert_items_leaf _ _ _ _ _ _ _ Hi Hin Hleaf)
      as (name & p & tag & Hk & Hp & Hl).
    exists name, p, tag. split; [exact Hk | split; [exact Hp|]].
    unfold fetch. rewrite Hg'. simpl. rewrite Hl. reflexivity.
  - exfalso. destruct items as [|[k0 x0] items]; [destruct Hin|].
    simpl in Hi.
    destruct (encodeKey k0); simpl in Hi; [|discriminate].
    match type of Hi with (position' <- ?m ;; _) = _ => destruct m as [p1|e] eqn:Hc end;
      simpl in Hi; [|discriminate].
    destruct (insert_child_kept _ _ _ _ _ _ Hc) as (? & ? & ? & Habs & _). discriminate Habs.
Qed.

Lemma fromDict_then_fetch_item_witness :
  exists self' name p tag,
    fromDict false (new_file "cpu")
      (VDict [(KInt 3, VStr "three"); (KStr "w", VList [VInt 1])]) = Ok self'
    /\ encodeKey (KInt 3) = Ok name /\ pack (VStr "three") = Ok (p, tag)
    /\ fetch self' [name] = Ok p.
Proof.
  eexists.
  destruct (fromDict_then_fetch_item false (new_file "cpu") _
              [(KInt 3, VStr "three"); (KStr "w", VList [VInt 1])]
              (KInt 3) (VStr "three") eq_refl (or_introl eq_refl) eq_refl)
    as (name & p & tag & H1 & H2 & H3).
  exists name, p, tag. split; [reflexivity | repeat split; assumption].
Defined.

(** X12.  After a [fromDict] of a list or tuple that returned, [fetch]
    under the decimal form of the index of an element that is a leaf is
    the payload [pack] makes of that element. *)
Theorem fromDict_then_fetch_element
    (track_order : bool) (self self' : DictStorage)
    (v : value) (i : nat) (x : value) :
  isinstance_list v || isinstance_tuple v = true ->
  fromDict track_order self v = Ok self' ->
  nth_error (elements v) i = Some x ->
  is_container x = false ->
  exists p tag,
    pack x = Ok (p, tag) /\ fetch self' [str_int (Z.of_nat i)] = Ok p.
Proof.
  intros Hv H Hnth Hleaf.
  destruct (fromDict_root _ _ _ _ H) as (g & g' & Hg & Hg' & _ & Hi).
  assert (Hseq : exists tag l,
             elements v = l
             /\ insert_elements track_order
                  (fun child y => recursiveInsert track_order child y) 0 l
                  (set_attr_type tag g) = Ok g').
  { destruct v; try discriminate Hv; simpl in Hi; eauto. }
  destruct Hseq as (tag0 & l & El & Hl). rewrite El in Hnth. clear Hi.
  destruct g as [ty links | ty q].
  - simpl in Hl.
    destruct (insert_elements_group _ _ _ _ _ _ _ Hl) as (links' & ->).
    destruct (insert_elements_leaf _ _ _ _ _ _ _ _ Hl Hnth Hleaf) as (p & tag & Hp & Hk).
    exists p, tag. split; [exact Hp|].
    unfold fetch. rewrite Hg'. simpl in Hk |- *. rewrite Hk. reflexivity.
  - exfalso. destruct l as [|x0 l]; [now destruct i|].
    simpl in Hl.
    match type of Hl with (position' <- ?m ;; _) = _ => destruct m as [p1|e] eqn:Hc end;
      simpl in Hl; [|discriminate].
    destruct (insert_child_kept _ _ _ _ _ _ Hc) as (? & ? & ? & Habs & _). discriminate Habs.
Qed.

Lemma fromDict_then_fetch_element_witness :
  exists self' p tag,
    fromDict false (new_file "cpu") (VTuple [VNone; VBool true]) = Ok self'
    /\ pack (VBool true) = Ok (p, tag) /\ fetch self' ["1"] = Ok p.
Proof.
  eexists.
  destruct (fromDict_then_fetch_element false (new_file "cpu") _
              (VTuple [VNone; VBool true]) 1 (VBool true)
              eq_refl eq_refl eq_refl eq_refl) as (p & tag & H1 & H2).
  exists p, tag. split; [reflexivity | split; assumption].
Defined.

(* ================================================================== *)
(** ** fromDict into a group that has links *)
(* ================================================================== *)

Section Merge.

Variable track_order : bool.
Variable rec : node -> value -> result node.

Lemma insert_items_other (items : list (key * value)) (ty : option string)
    (links links' : list (string * node)) (n : string) :
  insert_items track_order rec items (Group ty links) = Ok (Group ty links') ->
  (forall k x, In (k, x) items -> encodeKey k <> Ok n) ->
  lookup n links' = lookup n links.
Proof.
  revert links. induction items as [|[k0 x0] items IH]; intros links; simpl.
  - now intros [= <-].
  - destruct (encodeKey k0) as [newKey|e] eqn:Hk; simpl; [|discriminate].
    destruct (insert_child track_order rec newKey x0 (Group ty links)) as [p1|e] eqn:Hc;
      simpl; [|discriminate].
    destruct (insert_child_kept _ _ _ _ _ _ Hc) as (ty1 & l0 & links1 & Heq & -> & _).
    injection Heq as <- <-. intros Hrest Hnot.
    rewrite (IH links1 Hrest) by (intros k x Hin; apply (Hnot k x); now right).
    apply (insert_child_other _ _ _ _ _ _ _ _ Hc).
    intros ->. apply (Hnot k0 x0); [now left | exact Hk].
Qed.

Lemma insert_items_mono (items : list (key * value)) (ty : option string)
    (links links' : list (string * node)) (n : string) :
  insert_items track_order rec items (Group ty links) = Ok (Group ty links') ->
  lookup n links <> None -> lookup n links' <> None.
Proof.
  revert links. induction items as [|[k0 x0] items IH]; intros links; simpl.
  - now intros [= <-].
  - destruct (encodeKey k0) as [newKey|e] eqn:Hk; simpl; [|discriminate].
    destruct (insert_child track_order rec newKey x0 (Group ty links)) as [p1|e] eqn:Hc;
      simpl; [|discriminate].
    destruct (insert_child_kept _ _ _ _ _ _ Hc) as (ty1 & l0 & links1 & Heq & -> & _ & Hkeep).
    injection Heq as <- <-. intros Hrest Hn.
    apply (IH links1 Hrest). now apply Hkeep.
Qed.

Lemma insert_elements_names (l : list value) (idx : nat) (ty : option string)
    (links : list (string * node)) (position' : node) :
  insert_elements track_order rec idx l (Group ty links) = Ok position' ->
  (forall i, idx <= i -> lookup (str_int (Z.of_nat i)) links = None) ->
  exists cs,
    length cs = length l
    /\ position' = Group ty (add_links track_order (named idx cs) links).
Proof.
  revert idx links. induction l as [|x l IH]; intros idx links; simpl.
  - intros [= <-] _. now exists [].
  - destruct (insert_child track_order rec _ x (Group ty links)) as [p1|e] eqn:Hc;
      simpl; [|discriminate].
    intros Hrest Hfresh.
    destruct (insert_child_shape _ _ _ _ _ _ _ Hc)
      as [(_ & c & -> & _) | (old & ? & Habs & _)];
      [|rewrite (Hfresh idx (le_n idx)) in Habs; discriminate Habs].
    destruct (IH (S idx) _ Hrest) as (cs & Hlen & ->).
    + intros i Hi. rewrite lookup_add_link_other.
      * apply Hfresh. lia.
      * intros E. apply str_int_inj, Nat2Z.inj in E. lia.
    + exists (c :: cs). split; [simpl; now rewrite Hlen | reflexivity].
Qed.

End Merge.

Lemma named_fst (cs : list node) (idx : nat) :
  map fst (named idx cs) = map (fun i => str_int (Z.of_nat i)) (seq idx (length cs)).
Proof.
  revert idx. induction cs as [|c cs IH]; intros idx; simpl; [reflexivity|].
  now rewrite IH.
Qed.

(** X13.  [fromDict] of a dict whose keys, at any depth, have names that
    are one link, into a group that has links, never removes a link, and
    it leaves the links whose names are not names of keys of the dict as
    they were. *)
Theorem fromDict_keeps_other_links
    (track_order : bool) (self self' : DictStorage)
    (items : list (key * value)) (ty : option string) (links : list (string * node)) :
  keys_are_link_names (VDict items) = true ->
  self_group self = Ok (Group ty links) ->
  fromDict track_order self (VDict items) = Ok self' ->
  exists links',
    self_group self' = Ok (Group (Some "dict") links')
    /\ (forall n, lookup n links <> None -> lookup n links' <> None)
    /\ (forall n, (forall k x, In (k, x) items -> encodeKey k <> Ok n) ->
                  lookup n links' = lookup n links).
Proof.
  intros _ Hg H.
  destruct (fromDict_root _ _ _ _ H) as (g & g' & Hg0 & Hg' & _ & Hi).
  rewrite Hg in Hg0. injection Hg0 as <-.
  cbn [isinstance_dict recursiveInsert set_attr_type] in Hi.
  destruct (insert_items_group _ _ _ _ _ _ Hi) as (links' & ->).
  exists links'. split; [exact Hg' | split].
  - intros n. now apply (insert_items_mono _ _ _ _ _ _ _ Hi).
  - intros n. now apply (insert_items_other _ _ _ _ _ _ _ Hi).
Qed.

Lemma fromDict_keeps_other_links_witness :
  let old := Dataset (Some "int") (PArray (np_array_int 1)) in
  let self := mk_DictStorage (Group (Some "dict") [("old", old)]) [] "cpu" in
  exists self' links',
    fromDict false self (VDict [(KStr "new", VInt 2)]) = Ok self'
    /\ self_group self' = Ok (Group (Some "dict") links')
    /\ lookup "old" links' = Some old.
Proof.
  intros old self. eexists.
  destruct (fromDict_keeps_other_links false self _ [(KStr "new", VInt 2)]
              (Some "dict") [("old", old)] eq_refl eq_refl eq_refl) as (links' & H1 & _ & H3).
  exists links'. split; [reflexivity | split; [exact H1|]].
  rewrite H3; [reflexivity|].
  intros k x [[= <- <-] | []]. discriminate.
Defined.

(** X14.  The group [fromDict] writes for a list or tuple into an empty
    group has one link per element, and their names are the decimal forms
    of the indices 0, 1, ..., each once. *)
Theorem sequence_links_are_the_indices
    (track_order : bool) (self self' : DictStorage) (v : value) (ty : option string) :
  isinstance_list v || isinstance_tuple v = true ->
  self_group self = Ok (Group ty []) ->
  fromDict track_order self v = Ok self' ->
  exists links',
    self_group self' = Ok (Group (Some (tag_of v)) links')
    /\ Permutation (map fst links')
         (map (fun i => str_int (Z.of_nat i)) (seq 0 (length (elements v)))).
Proof.
  intros Hv Hg H.
  destruct (fromDict_root _ _ _ _ H) as (g & g' & Hg0 & Hg' & _ & Hi).
  rewrite Hg in Hg0. injection Hg0 as <-.
  assert (Hl : insert_elements track_order
                 (fun child y => recursiveInsert track_order child y) 0 (elements v)
                 (Group (Some (tag_of v)) []) = Ok g').
  { destruct v; try discriminate Hv; exact Hi. }
  destruct (insert_elements_names _ _ _ _ _ _ _ Hl) as (cs & Hlen & ->); [reflexivity|].
  eexists. split; [exact Hg'|].
  rewrite <- Hlen, <- named_fst.
  apply Permutation_map. apply (add_links_perm track_order (named 0 cs) []).
Qed.

Lemma sequence_links_are_the_indices_witness :
  exists self' links',
    fromDict false (new_file "cpu") (VList [VInt 7; VList []; VNone]) = Ok self'
    /\ self_group self' = Ok (Group (Some "list") links')
    /\ Permutation (map fst links') ["0"; "1"; "2"].
Proof.
  eexists.
  destruct (sequence_links_are_the_indices false (new_file "cpu") _
              (VList [VInt 7; VList []; VNone]) None eq_refl eq_refl eq_refl)
    as (links' & H1 & H2).
  exists links'. split; [reflexivity | split; assumption].
Defined.

(* ================================================================== *)
(** ** Keys the encoder does not accept *)
(* ================================================================== *)

Lemma holds_rejected_key_container (v : value) :
  holds_rejected_key v = true -> is_container v = true.
Proof. destruct v; simpl; try discriminate; reflexivity. Qed.

Lemma recursiveInsert_rejected_key (track_order : bool) (v : value) :
  holds_rejected_key v = true ->
  forall position, raises (recursiveInsert track_order position v).
Proof.
  induction v as [v Hleaf | items IH | l IH | l IH] using value_nested_ind.
  - intros H. apply holds_rejected_key_container in H. congruence.
  - simpl. induction IH as [|[k x] items IHx _ IHitems]; simpl; [discriminate|].
    intros H position.
    apply orb_true_iff in H. destruct H as [H | H].
    + apply orb_true_iff in H. destruct H as [H | H].
      * apply raises_bind_l. unfold rejected_key in H.
        destruct (encodeKey k) as [n|e]; [discriminate | now exists e].
      * apply raises_bind_r; intros newKey.
        apply raises_bind_l, insert_child_raises. right.
        split; [now apply holds_rejected_key_container | now apply IHx].
    + apply raises_bind_r; intros newKey.
      apply raises_bind_r; intros position'. now apply IHitems.
  - simpl. generalize 0%nat.
    induction IH as [|x l IHx _ IHl]; simpl; [discriminate|].
    intros idx H position.
    apply orb_true_iff in H. destruct H as [H | H].
    + apply raises_bind_l, insert_child_raises. right.
      split; [now apply holds_rejected_key_container | now apply IHx].
    + apply raises_bind_r; intros position'. now apply IHl.
  - simpl. generalize 0%nat.
    induction IH as [|x l IHx _ IHl]; simpl; [discriminate|].
    intros idx H position.
    apply orb_true_iff in H. destruct H as [H | H].
    + apply raises_bind_l, insert_child_raises. right.
      split; [now apply holds_rejected_key_container | now apply IHx].
    + apply raises_bind_r; intros position'. now apply IHl.
Qed.

(** X15.  [fromDict] raises for every value that has, in a dict at any
    depth, a key the encoder does not accept: a text that is reserved, or
    a key that is neither a text nor an integer.  Such a key is never
    renamed or skipped. *)
Theorem rejected_key_makes_fromDict_raise
    (track_order : bool) (self : DictStorage) (v : value) :
  holds_rejected_key v = true ->
  raises (fromDict track_order self v).
Proof.
  intros H. unfold fromDict.
  apply raises_bind_r; intros position.
  apply raises_bind_l. now apply recursiveInsert_rejected_key.
Qed.

Lemma rejected_key_makes_fromDict_raise_witness :
  raises (fromDict false (new_file "cpu")
            (VDict [(KStr "ok", VList [VDict [(KStr "__int__1", VInt 1)]])]))
  /\ raises (fromDict false (new_file "cpu") (VDict [(KOther "2.5", VNone)])).
Proof.
  split; apply (rejected_key_makes_fromDict_raise false (new_file "cpu")); reflexivity.
Defined.

(* ================================================================== *)
(** ** Nodes without a type tag *)
(* ================================================================== *)

Section Untyped.

Variable torchDevice : string.






End Untyped.



(* ================================================================== *)
(** ** The tree written in creation order *)
(* ================================================================== *)

Lemma add_links_creation_order (new links : list (string * node)) :
  add_links true new links = links ++ new.
Proof.
  revert links. induction new as [|[name c] new IH]; intros links; simpl.
  - now rewrite app_nil_r.
  - unfold add_links in *. simpl. rewrite IH. unfold add_link.
    now rewrite <- app_assoc.
Qed.

Lemma container_writes (track_order : bool) (v : value) (links : list (string * node)) :
  is_container v = true ->
  (forall ty0, recursiveInsert track_order (Group ty0 []) v = Ok (Group ty0 links)) ->
  writes track_order v (Group (Some (tag_of v)) links).
Proof.
  intros Hc Hins name ty links0 Hfresh.
  assert (Hgroup : insert_group track_order
                     (fun child y => recursiveInsert track_order child y)
                     name (tag_of v) v (Group ty links0)
                   = Ok (Group ty (add_link track_order name
                                     (Group (Some (tag_of v)) links) links0))).
  { unfold insert_group. simpl. rewrite Hfresh. simpl.
    unfold set_type. simpl.
    rewrite (lookup_add_link_same _ _ _ _ Hfresh). simpl.
    rewrite (relink_add_link _ _ _ _ _ Hfresh).
    rewrite (lookup_add_link_same _ _ _ _ Hfresh). simpl.
    rewrite Hins. simpl.
    now rewrite (relink_add_link _ _ _ _ _ Hfresh). }
  unfold insert_child.
  destruct v; try discriminate Hc; exact Hgroup.
Qed.

Section CreationOrder.

Variable torchDevice : string.

Lemma insert_items_in_order (items : list (key * value)) :
  Forall (fun kx => storable_key (fst kx) = true
                    /\ writes true (snd kx) (node_of (snd kx))) items ->
  NoDup (map (fun kx => spec_encodeKey (fst kx)) items) ->
  forall ty links,
    (forall kx, In kx items -> lookup (spec_encodeKey (fst kx)) links = None) ->
    insert_items true (fun child y => recursiveInsert true child y) items (Group ty links)
    = Ok (Group ty (links ++ map (fun kx => let '(k, y) := kx in
                                            (spec_encodeKey k, node_of y)) items)).
Proof.
  induction 1 as [|[k x] items [Hk Hw] _ IH]; intros Hnd ty links Hfresh.
  - simpl. now rewrite app_nil_r.
  - simpl in Hk, Hw. destruct (storable_key_codec _ Hk) as [He _].
    pose proof (Hw _ ty links (Hfresh (k, x) (or_introl eq_refl))) as Hstep.
    cbn [insert_items]. rewrite He. cbn [bind]. cbn [fst] in Hstep.
    rewrite Hstep. cbn [bind].
    inversion Hnd as [|? ? Hnotin Hnd']; subst.
    rewrite IH; [| exact Hnd' |].
    + unfold add_link. cbn [map]. now rewrite <- app_assoc.
    + intros kx Hin. rewrite lookup_add_link_other.
      * apply Hfresh. now right.
      * intros E. apply Hnotin. rewrite <- E.
        now apply (in_map (fun kx => spec_encodeKey (fst kx))).
Qed.

Lemma fetch_items_in_order (items : list (key * value)) :
  Forall (fun kx => storable_key (fst kx) = true
                    /\ decodes torchDevice (node_of (snd kx))
                         (to_device torchDevice (snd kx))) items ->
  forall target,
    Forall (fun k => text_or_int k = true) (map fst target) ->
    NoDup (map fst target ++ map fst items) ->
    fetch_items torchDevice (recursiveFetch torchDevice)
      (map (fun kx => let '(k, y) := kx in (spec_encodeKey k, node_of y)) items) target
    = ([], Ok (target ++ map (fun kx => let '(k, y) := kx in
                                        (k, to_device torchDevice y)) items)).
Proof.
  induction 1 as [|[k x] items [Hk Hd] _ IH]; intros target Hkeys Hnd.
  - simpl. now rewrite app_nil_r.
  - simpl in Hk, Hd. destruct (storable_key_codec _ Hk) as [_ Hdk].
    cbn [map fetch_items]. rewrite Hdk.
    unfold out_lift. rewrite out_bind_ok.
    unfold decodes in Hd. rewrite Hd, out_bind_ok.
    assert (Hnotin : ~ In k (map fst target)).
    { intros Hin. simpl in Hnd. apply NoDup_remove_2 in Hnd. apply Hnd.
      apply in_or_app. now left. }
    rewrite dict_set_new; [| constructor; [now apply storable_text_or_int | exact Hkeys]
                           | exact Hnotin].
    rewrite IH.
    + now rewrite <- app_assoc.
    + rewrite map_app. apply Forall_app. split; [exact Hkeys|].
      constructor; [now apply storable_text_or_int | constructor].
    + rewrite map_app, <- app_assoc. exact Hnd.
Qed.

Lemma storable_dict_parts (items : list (key * value)) :
  storable (VDict items) = true ->
  Forall (fun kx => storable_key (fst kx) = true) items
  /\ NoDup (map fst items)
  /\ NoDup (map (fun kx => spec_encodeKey (fst kx)) items)
  /\ Forall (fun kx => storable (snd kx) = true) items.
Proof.
  simpl. intros H.
  apply andb_true_iff in H. destruct H as [H Hv].
  apply andb_true_iff in H. destruct H as [Hk Hd].
  assert (Hkeys : Forall (fun k => storable_key k = true) (map fst items))
    by now apply Forall_forall, forallb_forall.
  assert (Hnd : NoDup (map fst items)).
  { apply distinct_keys_NoDup; [|exact Hd].
    eapply Forall_impl; [|exact Hkeys]. intros k. apply storable_text_or_int. }
  split; [|split; [exact Hnd | split]].
  - apply Forall_forall. intros kx Hin.
    apply (proj1 (Forall_forall _ _) Hkeys). now apply in_map.
  - rewrite <- (map_map fst spec_encodeKey).
    apply NoDup_map_NoDup_ForallPairs; [|exact Hnd].
    intros k k' Hin Hin' E. apply spec_encodeKey_inj; auto.
    + apply (proj1 (Forall_forall _ _) Hkeys _ Hin).
    + apply (proj1 (Forall_forall _ _) Hkeys _ Hin').
  - apply Forall_forall. intros [k x] Hin.
    apply (proj1 (forallb_forall _ _) Hv _ Hin).
Qed.

(** The node written for a storable value, and what is read from it. *)
Lemma node_of_written_and_read (x : value) :
  storable x = true ->
  writes true x (node_of x)
  /\ decodes torchDevice (node_of x) (to_device torchDevice x).
Proof.
  induction x as [x Hleaf | items IH | l IH | l IH] using value_nested_ind; intros Hs.
  - assert (Hl : stored_leaf x = true)
      by (destruct x; try discriminate Hleaf; try discriminate Hs; exact Hs).
    destruct (stored_leaf_pack x Hl) as (p & tag & Hp & Ha & Hu).
    assert (Hn : node_of x = Dataset (Some tag) p)
      by (destruct x; try discriminate Hleaf; try discriminate Hl;
          cbn [node_of]; now rewrite Hp).
    rewrite Hn. split; [now apply (leaf_writes true)|].
    unfold decodes. cbn [fetch_child is_group]. apply Hu.
  - destruct (storable_dict_parts items Hs) as (Hk & Hnd & Hnames & Hv).
    assert (Hw : Forall (fun kx => storable_key (fst kx) = true
                                   /\ writes true (snd kx) (node_of (snd kx))) items).
    { apply Forall_forall. intros kx Hin. split.
      - apply (proj1 (Forall_forall _ _) Hk _ Hin).
      - apply (proj1 (Forall_forall _ _) IH _ Hin).
        apply (proj1 (Forall_forall _ _) Hv _ Hin). }
    assert (Hd : Forall (fun kx => storable_key (fst kx) = true
                                   /\ decodes torchDevice (node_of (snd kx))
                                        (to_device torchDevice (snd kx))) items).
    { apply Forall_forall. intros kx Hin. split.
      - apply (proj1 (Forall_forall _ _) Hk _ Hin).
      - apply (proj1 (Forall_forall _ _) IH _ Hin).
        apply (proj1 (Forall_forall _ _) Hv _ Hin). }
    split.
    + apply (container_writes true (VDict items)); [reflexivity|].
      intros ty0. cbn [recursiveInsert].
      now rewrite (insert_items_in_order items Hw Hnames ty0 []).
    + unfold decodes. cbn [node_of fetch_child is_group].
      rewrite recursiveFetch_group. cbn [String.eqb Ascii.eqb Bool.eqb orb].
      rewrite (fetch_items_in_order items Hd []); [| constructor | exact Hnd].
      now rewrite out_bind_ok.
  - simpl in Hs.
    assert (Hall : Forall (fun y => writes true y (node_of y)
                                    /\ decodes torchDevice (node_of y)
                                         (to_device torchDevice y)) l).
    { apply Forall_forall. intros y Hin.
      apply (proj1 (Forall_forall _ _) IH _ Hin).
      apply (proj1 (forallb_forall _ _) Hs _ Hin). }
    assert (Hw : Forall2 (writes true) l (map node_of l)).
    { clear - Hall. induction Hall as [|y l [Hy _] _ IHl]; simpl; constructor; auto. }
    assert (Hd : Forall2 (decodes torchDevice) (map node_of l)
                   (map (to_device torchDevice) l)).
    { clear - Hall. induction Hall as [|y l [_ Hy] _ IHl]; simpl; constructor; auto. }
    split.
    + apply (container_writes true (VList l)); [reflexivity|].
      intros ty0. cbn [recursiveInsert].
      rewrite (insert_elements_writes true l _ Hw 0 ty0 []) by reflexivity.
      now rewrite add_links_creation_order.
    + unfold decodes. cbn [node_of fetch_child is_group].
      rewrite recursiveFetch_group. cbn [String.eqb Ascii.eqb Bool.eqb orb].
      rewrite (fetch_elements_decodes torchDevice _ _
                 (named_decodes torchDevice _ _ 0 Hd)).
      now rewrite out_bind_ok.
  - simpl in Hs.
    assert (Hall : Forall (fun y => writes true y (node_of y)
                                    /\ decodes torchDevice (node_of y)
                                         (to_device torchDevice y)) l).
    { apply Forall_forall. intros y Hin.
      apply (proj1 (Forall_forall _ _) IH _ Hin).
      apply (proj1 (forallb_forall _ _) Hs _ Hin). }
    assert (Hw : Forall2 (writes true) l (map node_of l)).
    { clear - Hall. induction Hall as [|y l [Hy _] _ IHl]; simpl; constructor; auto. }
    assert (Hd : Forall2 (decodes torchDevice) (map node_of l)
                   (map (to_device torchDevice) l)).
    { clear - Hall. induction Hall as [|y l [_ Hy] _ IHl]; simpl; constructor; auto. }
    split.
    + apply (container_writes true (VTuple l)); [reflexivity|].
      intros ty0. cbn [recursiveInsert].
      rewrite (insert_elements_writes true l _ Hw 0 ty0 []) by reflexivity.
      now rewrite add_links_creation_order.
    + unfold decodes. cbn [node_of fetch_child is_group].
      rewrite recursiveFetch_group. cbn [String.eqb Ascii.eqb Bool.eqb orb].
      rewrite (fetch_elements_decodes torchDevice _ _
                 (named_decodes torchDevice _ _ 0 Hd)).
      now rewrite out_bind_ok.
Qed.

End CreationOrder.

(** X17.  Where links are enumerated in creation order, [fromDict] of a
    storable container (leaves that numpy and h5py take: None, booleans,
    floats, integers from -2^63 up to 2^64 - 1, strings without NUL, dense
    tensors that require no gradient and have an element type of numpy;
    dict keys storable and pairwise distinct) into an empty group returns
    and writes the tree [node_of]: the root and every nested container a
    group tagged with its kind, every leaf a dataset tagged with its kind,
    one link per item under the name of its key and one per element under
    its index, in the order of the items and elements. *)
Theorem fromDict_writes_node_of
    (self : DictStorage) (ty : option string) (v : value) :
  self_group self = Ok (Group ty []) ->
  is_container v = true ->
  storable v = true ->
  fromDict true self v = Ok (with_group self (node_of v)).
Proof.
  intros Hg Hc Hs.
  destruct (node_of_written_and_read (torchDevice self) v Hs) as [Hw _].
  pose proof (Hw "name" None [] eq_refl) as Hstep.
  destruct (insert_child_shape _ _ _ _ _ _ _ Hstep)
    as [(_ & c & Heq & [(Habs & _) | (_ & Hr)]) | (? & ? & Habs & _)];
    try congruence; try discriminate Habs.
  injection Heq as <-.
  unfold fromDict. rewrite Hg. cbn [bind].
  replace (if isinstance_dict v then set_attr_type "dict" (Group ty [])
           else if isinstance_list v then set_attr_type "list" (Group ty [])
           else if isinstance_tuple v then set_attr_type "tuple" (Group ty [])
           else Group ty [])
    with (Group (Some (tag_of v)) [])
    by (destruct v; try discriminate Hc; reflexivity).
  now rewrite Hr.
Qed.

Lemma fromDict_writes_node_of_witness :
  fromDict true (new_file "cpu") (VDict [(KStr "b", VList [VNone]); (KInt 1, VBool true)])
  = Ok (mk_DictStorage
          (Group (Some "dict")
             [("b", Group (Some "list") [("0", Dataset (Some "None") (PArray np_array_empty))]);
              ("__int__1", Dataset (Some "bool") (PArray (np_array_bool true)))])
          [] "cpu").
Proof.
  apply (fromDict_writes_node_of (new_file "cpu") None
           (VDict [(KStr "b", VList [VNone]); (KInt 1, VBool true)])); reflexivity.
Defined.

(** X18.  Where links are enumerated in creation order, [toDict] after
    [fromDict] of a storable container (leaves that numpy and h5py take,
    dict keys storable and pairwise distinct) into an empty group returns
    the container itself, without a warning: the items of every dict in
    their order, lists and tuples of any length in their order, and every
    tensor on [self.torchDevice], whatever device it was on. *)
Theorem round_trip_in_creation_order
    (self : DictStorage) (ty : option string) (v : value) :
  self_group self = Ok (Group ty []) ->
  is_container v = true ->
  storable v = true ->
  exists self',
    fromDict true self v = Ok self'
    /\ toDict self' = ([], Ok (to_device (torchDevice self) v)).
Proof.
  intros Hg Hc Hs.
  destruct (node_of_written_and_read (torchDevice self) v Hs) as [Hw Hd].
  pose proof (Hw "name" None [] eq_refl) as Hstep.
  destruct (insert_child_shape _ _ _ _ _ _ _ Hstep)
    as [(_ & c & Heq & [(Habs & _) | (_ & Hr)]) | (? & ? & Habs & _)];
    try congruence; try discriminate Habs.
  injection Heq as <-.
  exists (with_group self (node_of v)). split.
  - unfold fromDict. rewrite Hg. cbn [bind].
    replace (if isinstance_dict v then set_attr_type "dict" (Group ty [])
             else if isinstance_list v then set_attr_type "list" (Group ty [])
             else if isinstance_tuple v then set_attr_type "tuple" (Group ty [])
             else Group ty [])
      with (Group (Some (tag_of v)) [])
      by (destruct v; try discriminate Hc; reflexivity).
    now rewrite Hr.
  - unfold toDict. rewrite (self_group_with_group self _ (node_of v) Hg).
    unfold out_lift. rewrite out_bind_ok.
    unfold decodes in Hd. cbn [with_group torchDevice].
    destruct v; try discriminate Hc; exact Hd.
Qed.

Lemma round_trip_in_creation_order_witness :
  let t := mk_ndarray "float32" [1%nat] [SFloat (S754_zero false)] in
  let v := VDict [(KStr "z", VTuple (map (fun n => VInt (Z.of_nat n)) (seq 0 12)));
                  (KStr "a", VTensor (mk_tensor "cuda:0" "torch.strided" false false false t))] in
  exists self',
    fromDict true (new_file "cpu") v = Ok self'
    /\ toDict self'
       = ([], Ok (VDict [(KStr "z", VTuple (map (fun n => VInt (Z.of_nat n)) (seq 0 12)));
                         (KStr "a", VTensor (mk_tensor "cpu" "torch.strided" false false false t))])).
Proof.
  intros t v.
  apply (round_trip_in_creation_order (new_file "cpu") None v); reflexivity.
Defined.

(* ================================================================== *)
(** ** What the decoder prints *)
(* ================================================================== *)

Lemma node_nested_ind (P : node -> Prop) :
  (forall a p, P (Dataset a p)) ->
  (forall a links, Forall (fun l => P (snd l)) links -> P (Group a links)) ->
  forall n, P n.
Proof.
  intros Hd Hg. fix IH 1. intros [a links | a p]; [|apply Hd].
  apply Hg. induction links as [|[i c] links IHl]; constructor; [apply IH | exact IHl].
Qed.

Section Printed.

Variable torchDevice : string.

Lemma out_bind_prints {A B : Type} (m : out A) (f : A -> out B) :
  Forall (eq unknown_type_warning) (fst m) ->
  (forall a, Forall (eq unknown_type_warning) (fst (f a))) ->
  Forall (eq unknown_type_warning) (fst (out_bind m f)).
Proof.
  destruct m as [w [a|e]]; simpl; intros Hw Hf; [|exact Hw].
  specialize (Hf a). destruct (f a) as [w' r]. simpl in *.
  apply Forall_app. now split.
Qed.

Lemma unpack_prints (data : node) :
  Forall (eq unknown_type_warning) (fst (unpack torchDevice data)).
Proof.
  destruct data as [a links | a p]; [constructor|].
  unfold unpack. apply out_bind_prints; [constructor|].
  intros ty.
  repeat match goal with
         | |- context [if ?b then _ else _] => destruct b
         end; try constructor.
  - reflexivity.
  - constructor.
Qed.

Lemma fetch_elements_prints (dec : node -> out value) (links : list (string * node)) :
  Forall (fun l => Forall (eq unknown_type_warning)
                     (fst (fetch_child torchDevice dec (snd l)))) links ->
  forall target,
    Forall (eq unknown_type_warning) (fst (fetch_elements torchDevice dec links target)).
Proof.
  induction 1 as [|[i c] links Hc _ IH]; intros target; cbn [fetch_elements].
  - constructor.
  - apply out_bind_prints; [exact Hc | intros x; apply IH].
Qed.

Lemma fetch_items_prints (dec : node -> out value) (links : list (string * node)) :
  Forall (fun l => Forall (eq unknown_type_warning)
                     (fst (fetch_child torchDevice dec (snd l)))) links ->
  forall target,
    Forall (eq unknown_type_warning) (fst (fetch_items torchDevice dec links target)).
Proof.
  induction 1 as [|[i c] links Hc _ IH]; intros target; cbn [fetch_items].
  - constructor.
  - apply out_bind_prints; [constructor|]. intros iOut.
    apply out_bind_prints; [exact Hc | intros x; apply IH].
Qed.

Lemma recursiveFetch_prints (position : node) :
  Forall (eq unknown_type_warning) (fst (recursiveFetch torchDevice position)).
Proof.
  induction position as [a p | a links IH] using node_nested_ind; [constructor|].
  assert (Hall : Forall (fun l => Forall (eq unknown_type_warning)
                            (fst (fetch_child torchDevice (recursiveFetch torchDevice)
                                    (snd l)))) links).
  { eapply Forall_impl; [|exact IH]. intros [i c] Hc. simpl in *.
    unfold fetch_child. destruct (is_group c); [exact Hc | apply unpack_prints]. }
  destruct a as [ty|]; [|constructor].
  rewrite recursiveFetch_group.
  destruct (String.eqb ty "list" || String.eqb ty "tuple").
  - apply out_bind_prints; [now apply fetch_elements_prints|].
    intros target. destruct (String.eqb ty "tuple"); constructor.
  - apply out_bind_prints; [now apply fetch_items_prints|].
    intros target. constructor.
Qed.

End Printed.

(** X19.  Whatever the file holds, and whether it returns or raises,
    [toDict] prints nothing but the warning for an unknown type tag. *)
Theorem toDict_prints_only_the_warning (self : DictStorage) :
  Forall (eq unknown_type_warning) (fst (toDict self)).
Proof.
  unfold toDict. apply out_bind_prints; [constructor|].
  intros position. apply recursiveFetch_prints.
Qed.

(* ================================================================== *)
(** ** Leaves numpy or h5py do not take *)
(* ================================================================== *)

Lemma numeric_dtype_object : numeric_dtype "object" = false.
Proof. reflexivity. Qed.

Section Refused.

Variable track_order : bool.

(** An integer outside int64 and uint64 becomes an array of one object,
    for which h5py has no type. *)
Lemma insert_child_object_int (rec : node -> value -> result node)
    (name : string) (z : Z) (ty : option string) (links : list (string * node)) :
  int64_or_uint64 z = false ->
  insert_child track_order rec name (VInt z) (Group ty links)
  = Raise (TypeError "Object dtype has no native HDF5 equivalent").
Proof.
  intros H. unfold insert_child, pack, create_dataset.
  cbn [isinstance_dict isinstance_list isinstance_tuple is_None isinstance_Tensor
       isinstance_bool isinstance_float isinstance_int bind np_array np_array_int
       h5_type dtype].
  now rewrite (int_dtype_object z H), numeric_dtype_object.
Qed.

(** The step that stores a leaf of the enumerated kinds that is not a
    [stored_leaf] raises. *)
Lemma insert_child_refused (rec : node -> value -> result node)
    (name : string) (x : value) (position : node) :
  plain_leaf x = true -> stored_leaf x = false ->
  raises (insert_child track_order rec name x position).
Proof.
  destruct x as [ | b | z | f | s | t | items | l | l | p | r ]; try discriminate;
    intros _ H; try discriminate H; cbn [stored_leaf] in H.
  - destruct position as [ty links | ty q].
    + rewrite (insert_child_object_int _ _ _ _ _ H). now eexists.
    + unfold insert_child, pack. cbn. now eexists.
  - unfold insert_child, pack. cbn.
    destruct position as [ty links | ty q]; [|now eexists].
    unfold create_dataset. cbn [h5_type h5_writable].
    destruct (lookup name links); [now eexists|].
    apply negb_false_iff in H. rewrite H. now eexists.
  - unfold insert_child, pack. cbn [isinstance_dict isinstance_list isinstance_tuple
                                    is_None isinstance_Tensor cpu_numpy].
    destruct (tensor_cpu_numpy_raises t H) as [e ->]. now exists e.
Qed.

End Refused.

Lemma holds_refused_leaf_container (v : value) :
  holds_refused_leaf v = true -> is_container v = true.
Proof. destruct v; simpl; try discriminate; reflexivity. Qed.

Lemma insert_child_refused_or_below (track_order : bool)
    (name : string) (x : value) (position : node) :
  (forall position0, holds_refused_leaf x = true ->
                     raises (recursiveInsert track_order position0 x)) ->
  (plain_leaf x && negb (stored_leaf x)) || holds_refused_leaf x = true ->
  raises (insert_child track_order (fun child y => recursiveInsert track_order child y)
            name x position).
Proof.
  intros IHx H. apply orb_true_iff in H. destruct H as [H | H].
  - apply andb_true_iff in H. destruct H as [Hp Hs]. apply negb_true_iff in Hs.
    now apply insert_child_refused.
  - apply insert_child_raises. right.
    split; [now apply holds_refused_leaf_container | intros child; now apply IHx].
Qed.

Lemma recursiveInsert_refused_leaf (track_order : bool) (v : value) :
  forall position, holds_refused_leaf v = true ->
                   raises (recursiveInsert track_order position v).
Proof.
  induction v as [v Hleaf | items IH | l IH | l IH] using value_nested_ind.
  - intros position H. apply holds_refused_leaf_container in H. congruence.
  - simpl. induction IH as [|[k x] items IHx _ IHitems]; simpl; [discriminate|].
    intros position H.
    apply raises_bind_r; intros newKey.
    apply orb_true_iff in H. destruct H as [H | H].
    + apply raises_bind_l. now apply insert_child_refused_or_below.
    + apply raises_bind_r; intros position'. now apply IHitems.
  - simpl. generalize 0%nat.
    induction IH as [|x l IHx _ IHl]; simpl; [discriminate|].
    intros idx position H.
    apply orb_true_iff in H. destruct H as [H | H].
    + apply raises_bind_l. now apply insert_child_refused_or_below.
    + apply raises_bind_r; intros position'. now apply IHl.
  - simpl. generalize 0%nat.
    induction IH as [|x l IHx _ IHl]; simpl; [discriminate|].
    intros idx position H.
    apply orb_true_iff in H. destruct H as [H | H].
    + apply raises_bind_l. now apply insert_child_refused_or_below.
    + apply raises_bind_r; intros position'. now apply IHl.
Qed.

(** X21.  [fromDict] raises for every value that holds, as the value of a
    dict item or as an element of a list or tuple at any depth, a leaf of
    the enumerated kinds that numpy or h5py do not take: an integer below
    -2^63 or from 2^64 on, a string with a NUL, a tensor of which
    [cpu().numpy()] raises (it requires a gradient, has an element type
    numpy lacks, ...).  For such an integer the step that stores it under
    a link name of a group raises the [TypeError] of h5py for an array of
    objects. *)
Theorem refused_leaf_makes_fromDict_raise (track_order : bool) :
  (forall (self : DictStorage) (v : value),
      holds_refused_leaf v = true ->
      raises (fromDict track_order self v))
  /\ (forall (rec : node -> value -> result node) (name : string) (z : Z)
             (ty : option string) (links : list (string * node)),
        link_name name = true ->
        int64_or_uint64 z = false ->
        insert_child track_order rec name (VInt z) (Group ty links)
        = Raise (TypeError "Object dtype has no native HDF5 equivalent")).
Proof.
  split.
  - intros self v H. unfold fromDict.
    apply raises_bind_r; intros position.
    apply raises_bind_l. now apply recursiveInsert_refused_leaf.
  - intros rec name z ty links _. apply insert_child_object_int.
Qed.

Lemma refused_leaf_makes_fromDict_raise_witness :
  let bf16 := mk_tensor "cpu" "torch.strided" false false false
                (mk_ndarray "bfloat16" [1%nat] [SFloat (S754_zero false)]) in
  let grad := mk_tensor "cpu" "torch.strided" true false false
                (mk_ndarray "float32" [1%nat] [SFloat (S754_zero false)]) in
  raises (fromDict false (new_file "cpu") (VDict [(KStr "k", VInt (2 ^ 64))]))
  /\ raises (fromDict false (new_file "cpu")
               (VDict [(KStr "k", VStr (String "a" (String zero "b")))]))
  /\ raises (fromDict false (new_file "cpu") (VList [VList [VTensor bf16]]))
  /\ raises (fromDict false (new_file "cpu") (VTuple [VTensor grad]))
  /\ insert_child false (recursiveInsert false) "k" (VInt (2 ^ 64)) (Group (Some "dict") [])
     = Raise (TypeError "Object dtype has no native HDF5 equivalent").
Proof.
  intros bf16 grad.
  pose proof (refused_leaf_makes_fromDict_raise false) as [Hraise Hint].
  split; [|split; [|split; [|split]]].
  - apply Hraise. reflexivity.
  - apply Hraise. reflexivity.
  - apply Hraise. reflexivity.
  - apply Hraise. reflexivity.
  - apply Hint; reflexivity.
Defined.
